(** * web_scraper: a shallow embedding of the crawl controller, the link
    normaliser, the DOM path builder and the JSON sinks.

    Sources embedded here:
    - [src/scraper.py]      (class [WebScraper])
    - [src/site_spider.py]  (class [SiteSpider], method [parse])
    - [src/pipelines.py]    (class [JSONPipeline])

    Python [str] is modelled as [list ascii]: the strings at hand are URLs
    and markup, and a character stands for a code point below 256.  Python
    [int] is [Z], [len] is [length] on [nat].
    The standard-library functions the source calls
    ([urllib.parse.urlsplit], [urlparse], [urlunparse], [urljoin],
    [urldefrag], [str.split], [str.strip], [str.join], and the tests of
    [time.sleep] on its argument) are transcribed from CPython 3.12 so that
    the source functions can be evaluated.  A Python [float] is a binary64
    number, Rocq's primitive [float]. *)

From stdpp Require Import gmap strings list sorting.
From Stdlib Require Import Ascii ZArith Lia Permutation.
From Corelib Require PrimFloat.

Local Open Scope list_scope.

#[local] Set Warnings "-clear-no-such-hyp,-level-tolerance".

(** ** Python strings *)

Definition str := list ascii.

(** A literal. *)
Definition py (s : string) : str := String.list_ascii_of_string s.

Definition chr_eqb (a b : ascii) : bool := Ascii.eqb a b.

Definition code (c : ascii) : nat := nat_of_ascii c.

Definition str_eqb (a b : str) : bool := bool_decide (a = b).

(** [c in s] *)
Definition has (c : ascii) (s : str) : bool := existsb (chr_eqb c) s.

(** The maximal prefix whose characters all fail [p], and the rest. *)
Fixpoint span_until (p : ascii -> bool) (s : str) : str * str :=
  match s with
  | [] => ([], [])
  | c :: s' =>
      if p c then ([], s)
      else let '(a, b) := span_until p s' in (c :: a, b)
  end.

(** [s[:s.find(c)]] and [s[s.find(c)+1:]] when [c in s]. *)
Definition before (c : ascii) (s : str) : str := fst (span_until (chr_eqb c) s).
Definition after (c : ascii) (s : str) : str := tl (snd (span_until (chr_eqb c) s)).

(** [s.split(c)] for a one-character separator: never the empty list. *)
Fixpoint split_on (c : ascii) (s : str) : list str :=
  match s with
  | [] => [[]]
  | x :: s' =>
      if chr_eqb c x then [] :: split_on c s'
      else match split_on c s' with
           | [] => [[x]]
           | seg :: segs => (x :: seg) :: segs
           end
  end.

(** [sep.join(parts)] *)
Fixpoint join (sep : str) (parts : list str) : str :=
  match parts with
  | [] => []
  | [p] => p
  | p :: ps => p ++ sep ++ join sep ps
  end.

(** [s.startswith(prefix)] *)
Fixpoint startswith (s prefix : str) {struct prefix} : bool :=
  match prefix, s with
  | [], _ => true
  | _ :: _, [] => false
  | p :: prefix', c :: s' => chr_eqb p c && startswith s' prefix'
  end.

(** [str.isspace] on one character, for code points below 256. *)
Definition is_space (c : ascii) : bool :=
  let n := code c in
  ((9 <=? n) && (n <=? 13)) || ((28 <=? n) && (n <=? 32))
  || (n =? 133) || (n =? 160).

Fixpoint lstrip_by (p : ascii -> bool) (s : str) : str :=
  match s with
  | [] => []
  | c :: s' => if p c then lstrip_by p s' else s
  end.

Definition rstrip_by (p : ascii -> bool) (s : str) : str :=
  rev (lstrip_by p (rev s)).

(** [s.strip()] *)
Definition strip (s : str) : str := rstrip_by is_space (lstrip_by is_space s).

Definition is_upper (c : ascii) : bool := (65 <=? code c) && (code c <=? 90).
Definition is_lower (c : ascii) : bool := (97 <=? code c) && (code c <=? 122).
Definition is_digit (c : ascii) : bool := (48 <=? code c) && (code c <=? 57).

(** [c.isascii() and c.isalpha()] *)
Definition is_ascii_alpha (c : ascii) : bool := is_upper c || is_lower c.

(** [str.lower] on one character; the source only lowers scheme characters,
    which are ASCII. *)
Definition lower_chr (c : ascii) : ascii :=
  if is_upper c then ascii_of_nat (code c + 32) else c.

Definition lower (s : str) : str := map lower_chr s.

Arguments chr_eqb : simpl never.
Arguments code : simpl never.
Arguments is_space : simpl never.
Arguments is_upper : simpl never.
Arguments is_lower : simpl never.
Arguments is_digit : simpl never.
Arguments is_ascii_alpha : simpl never.
Arguments lower_chr : simpl never.

(** ** urllib.parse *)

Module Urllib.

Definition uses_relative : list str :=
  map py [""; "ftp"; "http"; "gopher"; "nntp"; "imap"; "wais"; "file";
          "https"; "shttp"; "mms"; "prospero"; "rtsp"; "rtspu"; "sftp";
          "svn"; "svn+ssh"; "ws"; "wss"]%string.

Definition uses_netloc : list str :=
  map py [""; "ftp"; "http"; "gopher"; "nntp"; "telnet"; "imap"; "wais";
          "file"; "mms"; "https"; "shttp"; "snews"; "prospero"; "rtsp";
          "rtspu"; "rsync"; "svn"; "svn+ssh"; "sftp"; "nfs"; "git";
          "git+ssh"; "ws"; "wss"; "itms-services"]%string.

Definition uses_params : list str :=
  map py [""; "ftp"; "hdl"; "prospero"; "http"; "imap"; "https"; "shttp";
          "rtsp"; "rtspu"; "sip"; "sips"; "mms"; "sftp"; "tel"]%string.

Definition str_in (s : str) (l : list str) : bool := existsb (str_eqb s) l.

(** [scheme_chars]: letters, digits, [+], [-], [.] *)
Definition is_scheme_chr (c : ascii) : bool :=
  is_upper c || is_lower c || is_digit c
  || chr_eqb c "+" || chr_eqb c "-" || chr_eqb c ".".

(** [_WHATWG_C0_CONTROL_OR_SPACE]: code points 0..32 *)
Definition is_c0_or_space (c : ascii) : bool := code c <=? 32.

(** [_UNSAFE_URL_BYTES_TO_REMOVE]: tab, carriage return, line feed *)
Definition is_unsafe (c : ascii) : bool :=
  (code c =? 9) || (code c =? 13) || (code c =? 10).

Definition remove_unsafe (s : str) : str :=
  List.filter (fun c => negb (is_unsafe c)) s.

(** The characters that end the network location. *)
Definition is_delim (c : ascii) : bool :=
  chr_eqb c "/" || chr_eqb c "?" || chr_eqb c "#".

Arguments str_in : simpl never.
Arguments is_scheme_chr : simpl never.
Arguments is_c0_or_space : simpl never.
Arguments is_unsafe : simpl never.
Arguments is_delim : simpl never.

(** [_splitnetloc(url, 2)] applied to a [url] that starts with [//]:
    the argument here is [url[2:]]. *)
Definition _splitnetloc (rest : str) : str * str := span_until is_delim rest.

Record SplitResult := mkSplit {
  s_scheme : str; s_netloc : str; s_path : str;
  s_query : str; s_fragment : str }.

Record ParseResult := mkParse {
  scheme : str; netloc : str; path : str;
  params : str; query : str; fragment : str }.

(** The two host validations of [urlsplit] that rest on tables and modules
    of the Python runtime: [_check_bracketed_netloc] (run when the netloc
    holds both brackets) and the NFKC test of [_checknetloc] (run when the
    netloc is not ASCII).  Each answers [false] where Python raises
    [ValueError]. *)
Class HostChecks := {
  bracketed_ok : str -> bool;
  nfkc_ok : str -> bool }.

Section Parse.

Context `{HostChecks}.

Definition is_ascii_str (s : str) : bool := forallb (fun c => code c <? 128) s.

(** [urlsplit(url, scheme)]; [None] is [ValueError]. *)
Definition urlsplit (url0 scheme0 : str) : option SplitResult :=
  let url := remove_unsafe (lstrip_by is_c0_or_space url0) in
  let scheme := remove_unsafe
                  (rstrip_by is_c0_or_space (lstrip_by is_c0_or_space scheme0)) in
  let '(scheme, url) :=
    match url with
    | c0 :: _ =>
        if has ":" url && negb (chr_eqb c0 ":") && is_ascii_alpha c0
           && forallb is_scheme_chr (before ":" url)
        then (lower (before ":" url), after ":" url)
        else (scheme, url)
    | [] => (scheme, url)
    end in
  let '(netloc, url) :=
    if startswith url (py "//") then _splitnetloc (skipn 2 url)
    else ([], url) in
  if (has "[" netloc && negb (has "]" netloc))
     || (has "]" netloc && negb (has "[" netloc))
  then None
  else if has "[" netloc && has "]" netloc && negb (bracketed_ok netloc)
  then None
  else
    let '(url, fragment) :=
      if has "#" url then (before "#" url, after "#" url) else (url, []) in
    let '(url, query) :=
      if has "?" url then (before "?" url, after "?" url) else (url, []) in
    if negb (is_ascii_str netloc) && negb (nfkc_ok netloc) then None
    else Some (mkSplit scheme netloc url query fragment).

(** The text up to and including the last [/], and the text after it. *)
Definition rsplit_slash (s : str) : str * str :=
  let '(seg_rev, pre_rev) := span_until (chr_eqb "/") (rev s) in
  (rev pre_rev, rev seg_rev).

(** [_splitparams(url)], called only when [';' in url]. *)
Definition _splitparams (url : str) : str * str :=
  if has "/" url then
    let '(pre, seg) := rsplit_slash url in
    if has ";" seg then (pre ++ before ";" seg, after ";" seg)
    else (url, [])
  else (before ";" url, after ";" url).

(** [urlparse(url, scheme)] *)
Definition urlparse (url scheme0 : str) : option ParseResult :=
  match urlsplit url scheme0 with
  | None => None
  | Some r =>
      let '(p, prm) :=
        if str_in (s_scheme r) uses_params && has ";" (s_path r)
        then _splitparams (s_path r)
        else (s_path r, []) in
      Some (mkParse (s_scheme r) (s_netloc r) p prm (s_query r) (s_fragment r))
  end.

(** [urlunsplit((scheme, netloc, url, query, fragment))] *)
Definition urlunsplit (scheme netloc url query fragment : str) : str :=
  let url :=
    if negb (str_eqb netloc [])
       || (negb (str_eqb scheme []) && str_in scheme uses_netloc
           && negb (startswith url (py "//")))
    then py "//" ++ netloc
         ++ (if negb (str_eqb url []) && negb (startswith url (py "/"))
             then py "/" ++ url else url)
    else url in
  let url := if negb (str_eqb scheme []) then scheme ++ py ":" ++ url else url in
  let url := if negb (str_eqb query []) then url ++ py "?" ++ query else url in
  if negb (str_eqb fragment []) then url ++ py "#" ++ fragment else url.

(** [urlunparse((scheme, netloc, url, params, query, fragment))] *)
Definition urlunparse (scheme netloc url params query fragment : str) : str :=
  let url := if negb (str_eqb params []) then url ++ py ";" ++ params else url in
  urlunsplit scheme netloc url query fragment.

(** [segments[1:-1] = filter(None, segments[1:-1])] *)
Definition filter_middle (segments : list str) : list str :=
  match segments with
  | [] => []
  | [x] => [x]
  | x :: rest =>
      x :: List.filter (fun s => negb (str_eqb s [])) (removelast rest)
        ++ [List.last rest []]
  end.

(** The loop over [segments] that pops on [..] and skips [.]. *)
Fixpoint resolve_segments (segments resolved_path : list str) : list str :=
  match segments with
  | [] => resolved_path
  | seg :: rest =>
      if str_eqb seg (py "..") then resolve_segments rest (removelast resolved_path)
      else if str_eqb seg (py ".") then resolve_segments rest resolved_path
      else resolve_segments rest (resolved_path ++ [seg])
  end.

(** [urljoin(base, url)]; [None] is the [ValueError] of a parse. *)
Definition urljoin (base url : str) : option str :=
  if str_eqb base [] then Some url
  else if str_eqb url [] then Some base
  else
    match urlparse base [] with
    | None => None
    | Some b =>
        match urlparse url (scheme b) with
        | None => None
        | Some u =>
            if negb (str_eqb (scheme u) (scheme b))
               || negb (str_in (scheme u) uses_relative)
            then Some url
            else if str_in (scheme u) uses_netloc && negb (str_eqb (netloc u) [])
            then Some (urlunparse (scheme u) (netloc u) (path u) (params u)
                         (query u) (fragment u))
            else
              let netloc' :=
                if str_in (scheme u) uses_netloc then netloc b else netloc u in
              if str_eqb (path u) [] && str_eqb (params u) [] then
                let query' :=
                  if str_eqb (query u) [] then query b else query u in
                Some (urlunparse (scheme u) netloc' (path b) (params b)
                        query' (fragment u))
              else
                let base_parts := split_on "/" (path b) in
                let base_parts :=
                  if negb (str_eqb (List.last base_parts []) [])
                  then removelast base_parts else base_parts in
                let segments :=
                  if startswith (path u) (py "/") then split_on "/" (path u)
                  else filter_middle (base_parts ++ split_on "/" (path u)) in
                let resolved_path := resolve_segments segments [] in
                let resolved_path :=
                  if str_eqb (List.last segments []) (py ".")
                     || str_eqb (List.last segments []) (py "..")
                  then resolved_path ++ [[]] else resolved_path in
                let joined := join (py "/") resolved_path in
                Some (urlunparse (scheme u) netloc'
                        (if str_eqb joined [] then py "/" else joined)
                        (params u) (query u) (fragment u))
        end
    end.

(** [urldefrag(url)[0]] *)
Definition urldefrag (url : str) : option str :=
  if has "#" url then
    match urlparse url [] with
    | None => None
    | Some r => Some (urlunparse (scheme r) (netloc r) (path r) (params r)
                        (query r) [])
    end
  else Some url.

End Parse.

End Urllib.

(** A runtime whose two table-driven validations accept every host; they
    are only consulted for hosts with brackets or beyond ASCII. *)
Definition plain_hosts : Urllib.HostChecks :=
  {| Urllib.bracketed_ok := fun _ => true; Urllib.nfkc_ok := fun _ => true |}.

(** ** scraper.py: URL helpers of [WebScraper] *)

Section ScraperUrls.

Context `{Urllib.HostChecks}.

(** [WebScraper.normalize_url]: the bare [except] turns every error into
    [return url]. *)
Definition normalize_url (start_url url : str) : str :=
  match Urllib.urljoin start_url url with
  | None => url
  | Some resolved =>
      match Urllib.urlparse resolved [] with
      | None => url
      | Some parsed =>
          Urllib.scheme parsed ++ py "://" ++ Urllib.netloc parsed
          ++ Urllib.path parsed
          ++ (if negb (str_eqb (Urllib.query parsed) [])
              then py "?" ++ Urllib.query parsed else [])
      end
  end.

(** [WebScraper.is_internal_link] *)
Definition is_internal_link (start_url url : str) : bool :=
  match Urllib.urlparse url [], Urllib.urlparse start_url [] with
  | Some parsed, Some seed => str_eqb (Urllib.netloc parsed) (Urllib.netloc seed)
  | _, _ => false
  end.

End ScraperUrls.

(** ** The parsed document (BeautifulSoup) *)

(** An attribute value: a string, or a list for the multi-valued attributes
    ([class], [rel], ...). *)
Inductive attr_value :=
| AStr (s : str)
| AList (l : list str).

(** A node of the tree: a text string, a string of another class (comment,
    script or style source, ...: [get_text] leaves these out), or an element.
    [attrs] lists the element's attribute dictionary in insertion order. *)
#[warnings="-register-all"]
Inductive node :=
| Text (s : str)
| Special (s : str)
| Tag (name : str) (attrs : list (str * attr_value)) (contents : list node).

(** The [BeautifulSoup] object: the children of [[document]]. *)
Definition soup := list node.

Definition tag_name (n : node) : str :=
  match n with Tag name _ _ => name | _ => [] end.

Definition tag_attrs (n : node) : list (str * attr_value) :=
  match n with Tag _ attrs _ => attrs | _ => [] end.

Definition tag_contents (n : node) : list node :=
  match n with Tag _ _ contents => contents | _ => [] end.

Definition is_tag (n : node) : bool :=
  match n with Tag _ _ _ => true | _ => false end.

Definition attr_value_eqb (a b : attr_value) : bool :=
  match a, b with
  | AStr s, AStr t => str_eqb s t
  | AList l, AList m => bool_decide (l = m)
  | _, _ => false
  end.

(** [d.get(k)] on an attribute dictionary. *)
Fixpoint attr_get (k : str) (d : list (str * attr_value)) : option attr_value :=
  match d with
  | [] => None
  | (k', v) :: d' => if str_eqb k k' then Some v else attr_get k d'
  end.

(** Equality of two dictionaries: the same keys with the same values, in
    any order. *)
Definition attrs_eqb (a b : list (str * attr_value)) : bool :=
  (length a =? length b)
  && forallb (fun kv => match attr_get (fst kv) b with
                        | Some v => attr_value_eqb (snd kv) v
                        | None => false
                        end) a.

(** [Tag.__eq__] of bs4: the same name, the same attributes and the same
    contents, recursively; strings compare as strings. *)
Fixpoint node_eqb (a b : node) : bool :=
  match a, b with
  | (Text s | Special s), (Text t | Special t) => str_eqb s t
  | Tag n1 a1 c1, Tag n2 a2 c2 =>
      str_eqb n1 n2 && attrs_eqb a1 a2
      && (fix all_eqb (l1 l2 : list node) : bool :=
            match l1, l2 with
            | [], [] => true
            | x :: l1', y :: l2' => node_eqb x y && all_eqb l1' l2'
            | _, _ => false
            end) c1 c2
  | _, _ => false
  end.

(** [list.index(x)]: the position of the first item that is [x] or equals
    [x]; [None] is [ValueError].  In a parsed document an item that is [x]
    also equals it, so the search stops at the first item equal to [x]. *)
Fixpoint py_index (x : node) (l : list node) : option nat :=
  match l with
  | [] => None
  | y :: l' => if node_eqb y x then Some 0 else option_map S (py_index x l')
  end.

(** [parent.find_all(name, recursive=False)] *)
Definition find_children (name : str) (parent : node) : list node :=
  List.filter (fun c => is_tag c && str_eqb (tag_name c) name) (tag_contents parent).

(** An element together with [element.parents], nearest first, up to the
    [BeautifulSoup] object, which is left out: [get_path] breaks there. *)
Definition element := (node * list node)%type.

(** [find_all(True)] below one node: every element in document order. *)
Fixpoint elements_of (parents : list node) (n : node) : list element :=
  match n with
  | Text _ | Special _ => []
  | Tag _ _ contents =>
      (n, parents) :: flat_map (elements_of (n :: parents)) contents
  end.

(** [soup.find_all(True)] *)
Definition find_all_true (doc : soup) : list element :=
  flat_map (elements_of []) doc.

(** Decimal digits of a number, as [str(n)] prints them. *)
Definition digit_chr (n : nat) : ascii := ascii_of_nat (48 + n).

Fixpoint str_of_nat_fuel (fuel n : nat) (acc : str) : str :=
  match fuel with
  | 0 => acc
  | S fuel' =>
      let acc' := digit_chr (n mod 10) :: acc in
      if n / 10 =? 0 then acc' else str_of_nat_fuel fuel' (n / 10) acc'
  end.

Definition str_of_nat (n : nat) : str := str_of_nat_fuel (S n) n [].

(** ** scraper.py: [extract_dom_properties] *)

Record DomProp := mkDomProp {
  dp_tag : str;
  dp_path : str;
  dp_attributes : list (str * str);
  dp_text_preview : option str }.

(** One turn of the loop of [get_path]: the entry appended for [element]
    under [parent]. *)
Definition path_entry (element parent : node) : option str :=
  let siblings := find_children (tag_name element) parent in
  if 1 <? length siblings then
    match py_index element siblings with
    | None => None
    | Some i =>
        Some (tag_name element ++ py ":nth-of-type(" ++ str_of_nat (i + 1) ++ py ")")
    end
  else Some (tag_name element).

(** The list [path] that [get_path] accumulates, nearest level first; the
    loop breaks at a parent named [[document]]. *)
Fixpoint get_path_entries (element : node) (parents : list node)
  : option (list str) :=
  match parents with
  | [] => Some []
  | parent :: parents' =>
      if str_eqb (tag_name parent) (py "[document]") then Some []
      else
        match path_entry element parent with
        | None => None
        | Some e =>
            match get_path_entries parent parents' with
            | None => None
            | Some es => Some (e :: es)
            end
        end
  end.

(** [get_path(element)]; [None] is the [ValueError] of [siblings.index]. *)
Definition get_path (e : element) : option str :=
  match get_path_entries (fst e) (snd e) with
  | None => None
  | Some entries => Some (join (py " > ") (rev entries))
  end.

(** The plain strings below a node, in document order. *)
Fixpoint strings_of (n : node) : list str :=
  match n with
  | Text s => [s]
  | Special _ => []
  | Tag _ _ contents => flat_map strings_of contents
  end.

(** [get_text(separator, strip=True)]: the stripped strings that are not
    empty, joined by the separator. *)
Definition get_text_strip (separator : str) (ns : list node) : str :=
  join separator
    (List.filter (fun s => negb (str_eqb s []))
       (map strip (flat_map strings_of ns))).

(** [attrs[k] = v]: assignment into a dictionary. *)
Fixpoint dict_set {V} (k : str) (v : V) (d : list (str * V)) : list (str * V) :=
  match d with
  | [] => [(k, v)]
  | (k', v') :: d' =>
      if str_eqb k k' then (k', v) :: d' else (k', v') :: dict_set k v d'
  end.

(** The loop that flattens [elem.attrs] to a serialisable dictionary. *)
Definition flatten_attrs (attrs : list (str * attr_value)) : list (str * str) :=
  fold_left
    (fun acc kv =>
       match snd kv with
       | AList l => dict_set (fst kv) (join (py " ") l) acc
       | AStr s => dict_set (fst kv) s acc
       end)
    attrs [].

(** The value the loop stores for an attribute. *)
Definition flat_value (v : attr_value) : str :=
  match v with
  | AList l => join (py " ") l
  | AStr s => s
  end.

Section Extraction.

(** [raises n]: reading the properties of element [n] raises an exception
    inside the [try] of [extract_dom_properties]. *)
Variable raises : node -> bool.

(** The body of the [for] loop for one element: [Some None] when the
    element is skipped ([script], [style]), [None] when the body raises. *)
Definition dom_entry (e : element) : option (option DomProp) :=
  let elem := fst e in
  if negb (str_eqb (tag_name elem) [])
     && negb (str_eqb (tag_name elem) (py "script"))
     && negb (str_eqb (tag_name elem) (py "style"))
  then
    if raises elem then None
    else
      let text := firstn 200 (get_text_strip [] (tag_contents elem)) in
      match get_path e with
      | None => None
      | Some p =>
          Some (Some (mkDomProp (tag_name elem) p (flatten_attrs (tag_attrs elem))
                        (if negb (str_eqb text []) then Some text else None)))
      end
  else Some None.

(** The [for] loop inside the single [try]: the first exception leaves the
    loop, and [dom_props] keeps what was appended so far. *)
Fixpoint extract_loop (elems : list element) (dom_props : list DomProp)
  : list DomProp :=
  match elems with
  | [] => dom_props
  | e :: rest =>
      match dom_entry e with
      | None => dom_props
      | Some None => extract_loop rest dom_props
      | Some (Some d) => extract_loop rest (dom_props ++ [d])
      end
  end.

(** [WebScraper.extract_dom_properties] *)
Definition extract_dom_properties (doc : soup) : list DomProp :=
  extract_loop (find_all_true doc) [].

End Extraction.

(** A node as the parser builds it: the attribute dictionary of every
    element holds each key once. *)
Fixpoint parsed_node (n : node) : bool :=
  match n with
  | Text _ | Special _ => true
  | Tag _ attrs contents =>
      bool_decide (NoDup (map fst attrs)) && forallb parsed_node contents
  end.

(** [parents] is a chain of parents of [n]: each node is among the contents
    of the next. *)
Fixpoint child_chain (n : node) (parents : list node) : Prop :=
  match parents with
  | [] => True
  | p :: ps => n ∈ tag_contents p ∧ child_chain p ps
  end.

(** The test of the loop of [extract_dom_properties] on the name. *)
Definition listed_name (name : str) : bool :=
  negb (str_eqb name []) && negb (str_eqb name (py "script"))
  && negb (str_eqb name (py "style")).

(** The dictionary appended for an element whose path is [p]. *)
Definition entry_for (e : element) (p : str) : DomProp :=
  mkDomProp (tag_name (fst e)) p (flatten_attrs (tag_attrs (fst e)))
    (let text := firstn 200 (get_text_strip [] (tag_contents (fst e))) in
     if negb (str_eqb text []) then Some text else None).

(** ** scraper.py: [scrape_page] *)

(** What [page.goto], [page.content] and the HTML parser give for a URL:
    the parsed document with the title the renderer reports, or the
    exception they raise, with its [str(e)]. *)
Inductive fetched :=
| Rendered (doc : soup) (page_title : str)
| FetchError (message : str).

Record PageData := mkPageData {
  pd_url : str;
  pd_title : option str;
  pd_content : str;
  pd_internal_links : list str;
  pd_dom_properties : list DomProp }.

Record ErrorRecord := mkErrorRecord {
  er_url : str;
  er_error : str }.

(** The frontier and the results: the mutable fields of [WebScraper]. *)
Record WebScraper := mkScraper {
  start_url : str;
  visited : gset str;
  to_visit : list str;
  data : list PageData;
  errors : list ErrorRecord }.

(** [WebScraper.__init__] *)
Definition init (url : str) : WebScraper := mkScraper url ∅ [url] [] [].

(** Comparison of two strings, code point by code point. *)
Fixpoint str_leb (a b : str) : bool :=
  match a, b with
  | [], _ => true
  | _ :: _, [] => false
  | x :: a', y :: b' =>
      if code x <? code y then true
      else if code y <? code x then false
      else str_leb a' b'
  end.

Definition str_le (a b : str) : Prop := str_leb a b = true.

#[global] Instance str_le_dec a b : Decision (str_le a b).
Proof. unfold str_le. apply _. Defined.

(** [sorted(l)] on strings *)
Definition py_sorted (l : list str) : list str := merge_sort str_le l.

(** [tag.string] *)
Fixpoint tag_string (n : node) : option str :=
  match n with
  | Text s | Special s => Some s
  | Tag _ _ [c] => tag_string c
  | Tag _ _ _ => None
  end.

(** [soup.find_all(name)]: the elements with that name, in document order. *)
Definition find_all_named (name : str) (doc : soup) : list node :=
  List.filter (fun n => str_eqb (tag_name n) name) (map fst (find_all_true doc)).

(** [href.startswith(('mailto:', 'tel:', 'javascript:'))] *)
Definition skipped_scheme (href : str) : bool :=
  startswith href (py "mailto:") || startswith href (py "tel:")
  || startswith href (py "javascript:").

Section Scrape.

Context `{Urllib.HostChecks}.
Variable fetch : str -> fetched.
Variable raises : node -> bool.

(** The loop over [soup.find_all('a', href=True)]; [None] is the
    [AttributeError] of [href.startswith] on a value that is a list. *)
Fixpoint collect_links (seed : str) (anchors : list node)
    (internal_links : gset str) : option (gset str) :=
  match anchors with
  | [] => Some internal_links
  | a :: rest =>
      match attr_get (py "href") (tag_attrs a) with
      | None => collect_links seed rest internal_links
      | Some (AStr href) =>
          if negb (str_eqb href []) && negb (skipped_scheme href) then
            let normalized := normalize_url seed href in
            if is_internal_link seed normalized
            then collect_links seed rest ({[normalized]} ∪ internal_links)
            else collect_links seed rest internal_links
          else collect_links seed rest internal_links
      | Some (AList l) =>
          match l with
          | [] => collect_links seed rest internal_links
          | _ :: _ => None
          end
      end
  end.

(** The [try] block of [scrape_page]: the page data, or [inr] with the
    [str(e)] of the exception that left the block. *)
Definition scrape_body (seed url : str) : PageData + str :=
  match fetch url with
  | FetchError message => inr message
  | Rendered doc page_title =>
      let title :=
        match find_all_named (py "title") doc with
        | t :: _ => tag_string t
        | [] => Some page_title
        end in
      let content := get_text_strip [ascii_of_nat 10] doc in
      match collect_links seed (find_all_named (py "a") doc) ∅ with
      | None => inr (py "'list' object has no attribute 'startswith'")
      | Some internal_links =>
          let dom_properties := extract_dom_properties raises doc in
          inl (mkPageData url title content
                 (py_sorted (elements internal_links)) dom_properties)
      end
  end.

(** The record that the [except] block appends to [self.errors]. *)
Definition error_record (url message : str) : ErrorRecord :=
  mkErrorRecord url (py "Error scraping " ++ url ++ py ": " ++ message).

(** [WebScraper.scrape_page]: the page data, or [None] with the error
    record appended to [self.errors]. *)
Definition scrape_page (s : WebScraper) (url : str)
  : option PageData * WebScraper :=
  match scrape_body (start_url s) url with
  | inl page_data => (Some page_data, s)
  | inr message =>
      (None,
       mkScraper (start_url s) (visited s) (to_visit s) (data s)
         (errors s ++ [error_record url message]))
  end.

End Scrape.

(** ** scraper.py: [crawl] *)

(** ** time.sleep *)

Module Pytime.

Import PrimFloat.

(** Whether [time.sleep(secs)] raises for a float, as CPython 3.12 decides
    it: [ValueError] for NaN; [OverflowError] when the length in
    nanoseconds, [secs * 1e9], is outside the 64-bit count of the clock;
    [ValueError] ("sleep length must be non-negative") when it is negative;
    and last the [OSError] of the operating system, which refuses a length
    that runs past the range of its own clock (lengths of some 292 years):
    [os_rejects] stands for that answer of the system.  The length is
    rounded away from zero to a whole number of nanoseconds before the
    second and third tests, which changes neither of them.  All these
    exceptions are subclasses of [Exception]. *)
Definition sleep_raises (os_rejects : float -> bool) (secs : float) : bool :=
  let ns := mul secs 1e9 in
  negb (eqb secs secs)
  || negb (leb (-0x1p63) ns && ltb ns 0x1p63)
  || ltb ns 0
  || os_rejects secs.

(** [delay: float = 1.0], the default of [WebScraper.__init__] and of the
    command line. *)
Definition default_delay : float := 1.

End Pytime.

(** Where the control is inside [crawl]: at the [while] test, after the
    dequeue-and-mark with the URL to scrape, inside the [for] loop over
    the links still to consider, or past the loop, which an exception has
    ended. *)
Inductive point :=
| AtWhile
| AtScrape (url : str)
| AtEnqueue (links : list str)
| AtEnd.

Definition config := (point * WebScraper)%type.

Definition set_frontier (s : WebScraper) (v : gset str) (q : list str) : WebScraper :=
  mkScraper (start_url s) v q (data s) (errors s).

Definition add_data (s : WebScraper) (d : PageData) : WebScraper :=
  mkScraper (start_url s) (visited s) (to_visit s) (data s ++ [d]) (errors s).

(** The [while] test: [self.to_visit and (max_pages is None or
    len(self.data) < max_pages)] *)
Definition loop_test (max_pages : option Z) (s : WebScraper) : bool :=
  negb (bool_decide (to_visit s = []))
  && match max_pages with
     | None => true
     | Some m => (Z.of_nat (length (data s)) <? m)%Z
     end.

Section Crawl.

Context `{Urllib.HostChecks}.
Variable fetch : str -> fetched.
Variable raises : node -> bool.
(** The operating system's clock, which [time.sleep] asks last. *)
Variable os_rejects : PrimFloat.float -> bool.
(** [self.delay]: [__init__] sets it and nothing assigns it again. *)
Variable delay : PrimFloat.float.
Variable max_pages : option Z.

(** [time.sleep(self.delay)], the last statement of an iteration: the
    control is back at the [while] test; or the call raises, and the
    [except Exception] of [crawl] ends the loop with the state as it is. *)
Definition pause (s : WebScraper) : config :=
  if Pytime.sleep_raises os_rejects delay then (AtEnd, s) else (AtWhile, s).

(** One step of [crawl]; [None] when the loop is left: the [while] test
    fails, or an exception has ended the loop.  [continue], for a URL that
    is visited already, goes to the [while] test without the pause.  The
    renderer session that [crawl] starts and stops is in [fetch]. *)
Definition step (c : config) : option config :=
  let '(pt, s) := c in
  match pt with
  | AtWhile =>
      if loop_test max_pages s then
        match to_visit s with
        | [] => None
        | url :: rest =>
            if bool_decide (url ∈ visited s)
            then Some (AtWhile, set_frontier s (visited s) rest)
            else Some (AtScrape url, set_frontier s ({[url]} ∪ visited s) rest)
        end
      else None
  | AtScrape url =>
      match scrape_page fetch raises s url with
      | (Some page_data, s') =>
          Some (AtEnqueue (pd_internal_links page_data), add_data s' page_data)
      | (None, s') => Some (pause s')
      end
  | AtEnqueue [] => Some (pause s)
  | AtEnqueue (link :: links) =>
      if negb (bool_decide (link ∈ visited s))
         && negb (bool_decide (link ∈ to_visit s))
      then Some (AtEnqueue links, set_frontier s (visited s) (to_visit s ++ [link]))
      else Some (AtEnqueue links, s)
  | AtEnd => None
  end.

(** The loop run for at most [fuel] steps; [None] when the fuel runs out. *)
Fixpoint run (fuel : nat) (c : config) : option WebScraper :=
  match step c with
  | None => Some (snd c)
  | Some c' =>
      match fuel with
      | 0 => None
      | S fuel' => run fuel' c'
      end
  end.

(** [WebScraper.crawl(max_pages)] on a scraper, from the point where the
    renderer session is open ([start_browser] and [new_page] have
    returned): the [while] loop, and the handler that ends it. *)
Definition crawl (fuel : nat) (s : WebScraper) : option WebScraper :=
  run fuel (AtWhile, s).

(** The configuration after [n] steps, when the loop runs that long. *)
Fixpoint steps (n : nat) (c : config) : option config :=
  match n with
  | 0 => Some c
  | S n' =>
      match step c with
      | None => None
      | Some c' => steps n' c'
      end
  end.

(** The configurations an execution goes through, at most [fuel] steps. *)
Fixpoint run_trace (fuel : nat) (c : config) : list config :=
  c :: match step c, fuel with
       | Some c', S fuel' => run_trace fuel' c'
       | _, _ => []
       end.

(** The URL that the next step appends to [self.to_visit], if it does. *)
Definition enqueued (c : config) : list str :=
  match c with
  | (AtEnqueue (link :: _), s) =>
      if negb (bool_decide (link ∈ visited s))
         && negb (bool_decide (link ∈ to_visit s))
      then [link] else []
  | _ => []
  end.

End Crawl.

(** The URL that is marked visited and has no record yet. *)
Definition in_flight (pt : point) : list str :=
  match pt with
  | AtScrape url => [url]
  | _ => []
  end.

(** ** JSON values, as [json.dump] receives them *)

#[warnings="-register-all"]
Inductive json :=
| JNull
| JString (s : str)
| JArray (items : list json)
| JObject (fields : list (str * json)).

Definition json_of_option (o : option str) : json :=
  match o with
  | Some s => JString s
  | None => JNull
  end.

(** The dictionary that [extract_dom_properties] appends for one element. *)
Definition json_of_dom_prop (d : DomProp) : json :=
  JObject [(py "tag", JString (dp_tag d));
           (py "path", JString (dp_path d));
           (py "attributes",
            JObject (map (fun kv => (fst kv, JString (snd kv))) (dp_attributes d)));
           (py "text_preview", json_of_option (dp_text_preview d))].

(** [WebScraper.save_to_json]: the list [json_data] handed to [json.dump]. *)
Definition save_to_json (s : WebScraper) : json :=
  JArray
    (map (fun item =>
            JObject [(py "url", JString (pd_url item));
                     (py "title", json_of_option (pd_title item));
                     (py "internal_links",
                      JArray (map JString (pd_internal_links item)));
                     (py "dom_properties",
                      JArray (map json_of_dom_prop (pd_dom_properties item)))])
       (data s)).

Definition json_keys (j : json) : list str :=
  match j with
  | JObject fields => map fst fields
  | _ => []
  end.

Fixpoint assoc_get {V} (k : str) (d : list (str * V)) : option V :=
  match d with
  | [] => None
  | (k', v) :: d' => if str_eqb k k' then Some v else assoc_get k d'
  end.

Definition json_field (k : string) (j : json) : option json :=
  match j with
  | JObject fields => assoc_get (py k) fields
  | _ => None
  end.

(** ** site_spider.py: the links of [SiteSpider.parse] *)

Section Spider.

Context `{Urllib.HostChecks}.

(** The loop over [raw_links]; [None] is an exception of [urljoin],
    [urldefrag] or [urlparse], which leaves [parse].  [page_netloc] is
    [urlparse(response.url).netloc]; [response.urljoin(href)] joins against
    the URL of the response (a page without a [<base>] element). *)
Fixpoint split_links (response_url page_netloc : str) (raw_links : list str)
    (internal_links external_links : list str) : option (list str * list str) :=
  match raw_links with
  | [] => Some (internal_links, external_links)
  | href :: rest =>
      if str_eqb href [] then
        split_links response_url page_netloc rest internal_links external_links
      else if skipped_scheme href then
        split_links response_url page_netloc rest internal_links external_links
      else
        match Urllib.urljoin response_url href with
        | None => None
        | Some href1 =>
            match Urllib.urldefrag href1 with
            | None => None
            | Some href2 =>
                match Urllib.urlparse href2 [] with
                | None => None
                | Some parsed_href =>
                    if negb (str_eqb (Urllib.netloc parsed_href) [])
                       && negb (str_eqb (Urllib.netloc parsed_href) page_netloc)
                    then split_links response_url page_netloc rest
                           internal_links (external_links ++ [href2])
                    else split_links response_url page_netloc rest
                           (internal_links ++ [href2]) external_links
                end
            end
        end
  end.

(** [sorted(set(internal_links))] of [parse] *)
Definition spider_internal_links (response_url : str) (raw_links : list str)
  : option (list str) :=
  match Urllib.urlparse response_url [] with
  | None => None
  | Some parsed =>
      match split_links response_url (Urllib.netloc parsed) raw_links [] [] with
      | None => None
      | Some (internal_links, _) =>
          Some (py_sorted (elements (list_to_set internal_links : gset str)))
      end
  end.

End Spider.

(** The keys of the spider's item that [JSONPipeline] reads. *)
Record SpiderItem := mkItem {
  item_url : str;
  item_title : str;
  item_internal_links : str }.

(** [item['internal_links'] = '; '.join(...)] *)
Definition join_links (links : list str) : str := join (py "; ") links.

(** [response.css('title::text').get()]: the first text node that is a
    child of a [title] element. *)
Definition css_title_text (doc : soup) : option str :=
  head (flat_map
          (fun t => flat_map (fun c => match c with Text s => [s] | _ => [] end)
                      (tag_contents t))
          (find_all_named (py "title") doc)).

(** [response.css('a::attr(href)').getall()]: the text of the [href] of
    every [a] element that has one. *)
Definition css_hrefs (doc : soup) : list str :=
  flat_map
    (fun a => match attr_get (py "href") (tag_attrs a) with
              | Some (AStr s) => [s]
              | Some (AList l) => [join (py " ") l]
              | None => []
              end)
    (find_all_named (py "a") doc).

(** The item that [SiteSpider.parse] yields for a response, with the keys
    that [JSONPipeline] reads; [None] when [parse] raises. *)
Definition spider_item `{Urllib.HostChecks} (response_url : str) (doc : soup)
  : option SpiderItem :=
  match spider_internal_links response_url (css_hrefs doc) with
  | None => None
  | Some links =>
      Some (mkItem response_url (strip (default [] (css_title_text doc)))
              (join_links links))
  end.

(** ** pipelines.py: [JSONPipeline.close_spider] *)

(** [[link.strip() for link in s.split(';') if link.strip()]] *)
Definition recover_links (s : str) : list str :=
  map strip
    (List.filter (fun link => negb (str_eqb (strip link) [])) (split_on ";" s)).

(** The list [json_data] handed to [json.dump]; [None] when the pipeline
    holds no item and returns at once. *)
Definition close_spider (items : list SpiderItem) : option json :=
  match items with
  | [] => None
  | _ :: _ =>
      Some (JArray
              (map (fun item =>
                      JObject [(py "url", JString (item_url item));
                               (py "title", JString (item_title item));
                               (py "internal_links",
                                JArray (map JString
                                          (recover_links (item_internal_links item))));
                               (py "dom_properties", JArray [])])
                 items))
  end.

(** ** The invariant of the crawl loop *)

Section Invariant.

Context `{Urllib.HostChecks}.
Variable fetch : str -> fetched.
Variable raises : node -> bool.
Variable max_pages : option Z.
Variable seed : str.

(** The page count against the budget: below it once the [while] test has
    passed, at most the budget elsewhere. *)
Definition within_budget (c : config) : Prop :=
  match max_pages with
  | None => True
  | Some m =>
      match fst c with
      | AtScrape _ => (Z.of_nat (length (data (snd c))) < m)%Z
      | _ => (Z.of_nat (length (data (snd c))) <= Z.max 0 m)%Z
      end
  end.

Record crawl_inv (c : config) : Prop := {
  inv_seed : start_url (snd c) = seed;
  inv_nodup : NoDup (to_visit (snd c));
  inv_disjoint : ∀ u, u ∈ to_visit (snd c) → u ∉ visited (snd c);
  inv_records :
    map pd_url (data (snd c)) ++ map er_url (errors (snd c)) ++ in_flight (fst c)
    ≡ₚ elements (visited (snd c));
  inv_data :
    ∀ d, d ∈ data (snd c) → scrape_body fetch raises seed (pd_url d) = inl d;
  inv_errors :
    ∀ e, e ∈ errors (snd c) →
      ∃ m, scrape_body fetch raises seed (er_url e) = inr m
           ∧ e = error_record (er_url e) m;
  inv_budget : within_budget c }.

(** A measure that every step lowers while the page count stands still. *)
Definition weight (c : config) : nat :=
  match fst c with
  | AtWhile => 2 * length (to_visit (snd c)) + 1
  | AtScrape _ => 2 * length (to_visit (snd c)) + 2
  | AtEnqueue links => 2 * length (to_visit (snd c)) + 3 * length links + 2
  | AtEnd => 0
  end.

(** Every URL that was ever put in the frontier. *)
Definition seen (c : config) : gset str :=
  visited (snd c) ∪ list_to_set (to_visit (snd c)).

(** The links that the [for] loop has still to consider. *)
Definition pending_links (pt : point) : list str :=
  match pt with
  | AtEnqueue links => links
  | _ => []
  end.

(** The frontier against the links of the scraped pages: every link of a
    page record is in the frontier or still to be considered, every URL of
    the frontier but the seed is a link of a page record, and so is every
    link still to be considered. *)
Record frontier_inv (c : config) : Prop := {
  fr_tracked :
    ∀ d l, d ∈ data (snd c) → l ∈ pd_internal_links d →
           l ∈ seen c ∨ l ∈ pending_links (fst c);
  fr_discovered :
    ∀ u, u ∈ seen c →
         u = seed ∨ ∃ d, d ∈ data (snd c) ∧ u ∈ pd_internal_links d;
  fr_pending :
    ∀ l, l ∈ pending_links (fst c) →
         ∃ d, d ∈ data (snd c) ∧ l ∈ pd_internal_links d }.

End Invariant.

(** ** The crawl as the specification words it

    Section 4.4 of the specification, the Crawl Controller, read as a
    function of its own: the breadth-first traversal against which the
    loop of [crawl] is compared. *)

Section Reference.

Context `{Urllib.HostChecks}.
Variable fetch : str -> fetched.
Variable raises : node -> bool.
Variable page_budget : option Z.
Variable seed : str.

(** "For every internal link not in [visited] and not already in
    [pending], append to the tail of [pending]." *)
Definition spec_enqueue (visited : gset str) (pending links : list str)
  : list str :=
  fold_left
    (fun pending link =>
       if bool_decide (link ∉ visited ∧ link ∉ pending)
       then pending ++ [link] else pending)
    links pending.

(** "Loop ends ... when [len(pageRecords) >= pageBudget] (budget is
    optional; absent means unbounded)." *)
Definition spec_budget_reached (page_records : list PageData) : bool :=
  match page_budget with
  | None => false
  | Some b => (b <=? Z.of_nat (length page_records))%Z
  end.

(** The page records of the traversal.  "Dequeue the head of [pending]; if
    already [visited], skip; otherwise mark [visited]"; "on fetch success:
    run extraction; append PageRecord to results", then enqueue; "on fetch
    or extraction failure: ... do not enqueue any links from that URL";
    "loop ends when [pending] is empty", or at the budget.  [rounds] bounds
    the number of URLs dequeued; [None] when it does not suffice. *)
Fixpoint spec_page_records (rounds : nat) (visited : gset str)
    (pending : list str) (page_records : list PageData)
  : option (list PageData) :=
  match pending with
  | [] => Some page_records
  | url :: rest =>
      if spec_budget_reached page_records then Some page_records
      else
        match rounds with
        | 0 => None
        | S rounds' =>
            if bool_decide (url ∈ visited)
            then spec_page_records rounds' visited rest page_records
            else
              match scrape_body fetch raises seed url with
              | inl page =>
                  spec_page_records rounds' ({[url]} ∪ visited)
                    (spec_enqueue ({[url]} ∪ visited) rest
                       (pd_internal_links page))
                    (page_records ++ [page])
              | inr _ =>
                  spec_page_records rounds' ({[url]} ∪ visited) rest
                    page_records
              end
        end
  end.

(** The traversal from the seed: "initial: seed URL is [Pending]". *)
Definition spec_crawl (rounds : nat) : option (list PageData) :=
  spec_page_records rounds ∅ [seed] [].

End Reference.

(** [WebScraper.save_to_xlsx]: the rows [xlsx_data] handed to the data
    frame, each with its [URL] and its [Content]. *)
Definition save_to_xlsx (s : WebScraper) : list (str * str) :=
  map (fun item => (pd_url item, pd_content item)) (data s).

(** ** Documents and sites used in the examples *)

Definition elem (name : string) (contents : list node) : node :=
  Tag (py name) [] contents.

(** [<html><body><ul><li>a</li><li>b</li></ul></body></html>] *)
Definition two_li_page (a b : string) : soup :=
  [elem "html" [elem "body" [elem "ul" [elem "li" [Text (py a)];
                                         elem "li" [Text (py b)]]]]].

(** The paths of the [li] entries of an inventory. *)
Definition li_paths (inventory : list DomProp) : list str :=
  map dp_path (List.filter (fun d => str_eqb (dp_tag d) (py "li")) inventory).

Definition no_fault (_ : node) : bool := false.

(** Reading the properties of an element named [bad] raises. *)
Definition bad_fault (n : node) : bool := str_eqb (tag_name n) (py "bad").

(** [<div></div><bad></bad><p></p>] *)
Definition three_elements : soup := [elem "div" []; elem "bad" []; elem "p" []].

Definition anchor (href : string) : node :=
  Tag (py "a") [(py "href", AStr (py href))] [Text (py "link")].

Definition html_page (title : string) (hrefs : list string) : fetched :=
  Rendered
    [elem "html" [elem "head" [elem "title" [Text (py title)]];
                  elem "body" (map anchor hrefs)]]
    [].

(** A site of four pages; [/broken] and every other URL time out. *)
Definition site_fetch (url : str) : fetched :=
  if str_eqb url (py "http://a.test/") then
    html_page "home" ["/x"; "/y#top"; "http://other.test/z"; "/broken"]
  else if str_eqb url (py "http://a.test/x") then html_page "x" ["/"; "/y"; "/w"]
  else if str_eqb url (py "http://a.test/y") then html_page "y" []
  else if str_eqb url (py "http://a.test/w") then html_page "w" []
  else FetchError (py "Timeout 30000ms exceeded").

(** A system whose clock refuses no length. *)
Definition no_limit (_ : PrimFloat.float) : bool := false.

(** [--delay -1] *)
Definition negative_delay : PrimFloat.float :=
  PrimFloat.opp Pytime.default_delay.

(** A page with a title, a list of two items and one link. *)
Definition listing_page : soup :=
  [elem "html"
     [elem "head" [elem "title" [Text (py "list")]];
      elem "body" [elem "ul" [elem "li" [Text (py "a")]; elem "li" [Text (py "b")]];
                   anchor "/x"]]].

(** ** The canonical form of a URL *)

(** The query part of the canonical form. *)
Definition query_part (q : str) : str :=
  if negb (str_eqb q []) then py "?" ++ q else [].

(** The string that [normalize_url] formats from the parts of a URL. *)
Definition canonical (scheme netloc path query : str) : str :=
  scheme ++ py "://" ++ netloc ++ path ++ query_part query.

(** The text after the last [/] of a path. *)
Definition last_segment (p : str) : str := snd (Urllib.rsplit_slash p).

(** A scheme as [urlsplit] reads one from a URL: a lower-case letter first,
    then scheme characters, none in upper case. *)
Definition valid_scheme (s : str) : Prop :=
  match s with
  | [] => False
  | c0 :: _ =>
      is_lower c0 = true
      ∧ forallb (fun c => Urllib.is_scheme_chr c && negb (is_upper c)) s = true
  end.

(** [urlsplit] finds a scheme in the URL itself. *)
Definition has_scheme (u : str) : bool :=
  match Urllib.remove_unsafe (lstrip_by Urllib.is_c0_or_space u) with
  | c0 :: url' =>
      has ":" (c0 :: url') && negb (chr_eqb c0 ":") && is_ascii_alpha c0
      && forallb Urllib.is_scheme_chr (before ":" (c0 :: url'))
  | [] => false
  end.

(** [urlsplit] from the point where the scheme has been read: [url] is what
    follows the scheme. *)
Definition urlsplit_rest `{Urllib.HostChecks} (scheme url : str)
  : option Urllib.SplitResult :=
  let '(netloc, url) :=
    if startswith url (py "//") then Urllib._splitnetloc (skipn 2 url)
    else ([], url) in
  if (has "[" netloc && negb (has "]" netloc))
     || (has "]" netloc && negb (has "[" netloc))
  then None
  else if has "[" netloc && has "]" netloc && negb (Urllib.bracketed_ok netloc)
  then None
  else
    let '(url, fragment) :=
      if has "#" url then (before "#" url, after "#" url) else (url, []) in
    let '(url, query) :=
      if has "?" url then (before "?" url, after "?" url) else (url, []) in
    if negb (Urllib.is_ascii_str netloc) && negb (Urllib.nfkc_ok netloc) then None
    else Some (Urllib.mkSplit scheme netloc url query fragment).

(** The default scheme as [urlsplit] cleans it. *)
Definition clean_scheme (d : str) : str :=
  Urllib.remove_unsafe
    (rstrip_by Urllib.is_c0_or_space (lstrip_by Urllib.is_c0_or_space d)).

(** The URL as [urlsplit] cleans it. *)
Definition clean_url (u : str) : str :=
  Urllib.remove_unsafe (lstrip_by Urllib.is_c0_or_space u).

(** The parts of a URL as a parse leaves them. *)
Record parts_ok (s n p q : str) : Prop := {
  ok_scheme : valid_scheme s;
  ok_netloc : existsb Urllib.is_delim n = false ∧ existsb Urllib.is_unsafe n = false;
  ok_path : has "?" p = false ∧ has "#" p = false
            ∧ existsb Urllib.is_unsafe p = false;
  ok_query : has "#" q = false ∧ existsb Urllib.is_unsafe q = false;
  ok_params : Urllib.str_in s Urllib.uses_params = true →
              has ";" (last_segment p) = false }.

(** A base that a crawl can fetch: an [http] or [https] URL with a host. *)
Definition http_base `{Urllib.HostChecks} (base : str) : Prop :=
  ∃ b, Urllib.urlparse base [] = Some b
       ∧ (Urllib.scheme b = py "http" ∨ Urllib.scheme b = py "https")
       ∧ Urllib.netloc b ≠ [].

(** The validations of [urlsplit] on the network location, together:
    [true] when none of them raises. *)
Definition host_ok `{Urllib.HostChecks} (n : str) : bool :=
  negb ((has "[" n && negb (has "]" n)) || (has "]" n && negb (has "[" n)))
  && negb (has "[" n && has "]" n && negb (Urllib.bracketed_ok n))
  && negb (negb (Urllib.is_ascii_str n) && negb (Urllib.nfkc_ok n)).

(** The network location that [urlsplit] reads after the scheme. *)
Definition rest_netloc (url : str) : str :=
  if startswith url (py "//") then fst (Urllib._splitnetloc (skipn 2 url))
  else [].

(** A string with no white space at either end. *)
Definition trimmed (s : str) : Prop :=
  match s with [] => True | c :: _ => is_space c = false end
  ∧ match rev s with [] => True | c :: _ => is_space c = false end.

(** * Properties *)

(** ** The order of strings and [sorted] *)

Lemma code_inj a b : code a = code b → a = b.
Proof.
  unfold code. intros Heq.
  rewrite <- (ascii_nat_embedding a), <- (ascii_nat_embedding b). by rewrite Heq.
Qed.

#[global] Instance str_le_total : Total str_le.
Proof.
  intros a. unfold str_le. induction a as [|x a IH]; intros [|y b]; simpl; auto.
  destruct (Nat.ltb_spec (code x) (code y)), (Nat.ltb_spec (code y) (code x));
    auto; lia.
Qed.

#[global] Instance str_le_trans : Transitive str_le.
Proof.
  intros a. unfold str_le.
  induction a as [|x a IH]; intros [|y b] [|z c]; simpl; auto; try discriminate.
  destruct (Nat.ltb_spec (code x) (code y)), (Nat.ltb_spec (code y) (code x)),
    (Nat.ltb_spec (code y) (code z)), (Nat.ltb_spec (code z) (code y)),
    (Nat.ltb_spec (code x) (code z)), (Nat.ltb_spec (code z) (code x));
    try discriminate; try lia; auto.
  apply IH.
Qed.

#[global] Instance str_le_antisym : AntiSymm eq str_le.
Proof.
  intros a. unfold str_le.
  induction a as [|x a IH]; intros [|y b]; simpl; auto; try discriminate.
  destruct (Nat.ltb_spec (code x) (code y)), (Nat.ltb_spec (code y) (code x));
    try discriminate; try lia.
  intros Hab Hba. f_equal; [apply code_inj; lia|by apply IH].
Qed.

(** [sorted] gives one list for one set of strings, whatever the order in
    which the set is enumerated. *)
Lemma py_sorted_order_independent (l1 l2 : list str) :
  l1 ≡ₚ l2 → py_sorted l1 = py_sorted l2.
Proof.
  intros Hperm. unfold py_sorted.
  apply (Sorted_unique str_le); try apply Sorted_merge_sort; try apply _.
  by rewrite !merge_sort_Permutation.
Qed.

Lemma py_sorted_NoDup (l : list str) : NoDup l → NoDup (py_sorted l).
Proof. unfold py_sorted. by rewrite merge_sort_Permutation. Qed.

Lemma py_sorted_elem (l : list str) x : x ∈ py_sorted l ↔ x ∈ l.
Proof. unfold py_sorted. by rewrite merge_sort_Permutation. Qed.

Section CrawlProofs.

Context `{Urllib.HostChecks}.
Variable fetch : str -> fetched.
Variable raises : node -> bool.
Variable os_rejects : PrimFloat.float -> bool.
Variable delay : PrimFloat.float.
Variable max_pages : option Z.
Variable seed : str.

#[local] Abbreviation cstep := (step fetch raises os_rejects delay max_pages).
#[local] Abbreviation csteps := (steps fetch raises os_rejects delay max_pages).
#[local] Abbreviation crun := (run fetch raises os_rejects delay max_pages).
#[local] Abbreviation ctrace := (run_trace fetch raises os_rejects delay max_pages).
#[local] Abbreviation Inv := (crawl_inv fetch raises max_pages seed).
#[local] Abbreviation body := (scrape_body fetch raises).

Lemma scrape_body_url sd url d :
  body sd url = inl d → pd_url d = url.
Proof.
  unfold scrape_body.
  destruct (fetch url) as [doc pt|m]; [|discriminate].
  destruct (collect_links _ _ _); [|discriminate].
  intros [= <-]. reflexivity.
Qed.

Lemma scrape_page_ok s url d :
  body (start_url s) url = inl d →
  scrape_page fetch raises s url = (Some d, s).
Proof. unfold scrape_page. intros ->. reflexivity. Qed.

Lemma scrape_page_fail s url m :
  body (start_url s) url = inr m →
  scrape_page fetch raises s url
  = (None, mkScraper (start_url s) (visited s) (to_visit s) (data s)
             (errors s ++ [error_record url m])).
Proof. unfold scrape_page. intros ->. reflexivity. Qed.

Lemma init_inv : Inv (AtWhile, init seed).
Proof.
  split; simpl.
  - done.
  - apply NoDup_singleton.
  - intros u _. set_solver.
  - rewrite elements_empty. done.
  - intros d Hd. by apply elem_of_nil in Hd.
  - intros e He. by apply elem_of_nil in He.
  - unfold within_budget. destruct max_pages; simpl; lia.
Qed.

#[local] Ltac pause_split :=
  unfold pause in *; destruct (Pytime.sleep_raises _ _).

Lemma pause_cases s :
  pause os_rejects delay s = (AtWhile, s) ∧ Pytime.sleep_raises os_rejects delay = false
  ∨ pause os_rejects delay s = (AtEnd, s) ∧ Pytime.sleep_raises os_rejects delay = true.
Proof. unfold pause. destruct (Pytime.sleep_raises os_rejects delay); auto. Qed.

Lemma step_inv c c' : Inv c → cstep c = Some c' → Inv c'.
Proof.
  destruct c as [pt s]. intros [Hseed Hnd Hdisj Hrec Hdata Herr Hbud] Hstep.
  simpl in *. destruct pt as [|url|links|]; [| | |discriminate].
  - (* the while test, the dequeue and the mark *)
    unfold step in Hstep.
    destruct (loop_test max_pages s) eqn:Htest; [|discriminate].
    destruct (to_visit s) as [|url rest] eqn:Hq; [discriminate|].
    apply NoDup_cons in Hnd as [Hnotin Hnd].
    case_bool_decide as Hvis; injection Hstep as <-.
    + split; simpl; [done|done| |done|done|done|].
      * intros u Hu. apply Hdisj. by right.
      * unfold within_budget in *. destruct max_pages; simpl in *; done.
    + split; simpl; [done|done| | |done|done|].
      * intros u Hu. assert (u ∉ visited s) as Hu1 by (apply Hdisj; by right).
        assert (u ≠ url) as Hu2 by (intros ->; done).
        rewrite elem_of_union, elem_of_singleton. tauto.
      * rewrite elements_union_singleton by done.
        rewrite app_nil_r in Hrec.
        rewrite <- Hrec. rewrite app_assoc.
        by rewrite <- Permutation_cons_append.
      * unfold within_budget in *. destruct max_pages as [m|]; simpl in *; [|done].
        unfold loop_test in Htest. apply andb_true_iff in Htest as [_ Htest].
        by apply Z.ltb_lt in Htest.
  - (* the scrape *)
    unfold step in Hstep.
    destruct (body (start_url s) url) as [d|m] eqn:Hbody.
    + rewrite (scrape_page_ok _ _ _ Hbody) in Hstep. injection Hstep as <-.
      pose proof (scrape_body_url _ _ _ Hbody) as Hurl.
      split; simpl; [done|done|done| | |done|].
      * rewrite map_app. simpl. rewrite Hurl, app_nil_r.
        rewrite <- Hrec. simpl.
        rewrite <- app_assoc. apply Permutation_app_head. simpl.
        apply Permutation_cons_append.
      * intros d' Hd'. apply elem_of_app in Hd' as [Hd'|Hd']; [by apply Hdata|].
        apply list_elem_of_singleton in Hd' as ->. rewrite Hurl, <- Hseed. done.
      * unfold within_budget in *. destruct max_pages as [m|]; simpl in *; [|done].
        rewrite length_app. simpl. lia.
    + rewrite (scrape_page_fail _ _ _ Hbody) in Hstep. injection Hstep as <-.
      destruct (pause_cases
                  (mkScraper (start_url s) (visited s) (to_visit s) (data s)
                     (errors s ++ [error_record url m]))) as [[-> _]|[-> _]];
        (split; simpl; [done|done|done| |done| |]).
      all: try (rewrite map_app; simpl; rewrite app_nil_r; rewrite <- Hrec; done).
      all: try (intros e He; apply elem_of_app in He as [He|He];
                [by apply Herr|];
                apply list_elem_of_singleton in He as ->; simpl; exists m;
                rewrite <- Hseed; done).
      all: unfold within_budget in *; destruct max_pages as [m'|]; simpl in *;
        [lia|done].
  - (* the loop over the links *)
    unfold step in Hstep. destruct links as [|link links].
    + injection Hstep as <-.
      destruct (pause_cases s) as [[-> _]|[-> _]]; split; simpl; done.
    + destruct (negb (bool_decide (link ∈ visited s))
                && negb (bool_decide (link ∈ to_visit s))) eqn:Hnew;
        injection Hstep as <-; [|split; simpl; done].
      apply andb_true_iff in Hnew as [Hv Hq].
      apply negb_true_iff, bool_decide_eq_false in Hv, Hq.
      split; simpl; [done| | |done|done|done|done].
      * apply NoDup_app. split_and!; [done| |apply NoDup_singleton].
        intros u Hu Hu'. apply list_elem_of_singleton in Hu' as ->. done.
      * intros u Hu. apply elem_of_app in Hu as [Hu|Hu]; [by apply Hdisj|].
        apply list_elem_of_singleton in Hu as ->. done.
Qed.

Lemma steps_inv n : ∀ c c', Inv c → csteps n c = Some c' → Inv c'.
Proof.
  induction n as [|n IH]; intros c c' Hinv Hs; simpl in Hs.
  - by injection Hs as <-.
  - destruct (cstep c) as [c1|] eqn:Hstep; [|discriminate].
    eapply IH; [|exact Hs]. by eapply step_inv.
Qed.

Lemma trace_inv fuel : ∀ c, Inv c → Forall Inv (ctrace fuel c).
Proof.
  induction fuel as [|fuel IH]; intros c Hinv; simpl.
  - destruct (cstep c); (constructor; [done|constructor]).
  - destruct (cstep c) as [c'|] eqn:Hstep; [|constructor; [done|constructor]].
    constructor; [done|]. apply IH. by eapply step_inv.
Qed.

(** A run that returns has come, in a number of steps, to a configuration
    with no next step: the [while] test has failed, or the loop has been
    ended. *)
Lemma run_steps fuel : ∀ c s',
  crun fuel c = Some s' →
  ∃ n pt, csteps n c = Some (pt, s') ∧ cstep (pt, s') = None
          ∧ (pt = AtWhile ∨ pt = AtEnd).
Proof.
  assert (Hhalt : ∀ c, cstep c = None → fst c = AtWhile ∨ fst c = AtEnd).
  { intros [[|url|[|l ls]|] s]; simpl; try discriminate; [by left| | |by right].
    - destruct (scrape_page _ _ _ _) as [[d|] s1]; discriminate.
    - destruct (_ && _); discriminate. }
  induction fuel as [|fuel IH]; intros c s' Hrun; simpl in Hrun.
  - destruct (cstep c) as [c'|] eqn:Hstep; [discriminate|].
    injection Hrun as <-. exists 0, (fst c). simpl.
    destruct c as [pt s]. split_and!; [done|done|exact (Hhalt _ Hstep)].
  - destruct (cstep c) as [c'|] eqn:Hstep.
    + destruct (IH _ _ Hrun) as (n & pt & Hn & Hend). exists (S n), pt. simpl.
      rewrite Hstep. done.
    + injection Hrun as <-. exists 0, (fst c). simpl.
      destruct c as [pt s]. split_and!; [done|done|exact (Hhalt _ Hstep)].
Qed.

(** The loop is ended only by a pause that raises. *)
Lemma steps_end n : ∀ c s',
  csteps n c = Some (AtEnd, s') → fst c ≠ AtEnd →
  Pytime.sleep_raises os_rejects delay = true.
Proof.
  induction n as [|n IH]; intros c s' Hs Hc; simpl in Hs.
  - injection Hs as ->. done.
  - destruct (cstep c) as [c1|] eqn:Hstep; [|discriminate].
    assert (Hdec : fst c1 = AtEnd ∨ fst c1 ≠ AtEnd)
      by (destruct c1 as [[| | |] ?]; simpl; auto).
    destruct Hdec as [Hend|Hend]; [|by eapply IH].
    clear IH Hs. destruct c as [[|url|[|l ls]|] s]; simpl in *; try done.
    + destruct (loop_test max_pages s); [|discriminate].
      destruct (to_visit s) as [|u rest]; [discriminate|].
      case_bool_decide; injection Hstep as <-; done.
    + destruct (scrape_page _ _ _ _) as [[d|] s1]; injection Hstep as <-;
        [done|]. unfold pause in Hend.
      by destruct (Pytime.sleep_raises os_rejects delay).
    + injection Hstep as <-. unfold pause in Hend.
      by destruct (Pytime.sleep_raises os_rejects delay).
    + destruct (_ && _); injection Hstep as <-; done.
Qed.

(** The frontier only grows: what was seen stays seen, and a URL that a
    step appends to the queue was not seen before. *)
Lemma seen_step c c' :
  cstep c = Some c' →
  seen c ⊆ seen c'
  ∧ (∀ u, u ∈ enqueued c → u ∉ seen c ∧ u ∈ seen c').
Proof.
  destruct c as [[|url|[|link links]|] s]; unfold seen; simpl; intros Hstep;
    [| | | |discriminate].
  - destruct (loop_test max_pages s); [|discriminate].
    destruct (to_visit s) as [|url rest]; [discriminate|].
    case_bool_decide; injection Hstep as <-; simpl;
      (split; [set_solver|intros u Hu; by apply elem_of_nil in Hu]).
  - unfold scrape_page in Hstep.
    destruct (scrape_body _ _ _ _) as [d|m]; [|pause_split];
      injection Hstep as <-; simpl;
      (split; [set_solver|intros u Hu; by apply elem_of_nil in Hu]).
  - pause_split; injection Hstep as <-; simpl;
      (split; [set_solver|intros u Hu; by apply elem_of_nil in Hu]).
  - destruct (negb (bool_decide (link ∈ visited s))
              && negb (bool_decide (link ∈ to_visit s))) eqn:Hnew;
      injection Hstep as <-; simpl.
    + apply andb_true_iff in Hnew as [Hv Hq].
      apply negb_true_iff, bool_decide_eq_false in Hv, Hq.
      split.
      * rewrite list_to_set_app_L. set_solver.
      * intros u Hu. apply list_elem_of_singleton in Hu as ->.
        rewrite list_to_set_app_L. set_solver.
    + split; [set_solver|intros u Hu; by apply elem_of_nil in Hu].
Qed.

Lemma enqueue_log_fresh fuel : ∀ c,
  NoDup (flat_map enqueued (ctrace fuel c))
  ∧ ∀ u, u ∈ flat_map enqueued (ctrace fuel c) → u ∉ seen c.
Proof.
  assert (Hone : ∀ c, NoDup (enqueued c)).
  { intros [[|url|[|link links]|] s]; simpl; try apply NoDup_nil_2.
    destruct (_ && _); [apply NoDup_singleton|apply NoDup_nil_2]. }
  assert (Hlast : ∀ c, cstep c = None → enqueued c = []).
  { intros [[|url|[|link links]|] s]; simpl; try done.
    destruct (_ && _); discriminate. }
  induction fuel as [|fuel IH]; intros c; simpl.
  - assert (enqueued c ++ [] = enqueued c ∧
            (cstep c = None ∨ ∃ c', cstep c = Some c')) as [_ Hc].
    { split; [apply app_nil_r|]. destruct (cstep c); eauto. }
    assert (flat_map enqueued
              match cstep c with Some _ => [] | None => [] end = []) as ->.
    { by destruct (cstep c). }
    rewrite app_nil_r. split; [apply Hone|].
    intros u Hu. destruct Hc as [Hc|[c' Hc]].
    + rewrite (Hlast _ Hc) in Hu. by apply elem_of_nil in Hu.
    + by apply (seen_step _ _ Hc).
  - destruct (cstep c) as [c'|] eqn:Hstep.
    + destruct (IH c') as [Hnd Hfresh].
      destruct (seen_step _ _ Hstep) as [Hmono Henq].
      split.
      * apply NoDup_app. split_and!; [apply Hone| |done].
        intros u Hu Hu'. apply (Hfresh _ Hu'). by apply Henq.
      * intros u Hu. apply elem_of_app in Hu as [Hu|Hu]; [by apply Henq|].
        intros Hs. apply (Hfresh _ Hu). by apply Hmono.
    + simpl. rewrite app_nil_r. rewrite (Hlast _ Hstep).
      split; [apply NoDup_nil_2|]. intros u Hu. by apply elem_of_nil in Hu.
Qed.

(** Where a crawl that returns has stopped: at the [while] test, or past
    the loop when the pause has raised; the invariant holds there. *)
Lemma crawl_end fuel s' :
  crawl fetch raises os_rejects delay max_pages fuel (init seed) = Some s' →
  ∃ n pt, csteps n (AtWhile, init seed) = Some (pt, s')
          ∧ cstep (pt, s') = None
          ∧ (pt = AtWhile ∨ pt = AtEnd ∧ Pytime.sleep_raises os_rejects delay = true)
          ∧ Inv (pt, s').
Proof.
  intros Hrun. apply run_steps in Hrun as (n & pt & Hn & Hend & Hpt).
  exists n, pt. split_and!; [done|done| |by eapply steps_inv; [apply init_inv|]].
  destruct Hpt as [->| ->]; [by left|right]. split; [done|].
  by apply (steps_end _ _ _ Hn).
Qed.

(** C2 (amended). A crawl that ends holds at most [B] page records when it
    was given a page budget [B] that is not negative, and with or without
    a budget its visited set has as many URLs as there are page records
    and error records together: the URLs of the records are the visited
    URLs, each exactly once. *)
Theorem crawl_budget_and_accounting fuel s' :
  crawl fetch raises os_rejects delay max_pages fuel (init seed) = Some s' →
  (∀ B : Z, max_pages = Some B → (0 <= B)%Z →
            (Z.of_nat (length (data s')) <= B)%Z)
  ∧ size (visited s') = length (data s') + length (errors s')
  ∧ map pd_url (data s') ++ map er_url (errors s') ≡ₚ elements (visited s').
Proof.
  intros Hrun. apply crawl_end in Hrun as (n & pt & _ & _ & Hpt & Hinv).
  destruct Hinv as [_ _ _ Hrec _ _ Hbud].
  assert (Hflight : in_flight pt = []) by (by destruct Hpt as [->|[-> _]]).
  simpl in *. rewrite Hflight, app_nil_r in Hrec. split_and!.
  - intros B HB HB0. unfold within_budget in Hbud. rewrite HB in Hbud.
    destruct Hpt as [->|[-> _]]; simpl in Hbud; lia.
  - unfold size, set_size. simpl. rewrite <- Hrec.
    by rewrite length_app, !length_map.
  - done.
Qed.

(** C3. In every configuration a crawl goes through, whatever the point of
    the loop, no queued URL is visited and the queue holds no URL twice;
    and counting the seed, the URLs put in the queue during the crawl are
    pairwise distinct: a URL enters the queue at most once. *)
Theorem frontier_invariant fuel :
  Forall (λ c : config,
            NoDup (to_visit (snd c))
            ∧ ∀ u, u ∈ to_visit (snd c) → u ∉ visited (snd c))
    (ctrace fuel (AtWhile, init seed))
  ∧ NoDup (seed :: flat_map enqueued (ctrace fuel (AtWhile, init seed))).
Proof.
  split.
  - eapply Forall_impl; [apply trace_inv, init_inv|].
    intros c [_ Hnd Hdisj _ _ _ _]. done.
  - destruct (enqueue_log_fresh fuel (AtWhile, init seed)) as [Hnd Hfresh].
    apply NoDup_cons. split; [|done].
    intros Hin. apply (Hfresh _ Hin). unfold seen. simpl. set_solver.
Qed.

Lemma step_errors_prefix c c' :
  cstep c = Some c' → errors (snd c) `prefix_of` errors (snd c').
Proof.
  destruct c as [[|url|[|link links]|] s]; simpl; intros Hstep;
    [| | | |discriminate].
  - destruct (loop_test max_pages s); [|discriminate].
    destruct (to_visit s) as [|url rest]; [discriminate|].
    case_bool_decide; injection Hstep as <-; done.
  - unfold scrape_page in Hstep.
    destruct (scrape_body _ _ _ _) as [d|m]; [|pause_split];
      injection Hstep as <-; simpl; try done; by apply prefix_app_r.
  - pause_split; by injection Hstep as <-.
  - destruct (_ && _); by injection Hstep as <-.
Qed.

Lemma steps_errors_prefix n : ∀ c c',
  csteps n c = Some c' → errors (snd c) `prefix_of` errors (snd c').
Proof.
  induction n as [|n IH]; intros c c' Hs; simpl in Hs.
  - by injection Hs as <-.
  - destruct (cstep c) as [c1|] eqn:Hstep; [|discriminate].
    etrans; [by eapply step_errors_prefix|by eapply IH].
Qed.

Lemma filter_unique_key {A} (f : A → str) (x : A) (l : list A) :
  NoDup (map f l) → x ∈ l → filter (λ e, f e = f x) l = [x].
Proof.
  induction l as [|y l IH]; simpl; intros Hnd Hx.
  - by apply elem_of_nil in Hx.
  - apply NoDup_cons in Hnd as [Hy Hnd].
    assert (Hnone : ∀ z, z ∉ map f l → filter (λ e, f e = z) l = []).
    { clear. intros z. induction l as [|e l IH]; simpl; intros Hz; [done|].
      apply not_elem_of_cons in Hz as [Hne Hz].
      rewrite filter_cons_False by done. by apply IH. }
    apply elem_of_cons in Hx as [->|Hx].
    + rewrite filter_cons_True by done. by rewrite Hnone.
    + rewrite filter_cons_False; [by apply IH|].
      intros Heq. apply Hy. rewrite Heq. by apply list_elem_of_fmap_2.
Qed.

(** With a pause that raises the loop never comes back to its test: the
    seed is the one URL that is scraped, with an empty queue. *)
Lemma abort_step c c' :
  Pytime.sleep_raises os_rejects delay = true →
  match fst c with
  | AtWhile => snd c = init seed
  | AtScrape _ => to_visit (snd c) = []
  | _ => True
  end →
  cstep c = Some c' →
  match fst c' with
  | AtWhile => snd c' = init seed
  | AtScrape _ => to_visit (snd c') = []
  | _ => True
  end.
Proof.
  intros Hraise. destruct c as [[|url|[|link links]|] s]; simpl;
    intros Hc Hstep; [| | | |discriminate].
  - subst s. simpl in Hstep. destruct (loop_test _ _); [|discriminate].
    case_bool_decide; injection Hstep as <-; [set_solver|done].
  - destruct (scrape_page _ _ _ _) as [[d|] s1]; injection Hstep as <-; [done|].
    unfold pause. by rewrite Hraise.
  - injection Hstep as <-. unfold pause. by rewrite Hraise.
  - destruct (_ && _); by injection Hstep as <-.
Qed.

Lemma abort_steps n : ∀ c c',
  Pytime.sleep_raises os_rejects delay = true →
  match fst c with
  | AtWhile => snd c = init seed
  | AtScrape _ => to_visit (snd c) = []
  | _ => True
  end →
  csteps n c = Some c' →
  match fst c' with
  | AtWhile => snd c' = init seed
  | AtScrape _ => to_visit (snd c') = []
  | _ => True
  end.
Proof.
  induction n as [|n IH]; intros c c' Hraise Hc Hs; simpl in Hs.
  - by injection Hs as <-.
  - destruct (cstep c) as [c1|] eqn:Hstep; [|discriminate].
    eapply IH; [done| |exact Hs]. by eapply abort_step.
Qed.

(** C4. When the crawl comes to scrape a URL whose fetch or extraction
    fails, its next step appends the error record of that URL and leaves
    the page records and the queue as they were (no link of that URL is
    queued).  The pause that ends the iteration then brings the loop back
    to its [while] test, so that the run goes on with the URLs still
    queued; when the pause itself raises, a delay that is negative or not
    a number, the loop ends there, and nothing was left in the queue.  In
    every later configuration there is exactly one error record for that
    URL and no page record for it. *)
Theorem failed_page_recorded_once n s url m :
  csteps n (AtWhile, init seed) = Some (AtScrape url, s) →
  body seed url = inr m →
  let s' := mkScraper (start_url s) (visited s) (to_visit s) (data s)
              (errors s ++ [error_record url m]) in
  cstep (AtScrape url, s) = Some (pause os_rejects delay s')
  ∧ (if Pytime.sleep_raises os_rejects delay
     then pause os_rejects delay s' = (AtEnd, s') ∧ to_visit s' = []
     else pause os_rejects delay s' = (AtWhile, s')
          ∧ (∀ fuel, crun (S fuel) (AtScrape url, s) = crun fuel (AtWhile, s'))
          ∧ (is_Some (cstep (AtWhile, s')) ↔ loop_test max_pages s' = true))
  ∧ ∀ k c, csteps k (pause os_rejects delay s') = Some c →
      filter (λ e, er_url e = url) (errors (snd c)) = [error_record url m]
      ∧ ∀ d, d ∈ data (snd c) → pd_url d ≠ url.
Proof.
  intros Hreach Hfail s'.
  pose proof (steps_inv _ _ _ init_inv Hreach) as Hinv.
  assert (Hseed : start_url s = seed) by apply Hinv.
  assert (Hstep : cstep (AtScrape url, s) = Some (pause os_rejects delay s')).
  { simpl. rewrite <- Hseed in Hfail. by rewrite (scrape_page_fail _ _ _ Hfail). }
  split_and!.
  - done.
  - destruct (pause_cases s') as [[Hp Hsleep]|[Hp Hsleep]]; rewrite Hsleep.
    + split_and!; [done| |].
      * intros fuel. change (crun (S fuel) (AtScrape url, s))
          with (match cstep (AtScrape url, s) with
                | None => Some s
                | Some c' => crun fuel c'
                end).
        by rewrite Hstep, Hp.
      * simpl. destruct (loop_test max_pages s') eqn:Htest.
        -- unfold loop_test in Htest. apply andb_true_iff in Htest as [Hq _].
           apply negb_true_iff, bool_decide_eq_false in Hq.
           simpl in *. destruct (to_visit s) as [|u rest]; [done|].
           case_bool_decide; split; eauto.
        -- split; [intros [c Hc]; discriminate|discriminate].
    + split; [done|].
      exact (abort_steps n (AtWhile, init seed) (AtScrape url, s) Hsleep eq_refl Hreach).
  - intros k c Hk.
    pose proof (steps_inv _ _ _ (step_inv _ _ Hinv Hstep) Hk)
      as [_ _ _ Hrec _ _ _].
    assert (Hnd : NoDup (map pd_url (data (snd c)) ++ map er_url (errors (snd c)))).
    { assert (Hall : NoDup (map pd_url (data (snd c))
                            ++ map er_url (errors (snd c)) ++ in_flight (fst c))).
      { rewrite Hrec. apply NoDup_elements. }
      rewrite app_assoc in Hall. by apply NoDup_app in Hall as [? _]. }
    apply NoDup_app in Hnd as (_ & Hsep & Hnd).
    assert (Hin : error_record url m ∈ errors (snd c)).
    { destruct (steps_errors_prefix _ _ _ Hk) as [l Hl]. rewrite Hl.
      assert (Hsnd : snd (pause os_rejects delay s') = s')
        by (unfold pause; by destruct (Pytime.sleep_raises os_rejects delay)).
      rewrite Hsnd. simpl.
      apply elem_of_app. left. apply elem_of_app. right. by left. }
    split.
    + exact (filter_unique_key er_url (error_record url m) _ Hnd Hin).
    + intros d Hd Hurl. apply (Hsep url).
      * rewrite <- Hurl. by apply list_elem_of_fmap_2.
      * change url with (er_url (error_record url m)).
        by apply list_elem_of_fmap_2.
Qed.

Lemma step_measure B c c' :
  max_pages = Some B → Inv c → cstep c = Some c' →
  (Z.to_nat (B - Z.of_nat (length (data (snd c'))))
   < Z.to_nat (B - Z.of_nat (length (data (snd c)))))
  ∨ (length (data (snd c')) = length (data (snd c)) ∧ weight c' < weight c).
Proof.
  intros HB [_ _ _ _ _ _ Hbud] Hstep. unfold within_budget in Hbud.
  rewrite HB in Hbud.
  destruct c as [[|url|[|link links]|] s]; simpl in *; [| | | |discriminate].
  - destruct (loop_test max_pages s); [|discriminate].
    destruct (to_visit s) as [|u rest] eqn:Hq; [discriminate|].
    case_bool_decide; injection Hstep as <-; right;
      unfold weight; simpl; rewrite Hq; simpl; lia.
  - unfold scrape_page in Hstep.
    destruct (scrape_body _ _ _ _) as [d|m]; [|pause_split];
      injection Hstep as <-.
    + left. simpl. rewrite length_app. simpl. lia.
    + right. unfold weight. simpl. lia.
    + right. unfold weight. simpl. lia.
  - pause_split; injection Hstep as <-; right; unfold weight; simpl; lia.
  - destruct (_ && _); injection Hstep as <-; right; unfold weight; simpl;
      rewrite ?length_app; simpl; lia.
Qed.

(** With a budget that is zero or negative the loop body never runs. *)
Lemma crawl_without_budget m fuel :
  max_pages = Some m → (m <= 0)%Z →
  crawl fetch raises os_rejects delay max_pages fuel (init seed) = Some (init seed).
Proof.
  intros -> Hm. unfold crawl.
  assert (Hstep : step fetch raises os_rejects delay (Some m) (AtWhile, init seed) = None).
  { simpl. unfold loop_test. simpl.
    destruct (Z.ltb_spec (Z.of_nat 0) m); [lia|done]. }
  destruct fuel; cbn -[step]; by rewrite Hstep.
Qed.

(** With a page budget the loop always ends: some amount of fuel lets
    [crawl] return. *)
Theorem crawl_terminates B :
  max_pages = Some B →
  ∃ fuel s', crawl fetch raises os_rejects delay max_pages fuel (init seed) = Some s'.
Proof.
  intros HB.
  assert (Hgen : ∀ k w c,
            Inv c →
            Z.to_nat (B - Z.of_nat (length (data (snd c)))) ≤ k →
            weight c ≤ w →
            ∃ fuel s', crun fuel c = Some s').
  { induction k as [k IHk] using lt_wf_ind.
    induction w as [w IHw] using lt_wf_ind.
    intros c Hinv Hk Hw.
    destruct (cstep c) as [c'|] eqn:Hstep.
    - assert (Hinv' : Inv c') by (by eapply step_inv).
      destruct (step_measure _ _ _ HB Hinv Hstep) as [Hlt|[Heq Hlt]].
      + destruct (IHk (Z.to_nat (B - Z.of_nat (length (data (snd c'))))) ltac:(lia)
                    (weight c') c' Hinv' ltac:(lia) ltac:(lia)) as (fuel & s' & Hrun).
        exists (S fuel), s'. simpl. by rewrite Hstep.
      + destruct (IHw (weight c') ltac:(lia) c' Hinv'
                    ltac:(rewrite Heq; lia) ltac:(lia)) as (fuel & s' & Hrun).
        exists (S fuel), s'. simpl. by rewrite Hstep.
    - exists 0, (snd c). simpl. by rewrite Hstep. }
  unfold crawl. eapply Hgen; [apply init_inv|done|done].
Qed.

Lemma filter_ext_elem {A} (P Q : A → Prop)
    `{∀ x, Decision (P x), ∀ x, Decision (Q x)} (l : list A) :
  (∀ x, x ∈ l → P x ↔ Q x) → filter P l = filter Q l.
Proof.
  induction l as [|x l IH]; intros Hext; [done|].
  assert (Hx : P x ↔ Q x) by (apply Hext; by left).
  assert (Hl : filter P l = filter Q l).
  { apply IH. intros y Hy. apply Hext. by right. }
  destruct (decide (P x)) as [HP|HP].
  - rewrite !filter_cons_True by tauto. by rewrite Hl.
  - rewrite !filter_cons_False by tauto. done.
Qed.

(** The links of a scraped page are sorted and hold no URL twice. *)
Lemma scrape_body_links sd url d :
  body sd url = inl d →
  NoDup (pd_internal_links d) ∧ Sorted str_le (pd_internal_links d).
Proof.
  unfold scrape_body.
  destruct (fetch url) as [doc pt|m]; [|discriminate].
  destruct (collect_links _ _ _) as [links|]; [|discriminate].
  intros [= <-]. simpl. split.
  - apply py_sorted_NoDup, NoDup_elements.
  - apply Sorted_merge_sort, _.
Qed.

(** The [for] loop over the links of a page appends to the tail of the
    queue, in the order of the links, those that are neither visited nor
    queued. *)
Lemma enqueue_appends_fresh_links links : ∀ s,
  NoDup links →
  csteps (length links) (AtEnqueue links, s)
  = Some (AtEnqueue [],
          set_frontier s (visited s)
            (to_visit s
             ++ filter (λ l, l ∉ visited s ∧ l ∉ to_visit s) links)).
Proof.
  induction links as [|link links IH]; intros s Hnd; simpl.
  - rewrite app_nil_r. by destruct s.
  - apply NoDup_cons in Hnd as [Hnotin Hnd].
    destruct (negb (bool_decide (link ∈ visited s))
              && negb (bool_decide (link ∈ to_visit s))) eqn:Hnew.
    + apply andb_true_iff in Hnew as [Hv Hq].
      apply negb_true_iff, bool_decide_eq_false in Hv, Hq.
      rewrite IH by done. simpl. rewrite filter_cons_True by done.
      rewrite <- app_assoc. simpl.
      rewrite (filter_ext_elem (λ l, l ∉ visited s ∧ l ∉ to_visit s ++ [link])
                 (λ l, l ∉ visited s ∧ l ∉ to_visit s) links); [done|].
      intros l Hl. rewrite elem_of_app.
      rewrite list_elem_of_singleton.
      assert (l ≠ link) by (by intros ->). tauto.
    + rewrite IH by done. rewrite filter_cons_False; [done|].
      apply andb_false_iff in Hnew as [Hv|Hq];
        apply negb_false_iff, bool_decide_eq_true in Hv || 
        apply negb_false_iff, bool_decide_eq_true in Hq; tauto.
Qed.

(** ** What the frontier holds *)

#[local] Abbreviation FInv := (frontier_inv seed).

Lemma init_frontier_inv : FInv (AtWhile, init seed).
Proof.
  split; simpl.
  - intros d l Hd. by apply elem_of_nil in Hd.
  - intros u Hu. left. unfold seen in Hu. simpl in Hu. set_solver.
  - intros l Hl. by apply elem_of_nil in Hl.
Qed.

Lemma step_frontier_inv c c' : FInv c → cstep c = Some c' → FInv c'.
Proof.
  intros [Htr Hdisc Hpend] Hstep.
  destruct (seen_step _ _ Hstep) as [Hmono Henq].
  destruct c as [[|url|[|link links]|] s]; simpl in *; [| | | |discriminate].
  - (* the while test *)
    destruct (loop_test max_pages s); [|discriminate].
    destruct (to_visit s) as [|url rest] eqn:Hq; [discriminate|].
    assert (Hback : seen c' ⊆ seen (AtWhile, s)
                    ∧ data (snd c') = data s ∧ pending_links (fst c') = []).
    { case_bool_decide; injection Hstep as <-; unfold seen; simpl;
        rewrite Hq; (split; [set_solver|done]). }
    destruct Hback as (Hback & Hdata & Hnone).
    split; rewrite ?Hdata, ?Hnone.
    + intros d l Hd Hl. destruct (Htr d l Hd Hl) as [Hs|Hp]; [left; by apply Hmono|].
      by apply elem_of_nil in Hp.
    + intros u Hu. by apply Hdisc, Hback.
    + intros l Hl. by apply elem_of_nil in Hl.
  - (* the scrape *)
    unfold scrape_page in Hstep.
    destruct (scrape_body _ _ _ _) as [d|m].
    + injection Hstep as <-. split; simpl.
      * intros d' l Hd' Hl. apply elem_of_app in Hd' as [Hd'|Hd'].
        -- destruct (Htr d' l Hd' Hl) as [Hs|Hp]; [by left|].
           by apply elem_of_nil in Hp.
        -- apply list_elem_of_singleton in Hd' as ->. by right.
      * intros u Hu. destruct (Hdisc u Hu) as [->|(d' & Hd' & Hl)]; [by left|].
        right. exists d'. split; [|done]. apply elem_of_app. by left.
      * intros l Hl. exists d. split; [|done]. apply elem_of_app. right. by left.
    + pause_split; injection Hstep as <-;
        (split; simpl;
         [intros d' l Hd' Hl; destruct (Htr d' l Hd' Hl) as [Hs|Hp];
          [by left|by apply elem_of_nil in Hp]
         |done
         |intros l Hl; by apply elem_of_nil in Hl]).
  - (* the end of the loop over the links *)
    pause_split; injection Hstep as <-;
      (split; simpl;
       [intros d l Hd Hl; destruct (Htr d l Hd Hl) as [Hs|Hp];
        [by left|by apply elem_of_nil in Hp]
       |done
       |intros l Hl; by apply elem_of_nil in Hl]).
  - (* one link *)
    assert (Hlink : link ∈ seen c').
    { destruct (negb (bool_decide (link ∈ visited s))
                && negb (bool_decide (link ∈ to_visit s))) eqn:Hnew.
      - apply Henq. by left.
      - apply Hmono. unfold seen. simpl.
        apply andb_false_iff in Hnew as [Hv|Hq];
          [apply negb_false_iff, bool_decide_eq_true in Hv
          |apply negb_false_iff, bool_decide_eq_true in Hq]; set_solver. }
    assert (Hback : ∀ u, u ∈ seen c' → u ∈ seen (AtEnqueue (link :: links), s)
                                        ∨ u = link).
    { destruct (_ && _); injection Hstep as <-; unfold seen; simpl;
        intros u; rewrite ?list_to_set_app_L; set_solver. }
    assert (Hshape : data (snd c') = data s
                     ∧ pending_links (fst c') = links).
    { destruct (_ && _); by injection Hstep as <-. }
    destruct Hshape as [Hdata Hrest].
    split; rewrite ?Hdata, ?Hrest.
    + intros d l Hd Hl. destruct (Htr d l Hd Hl) as [Hs|Hp]; [left; by apply Hmono|].
      apply elem_of_cons in Hp as [->|Hp]; [by left|by right].
    + intros u Hu. destruct (Hback u Hu) as [Hs| ->]; [by apply Hdisc|].
      right. apply Hpend. by left.
    + intros l Hl. apply Hpend. by right.
Qed.

Lemma steps_frontier_inv n : ∀ c c', FInv c → csteps n c = Some c' → FInv c'.
Proof.
  induction n as [|n IH]; intros c c' Hinv Hs; simpl in Hs.
  - by injection Hs as <-.
  - destruct (cstep c) as [c1|] eqn:Hstep; [|discriminate].
    eapply IH; [|exact Hs]. by eapply step_frontier_inv.
Qed.

(** Where a crawl that returns has stopped, with both invariants and no
    link left to consider. *)
Lemma crawl_end_frontier fuel s' :
  crawl fetch raises os_rejects delay max_pages fuel (init seed) = Some s' →
  ∃ pt, (pt = AtWhile ∨ pt = AtEnd ∧ Pytime.sleep_raises os_rejects delay = true)
        ∧ cstep (pt, s') = None
        ∧ Inv (pt, s') ∧ FInv (pt, s')
        ∧ in_flight pt = [] ∧ pending_links pt = [].
Proof.
  intros Hrun. apply crawl_end in Hrun as (n & pt & Hn & Hend & Hpt & Hinv).
  exists pt. split_and!; try done.
  - by eapply steps_frontier_inv; [apply init_frontier_inv|].
  - by destruct Hpt as [->|[-> _]].
  - by destruct Hpt as [->|[-> _]].
Qed.

(** When a crawl ends, every internal link of every page record is visited
    or still queued, and every URL visited or queued, but the seed, is an
    internal link of some page record; a crawl without a page budget whose
    pause between pages does not raise ends with an empty queue, so that
    the visited set is closed under the links of the pages. *)
Theorem crawl_follows_the_links fuel s' :
  crawl fetch raises os_rejects delay max_pages fuel (init seed) = Some s' →
  (∀ d l, d ∈ data s' → l ∈ pd_internal_links d →
          l ∈ visited s' ∨ l ∈ to_visit s')
  ∧ (∀ u, u ∈ visited s' ∨ u ∈ to_visit s' →
          u = seed ∨ ∃ d, d ∈ data s' ∧ u ∈ pd_internal_links d)
  ∧ (max_pages = None → Pytime.sleep_raises os_rejects delay = false →
     to_visit s' = []).
Proof.
  intros Hrun.
  apply crawl_end_frontier in Hrun
    as (pt & Hpt & Hend & _ & [Htr Hdisc _] & _ & Hnone).
  unfold seen in *. simpl in *. rewrite Hnone in Htr. split_and!.
  - intros d l Hd Hl. destruct (Htr d l Hd Hl) as [Hs|Hp].
    + apply elem_of_union in Hs as [Hs|Hs]; [by left|right].
      by apply elem_of_list_to_set in Hs.
    + by apply elem_of_nil in Hp.
  - intros u Hu. apply Hdisc. apply elem_of_union.
    destruct Hu as [Hu|Hu]; [by left|right]. by apply elem_of_list_to_set.
  - intros -> Hsleep. destruct Hpt as [->|[_ Hraise]]; [|congruence].
    simpl in Hend. unfold loop_test in Hend. simpl in Hend.
    destruct (to_visit s') as [|u rest]; [done|]. simpl in Hend.
    by case_bool_decide.
Qed.

(** ** The host of the crawl *)

Lemma collect_links_internal sd anchors : ∀ acc links,
  collect_links sd anchors acc = Some links →
  (∀ u, u ∈ acc → is_internal_link sd u = true) →
  ∀ u, u ∈ links → is_internal_link sd u = true.
Proof.
  induction anchors as [|a anchors IH]; intros acc links Hc Hacc; simpl in Hc.
  - by injection Hc as <-.
  - destruct (attr_get _ (tag_attrs a)) as [[href|[|x l]]|];
      [|by eapply IH|discriminate|by eapply IH].
    destruct (negb (str_eqb href []) && negb (skipped_scheme href));
      [|by eapply IH].
    destruct (is_internal_link sd (normalize_url sd href)) eqn:Hint;
      [|by eapply IH].
    eapply IH; [exact Hc|]. intros u Hu.
    apply elem_of_union in Hu as [Hu|Hu]; [|by apply Hacc].
    apply elem_of_singleton in Hu as ->. done.
Qed.

Lemma scrape_body_internal sd url d :
  body sd url = inl d →
  ∀ l, l ∈ pd_internal_links d → is_internal_link sd l = true.
Proof.
  unfold scrape_body.
  destruct (fetch url) as [doc pt|m]; [|discriminate].
  destruct (collect_links _ _ _) as [links|] eqn:Hc; [|discriminate].
  intros [= <-] l Hl. simpl in Hl.
  apply py_sorted_elem, elem_of_elements in Hl.
  eapply collect_links_internal; [exact Hc| |exact Hl].
  intros u Hu. by apply not_elem_of_empty in Hu.
Qed.

(** A crawl never leaves the host of its seed: every URL that it has
    visited or queued when it ends, other than the seed itself, parses to
    the network location of the seed. *)
Theorem crawl_stays_on_host fuel s' u :
  crawl fetch raises os_rejects delay max_pages fuel (init seed) = Some s' →
  u ∈ visited s' ∨ u ∈ to_visit s' →
  u = seed ∨ is_internal_link seed u = true.
Proof.
  intros Hrun Hu.
  apply crawl_end_frontier in Hrun
    as (pt & _ & _ & [_ _ _ _ Hdata _ _] & [_ Hdisc _] & _ & _).
  simpl in *.
  destruct (Hdisc u) as [->|(d & Hd & Hl)]; [|by left|].
  - unfold seen. simpl. apply elem_of_union.
    destruct Hu as [Hu|Hu]; [by left|right]. by apply elem_of_list_to_set.
  - right. eapply scrape_body_internal; [by apply Hdata|done].
Qed.

(** ** The tabular export *)

(** After a crawl the tabular export has one row per page record, no two
    rows with the same URL, and the URL of every row is a visited URL. *)
Theorem xlsx_rows_are_distinct_pages fuel s' :
  crawl fetch raises os_rejects delay max_pages fuel (init seed) = Some s' →
  length (save_to_xlsx s') = length (data s')
  ∧ NoDup (map fst (save_to_xlsx s'))
  ∧ ∀ url, url ∈ map fst (save_to_xlsx s') → url ∈ visited s'.
Proof.
  intros Hrun.
  apply crawl_end_frontier in Hrun
    as (pt & _ & _ & [_ _ _ Hrec _ _ _] & _ & Hflight & _).
  simpl in Hrec. rewrite Hflight, app_nil_r in Hrec.
  assert (Hurls : map fst (save_to_xlsx s') = map pd_url (data s')).
  { unfold save_to_xlsx. rewrite map_map. done. }
  rewrite Hurls. split_and!.
  - unfold save_to_xlsx. by rewrite length_map.
  - assert (Hnd : NoDup (map pd_url (data s') ++ map er_url (errors s'))).
    { rewrite Hrec. apply NoDup_elements. }
    by apply NoDup_app in Hnd as [? _].
  - intros url Hurl. apply elem_of_elements. rewrite <- Hrec.
    apply elem_of_app. by left.
Qed.

(** ** The records only grow *)

Lemma step_grows c c' :
  cstep c = Some c' →
  data (snd c) `prefix_of` data (snd c')
  ∧ visited (snd c) ⊆ visited (snd c')
  ∧ start_url (snd c') = start_url (snd c).
Proof.
  destruct c as [[|url|[|link links]|] s]; simpl; intros Hstep;
    [| | | |discriminate].
  - destruct (loop_test max_pages s); [|discriminate].
    destruct (to_visit s) as [|url rest]; [discriminate|].
    case_bool_decide; injection Hstep as <-; simpl; (split_and!; [done| |done]);
      set_solver.
  - unfold scrape_page in Hstep.
    destruct (scrape_body _ _ _ _) as [d|m]; [|pause_split];
      injection Hstep as <-; simpl;
      (split_and!; [|done|done]); try done; by apply prefix_app_r.
  - pause_split; by injection Hstep as <-.
  - destruct (_ && _); by injection Hstep as <-.
Qed.

Lemma steps_grow n : ∀ c c',
  csteps n c = Some c' →
  data (snd c) `prefix_of` data (snd c')
  ∧ errors (snd c) `prefix_of` errors (snd c')
  ∧ visited (snd c) ⊆ visited (snd c').
Proof.
  induction n as [|n IH]; intros c c' Hs; simpl in Hs.
  - by injection Hs as <-.
  - destruct (cstep c) as [c1|] eqn:Hstep; [|discriminate].
    destruct (step_grows _ _ Hstep) as (Hd & Hv & _).
    pose proof (step_errors_prefix _ _ Hstep) as He.
    destruct (IH _ _ Hs) as (Hd' & He' & Hv').
    split_and!; [by etrans|by etrans|set_solver].
Qed.

(** However far a crawl has gone, what it has recorded stays: the page
    records and the error records of a configuration are the first records
    of every later configuration, in the same order, and no URL leaves the
    visited set. *)
Theorem crawl_only_appends n c c' :
  steps fetch raises os_rejects delay max_pages n c = Some c' →
  data (snd c) `prefix_of` data (snd c')
  ∧ errors (snd c) `prefix_of` errors (snd c')
  ∧ visited (snd c) ⊆ visited (snd c').
Proof.
  intros Hs. destruct (steps_grow _ _ _ Hs) as (Hd & He & Hv).
  split_and!; [exact Hd|exact He|exact Hv].
Qed.

(** The seed is scraped first: when the [while] test holds at the start, the
    crawl ends with the seed visited, and the first record of the crawl is
    that of the seed, a page record when its scrape succeeds and an error
    record when it fails. *)
Theorem seed_is_scraped_first fuel s' :
  crawl fetch raises os_rejects delay max_pages fuel (init seed) = Some s' →
  loop_test max_pages (init seed) = true →
  seed ∈ visited s'
  ∧ match body seed seed with
    | inl page => head (data s') = Some page
    | inr message => head (errors s') = Some (error_record seed message)
    end.
Proof.
  intros Hrun Htest. apply run_steps in Hrun as (n & pt & Hn & Hend & Hpt).
  assert (H1 : cstep (AtWhile, init seed)
               = Some (AtScrape seed, set_frontier (init seed) {[seed]} [])).
  { simpl in *. rewrite Htest. rewrite bool_decide_eq_false_2 by set_solver.
    do 3 f_equal. set_solver. }
  assert (HS : ∀ k c, csteps (S k) c
                      = match cstep c with None => None | Some c' => csteps k c' end)
    by done.
  destruct n as [|n].
  { simpl in Hn. injection Hn as <- <-. rewrite Hend in H1. discriminate. }
  rewrite HS, H1 in Hn.
  set (s1 := set_frontier (init seed) {[seed]} []) in *.
  destruct n as [|n].
  { simpl in Hn. injection Hn as <- <-. by destruct Hpt. }
  rewrite HS in Hn. simpl in Hn. unfold scrape_page in Hn. simpl in Hn.
  fold (body seed seed) in Hn.
  destruct (body seed seed) as [page|message] eqn:Hbody;
    [|unfold pause in Hn; destruct (Pytime.sleep_raises os_rejects delay)].
  - destruct (steps_grow _ _ _ Hn) as ([k Hk] & _ & Hv). simpl in *.
    split; [set_solver|]. by rewrite Hk.
  - destruct (steps_grow _ _ _ Hn) as (_ & [k Hk] & Hv). simpl in *.
    split; [set_solver|]. by rewrite Hk.
  - destruct (steps_grow _ _ _ Hn) as (_ & [k Hk] & Hv). simpl in *.
    split; [set_solver|]. by rewrite Hk.
Qed.

(** ** A seed that cannot be scraped *)

(** When the scrape of the seed fails, the crawl ends at once: the seed is
    visited, no page is recorded, nothing is queued, and the error log
    holds the one record of the seed. *)
Theorem failed_seed_ends_the_crawl message fuel :
  body seed seed = inr message →
  loop_test max_pages (init seed) = true →
  crawl fetch raises os_rejects delay max_pages (S (S fuel)) (init seed)
  = Some (mkScraper seed {[seed]} [] [] [error_record seed message]).
Proof.
  intros Hbody Htest. unfold crawl.
  assert (H1 : cstep (AtWhile, init seed)
               = Some (AtScrape seed, set_frontier (init seed) {[seed]} [])).
  { simpl in *. rewrite Htest. rewrite bool_decide_eq_false_2 by set_solver.
    do 3 f_equal. set_solver. }
  assert (H2 : cstep (AtScrape seed, set_frontier (init seed) {[seed]} [])
               = Some (pause os_rejects delay
                         (mkScraper seed {[seed]} [] []
                            [error_record seed message]))).
  { simpl. unfold scrape_page. simpl. fold (body seed seed). by rewrite Hbody. }
  assert (H3 : cstep (pause os_rejects delay
                        (mkScraper seed {[seed]} [] []
                           [error_record seed message]))
               = None
               ∧ snd (pause os_rejects delay
                        (mkScraper seed {[seed]} [] []
                           [error_record seed message]))
                 = mkScraper seed {[seed]} [] [] [error_record seed message]).
  { pause_split; simpl; [done|]. by destruct (loop_test _ _). }
  destruct H3 as [H3 H4].
  change (crun (S (S fuel)) (AtWhile, init seed))
    with (match cstep (AtWhile, init seed) with
          | None => Some (snd (AtWhile, init seed))
          | Some c' => crun (S fuel) c'
          end).
  rewrite H1.
  change (crun (S fuel) (AtScrape seed, set_frontier (init seed) {[seed]} []))
    with (match cstep (AtScrape seed, set_frontier (init seed) {[seed]} []) with
          | None => Some (snd (AtScrape seed, set_frontier (init seed) {[seed]} []))
          | Some c' => crun fuel c'
          end).
  rewrite H2. destruct fuel; cbn -[step pause]; by rewrite H3, H4.
Qed.

(** ** When the loop stops *)

(** The crawl stops for one of three reasons only: there is nothing left to
    visit, or the budget is used up to the last page, or the pause between
    two pages has raised (a delay that is negative or not a number) and
    the handler of [crawl] has ended the loop.  So at the end the queue is
    empty, or the number of page records is the budget itself (0 for a
    negative one), or [time.sleep(self.delay)] raises. *)
Theorem crawl_stops_when_done fuel s' :
  crawl fetch raises os_rejects delay max_pages fuel (init seed) = Some s' →
  to_visit s' = []
  ∨ (∃ B, max_pages = Some B ∧ Z.of_nat (length (data s')) = Z.max 0 B)
  ∨ Pytime.sleep_raises os_rejects delay = true.
Proof.
  intros Hrun. apply crawl_end in Hrun as (n & pt & Hn & Hend & Hpt & Hinv).
  destruct Hpt as [->|[_ Hraise]]; [|by right; right].
  destruct Hinv as [_ _ _ _ _ _ Hbudget].
  simpl in Hend. unfold loop_test in Hend.
  destruct (to_visit s') as [|url rest] eqn:Hq; [by left|right].
  rewrite bool_decide_eq_false_2 in Hend by done. simpl in Hend.
  unfold within_budget in Hbudget. simpl in Hbudget.
  destruct max_pages as [B|].
  - left. exists B. split; [done|].
    destruct (Z.ltb_spec (Z.of_nat (length (data s'))) B).
    + by destruct (bool_decide (url ∈ visited s')).
    + lia.
  - by destruct (bool_decide (url ∈ visited s')).
Qed.

(** ** The links of a page record *)

(** The links of a page record are in ascending order, hold no URL twice,
    and each of them is on the host of the seed. *)
Theorem page_links_are_sorted sd url d :
  body sd url = inl d →
  Sorted str_le (pd_internal_links d)
  ∧ NoDup (pd_internal_links d)
  ∧ ∀ l, l ∈ pd_internal_links d → is_internal_link sd l = true.
Proof.
  intros Hbody. destruct (scrape_body_links _ _ _ Hbody) as [Hnd Hsorted].
  split_and!; [done|done|]. by apply scrape_body_internal with url.
Qed.

(** ** The loop against the traversal of the specification *)

#[local] Abbreviation spec_records :=
  (spec_page_records fetch raises max_pages seed).

Lemma enqueue_steps links : ∀ s,
  csteps (length links) (AtEnqueue links, s)
  = Some (AtEnqueue [],
          set_frontier s (visited s)
            (spec_enqueue (visited s) (to_visit s) links)).
Proof.
  induction links as [|link links IH]; intros s; simpl.
  - by destruct s.
  - destruct (negb (bool_decide (link ∈ visited s))
              && negb (bool_decide (link ∈ to_visit s))) eqn:Hnew.
    + apply andb_true_iff in Hnew as [Hv Hq].
      apply negb_true_iff, bool_decide_eq_false in Hv, Hq.
      rewrite IH. simpl. unfold spec_enqueue at 2. simpl.
      by rewrite bool_decide_eq_true_2.
    + rewrite IH. unfold spec_enqueue at 2. simpl.
      rewrite bool_decide_eq_false_2; [by destruct s|].
      apply andb_false_iff in Hnew as [Hv|Hq];
        [apply negb_false_iff, bool_decide_eq_true in Hv
        |apply negb_false_iff, bool_decide_eq_true in Hq]; tauto.
Qed.

(** A run that returns goes through every configuration that a number of
    steps reaches. *)
Lemma run_after_steps n : ∀ fuel c c' r,
  csteps n c = Some c' → crun fuel c = Some r →
  ∃ fuel', fuel' ≤ fuel ∧ crun fuel' c' = Some r.
Proof.
  induction n as [|n IH]; intros fuel c c' r Hs Hrun; simpl in Hs.
  - injection Hs as <-. by exists fuel.
  - destruct (cstep c) as [c1|] eqn:Hstep; [|discriminate].
    destruct fuel as [|fuel]; simpl in Hrun; rewrite Hstep in Hrun;
      [discriminate|].
    destruct (IH _ _ _ _ Hs Hrun) as (fuel' & Hle & Hrun').
    exists fuel'. split; [lia|done].
Qed.

Lemma spec_records_grow rounds : ∀ v q recs r,
  spec_records rounds v q recs = Some r → recs `prefix_of` r.
Proof.
  induction rounds as [|rounds IH]; intros v q recs r Hr; simpl in Hr.
  - destruct q as [|url rest]; [by injection Hr as <-|].
    destruct (spec_budget_reached _ _); [by injection Hr as <-|discriminate].
  - destruct q as [|url rest]; [by injection Hr as <-|].
    destruct (spec_budget_reached _ _); [by injection Hr as <-|].
    case_bool_decide; [by eapply IH|].
    destruct (scrape_body _ _ _ _) as [page|m]; [|by eapply IH].
    apply IH in Hr. etrans; [|exact Hr]. by apply prefix_app_r.
Qed.

Lemma spec_rounds_irrelevant rounds1 : ∀ rounds2 v q recs r1 r2,
  spec_records rounds1 v q recs = Some r1 →
  spec_records rounds2 v q recs = Some r2 →
  r1 = r2.
Proof.
  induction rounds1 as [|rounds1 IH]; intros rounds2 v q recs r1 r2 H1 H2;
    simpl in H1.
  - destruct q as [|url rest].
    + destruct rounds2; simpl in H2; congruence.
    + destruct (spec_budget_reached max_pages recs) eqn:Hb; [|discriminate].
      destruct rounds2; simpl in H2; rewrite Hb in H2; congruence.
  - destruct q as [|url rest].
    + destruct rounds2; simpl in H2; congruence.
    + destruct (spec_budget_reached max_pages recs) eqn:Hb.
      * destruct rounds2; simpl in H2; rewrite Hb in H2; congruence.
      * destruct rounds2; simpl in H2; rewrite Hb in H2; [discriminate|].
        case_bool_decide; [by eapply IH|].
        destruct (scrape_body _ _ _ _) as [page|m]; by eapply IH.
Qed.

Lemma loop_test_budget s :
  loop_test max_pages s
  = negb (bool_decide (to_visit s = []))
    && negb (spec_budget_reached max_pages (data s)).
Proof.
  unfold loop_test, spec_budget_reached. f_equal.
  destruct max_pages as [b|]; [|done].
  destruct (Z.ltb_spec (Z.of_nat (length (data s))) b),
    (Z.leb_spec b (Z.of_nat (length (data s)))); simpl; lia.
Qed.

(** When the pause does not raise, a run of the loop that returns has
    recorded the pages of the traversal. *)
Lemma run_unfold fuel c :
  crun fuel c
  = match cstep c with
    | None => Some (snd c)
    | Some c' => match fuel with 0 => None | S fuel' => crun fuel' c' end
    end.
Proof. by destruct fuel. Qed.

Lemma run_refines_spec fuel : ∀ s s',
  Pytime.sleep_raises os_rejects delay = false →
  start_url s = seed →
  crun fuel (AtWhile, s) = Some s' →
  ∃ rounds, spec_records rounds (visited s) (to_visit s) (data s)
            = Some (data s').
Proof.
  induction fuel as [fuel IH] using lt_wf_ind. intros s s' Hsleep Hseed Hrun.
  assert (Hpause : ∀ x, pause os_rejects delay x = (AtWhile, x)).
  { intros x. unfold pause. by rewrite Hsleep. }
  destruct (to_visit s) as [|url rest] eqn:Hq.
  { exists 0. simpl.
    assert (Hstep : cstep (AtWhile, s) = None).
    { simpl. rewrite Hq. by destruct (loop_test _ _). }
    rewrite run_unfold, Hstep in Hrun; by injection Hrun as <-. }
  destruct (spec_budget_reached max_pages (data s)) eqn:Hb.
  { exists 0. simpl. rewrite Hb.
    assert (Hstep : cstep (AtWhile, s) = None).
    { simpl. rewrite loop_test_budget, Hb. by rewrite andb_false_r. }
    rewrite run_unfold, Hstep in Hrun; by injection Hrun as <-. }
  assert (Htest : loop_test max_pages s = true).
  { rewrite loop_test_budget, Hb, Hq. done. }
  destruct (decide (url ∈ visited s)) as [Hvis|Hvis].
  - (* a URL that is visited already *)
    assert (Hstep : cstep (AtWhile, s)
                    = Some (AtWhile, set_frontier s (visited s) rest)).
    { simpl. rewrite Htest, Hq. by rewrite bool_decide_eq_true_2. }
    rewrite run_unfold, Hstep in Hrun.
    destruct fuel as [|fuel]; [discriminate|].
    destruct (IH fuel ltac:(lia) (set_frontier s (visited s) rest) s' Hsleep
                Hseed Hrun) as [rounds Hr].
    exists (S rounds). simpl. rewrite Hb.
    by rewrite bool_decide_eq_true_2.
  - set (s1 := set_frontier s ({[url]} ∪ visited s) rest).
    assert (Hstep : cstep (AtWhile, s) = Some (AtScrape url, s1)).
    { simpl. rewrite Htest, Hq. by rewrite bool_decide_eq_false_2. }
    rewrite run_unfold, Hstep in Hrun.
    destruct fuel as [|fuel]; [discriminate|].
    destruct (body seed url) as [page|m] eqn:Hbody.
    + (* the page is scraped and its links are queued *)
      assert (Hscrape : cstep (AtScrape url, s1)
                        = Some (AtEnqueue (pd_internal_links page),
                                add_data s1 page)).
      { assert (Hbody' : body (start_url s1) url = inl page)
          by (simpl; by rewrite Hseed).
        simpl. by rewrite (scrape_page_ok s1 url page Hbody'). }
      rewrite run_unfold, Hscrape in Hrun.
    destruct fuel as [|fuel]; [discriminate|].
      pose proof (enqueue_steps (pd_internal_links page) (add_data s1 page))
        as Henq.
      destruct (run_after_steps _ _ _ _ _ Henq Hrun) as (fuel' & Hle & Hrun').
      set (s2 := set_frontier (add_data s1 page) (visited (add_data s1 page))
                   (spec_enqueue (visited (add_data s1 page))
                      (to_visit (add_data s1 page)) (pd_internal_links page)))
        in *.
      assert (Hlast : cstep (AtEnqueue [], s2) = Some (AtWhile, s2)).
      { simpl. by rewrite Hpause. }
      rewrite run_unfold, Hlast in Hrun'.
      destruct fuel' as [|fuel']; [discriminate|].
      destruct (IH fuel' ltac:(lia) s2 s' Hsleep Hseed Hrun') as [rounds Hr].
      exists (S rounds). simpl. rewrite Hb.
      rewrite bool_decide_eq_false_2 by done.
      fold (body seed url). rewrite Hbody. exact Hr.
    + (* the scrape fails *)
      set (s2 := mkScraper (start_url s1) (visited s1) (to_visit s1) (data s1)
                   (errors s1 ++ [error_record url m])).
      assert (Hscrape : cstep (AtScrape url, s1) = Some (AtWhile, s2)).
      { assert (Hbody' : body (start_url s1) url = inr m)
          by (simpl; by rewrite Hseed).
        simpl. rewrite (scrape_page_fail s1 url m Hbody'). by rewrite Hpause. }
      rewrite run_unfold, Hscrape in Hrun.
    destruct fuel as [|fuel]; [discriminate|].
      destruct (IH fuel ltac:(lia) s2 s' Hsleep Hseed Hrun) as [rounds Hr].
      exists (S rounds). simpl. rewrite Hb.
      rewrite bool_decide_eq_false_2 by done.
      fold (body seed url). rewrite Hbody. exact Hr.
Qed.

(** With a pause that raises, a crawl records the page of the seed at
    most. *)
Lemma abort_data fuel s' :
  Pytime.sleep_raises os_rejects delay = true →
  crawl fetch raises os_rejects delay max_pages fuel (init seed) = Some s' →
  data s' = []
  ∨ ∃ page, body seed seed = inl page
            ∧ loop_test max_pages (init seed) = true
            ∧ data s' = [page].
Proof.
  intros Hraise Hrun. unfold crawl in Hrun.
  assert (Hpause : ∀ x, pause os_rejects delay x = (AtEnd, x)).
  { intros x. unfold pause. by rewrite Hraise. }
  destruct (loop_test max_pages (init seed)) eqn:Htest.
  - set (s1 := set_frontier (init seed) ({[seed]} ∪ ∅) []).
    assert (Hstep : cstep (AtWhile, init seed) = Some (AtScrape seed, s1)).
    { simpl in *. rewrite Htest. by rewrite bool_decide_eq_false_2 by set_solver. }
    rewrite run_unfold, Hstep in Hrun.
    destruct fuel as [|fuel]; [discriminate|].
    destruct (body seed seed) as [page|m] eqn:Hbody.
    + right. exists page. split_and!; [done|done|].
      assert (Hscrape : cstep (AtScrape seed, s1)
                        = Some (AtEnqueue (pd_internal_links page),
                                add_data s1 page)).
      { simpl. by rewrite (scrape_page_ok s1 seed page Hbody). }
      rewrite run_unfold, Hscrape in Hrun.
      destruct fuel as [|fuel]; [discriminate|].
      pose proof (enqueue_steps (pd_internal_links page) (add_data s1 page))
        as Henq.
      destruct (run_after_steps _ _ _ _ _ Henq Hrun) as (fuel' & _ & Hrun').
      rewrite run_unfold in Hrun'. simpl in Hrun'. rewrite Hpause in Hrun'.
      destruct fuel' as [|fuel']; [discriminate|].
      rewrite run_unfold in Hrun'. simpl in Hrun'. by injection Hrun' as <-.
    + left.
      assert (Hscrape : cstep (AtScrape seed, s1)
                        = Some (AtEnd,
                                mkScraper (start_url s1) (visited s1)
                                  (to_visit s1) (data s1)
                                  (errors s1 ++ [error_record seed m]))).
      { simpl. rewrite (scrape_page_fail s1 seed m Hbody). by rewrite Hpause. }
      rewrite run_unfold, Hscrape in Hrun.
      destruct fuel as [|fuel]; [discriminate|].
      rewrite run_unfold in Hrun. simpl in Hrun. by injection Hrun as <-.
  - left.
    assert (Hstep : cstep (AtWhile, init seed) = None).
    { simpl in *. by rewrite Htest. }
    rewrite run_unfold, Hstep in Hrun. by injection Hrun as <-.
Qed.

(** The page records of a crawl against the traversal of the
    specification: the same records in the same order when the pause does
    not raise, and the first of them when it does. *)
Lemma crawl_refines_spec fuel s' :
  crawl fetch raises os_rejects delay max_pages fuel (init seed) = Some s' →
  (∀ rounds recs,
     spec_crawl fetch raises max_pages seed rounds = Some recs →
     data s' `prefix_of` recs
     ∧ (Pytime.sleep_raises os_rejects delay = false → data s' = recs))
  ∧ (Pytime.sleep_raises os_rejects delay = false →
     ∃ rounds, spec_crawl fetch raises max_pages seed rounds
               = Some (data s')).
Proof.
  intros Hrun.
  assert (Hsame : Pytime.sleep_raises os_rejects delay = false →
                  ∃ rounds, spec_crawl fetch raises max_pages seed rounds
                            = Some (data s')).
  { intros Hsleep. exact (run_refines_spec fuel (init seed) s' Hsleep eq_refl Hrun). }
  split; [|done]. intros rounds recs Hspec.
  destruct (Pytime.sleep_raises os_rejects delay) eqn:Hsleep.
  - split; [|done].
    destruct (abort_data _ _ Hsleep Hrun) as [->|(page & Hbody & Htest & ->)];
      [apply prefix_nil|].
    unfold spec_crawl in Hspec.
    rewrite loop_test_budget in Htest. simpl in Htest.
    apply negb_true_iff in Htest.
    destruct rounds as [|rounds]; simpl in Hspec; rewrite Htest in Hspec;
      [discriminate|].
    rewrite bool_decide_eq_false_2 in Hspec by set_solver.
    fold (body seed seed) in Hspec. rewrite Hbody in Hspec.
    exact (spec_records_grow _ _ _ _ _ Hspec).
  - destruct (Hsame eq_refl) as [rounds' Hr].
    assert (data s' = recs) as ->
      by exact (spec_rounds_irrelevant _ _ _ _ _ _ _ Hr Hspec).
    done.
Qed.

(** ** Where the URLs of a crawl come from *)

Lemma collect_links_origin sd anchors : ∀ acc links u,
  collect_links sd anchors acc = Some links →
  u ∈ links →
  u ∈ acc ∨ ∃ href, u = normalize_url sd href ∧ is_internal_link sd u = true.
Proof.
  induction anchors as [|a anchors IH]; intros acc links u Hc Hu; simpl in Hc.
  - injection Hc as <-. by left.
  - destruct (attr_get _ (tag_attrs a)) as [[href|[|x l]]|];
      [|by eapply IH|discriminate|by eapply IH].
    destruct (negb (str_eqb href []) && negb (skipped_scheme href));
      [|by eapply IH].
    destruct (is_internal_link sd (normalize_url sd href)) eqn:Hint;
      [|by eapply IH].
    destruct (IH _ _ _ Hc Hu) as [Hin|Hin]; [|by right].
    apply elem_of_union in Hin as [Hin|Hin]; [|by left].
    apply elem_of_singleton in Hin as ->. right. by exists href.
Qed.

Lemma scrape_body_link_origin sd url d l :
  body sd url = inl d → l ∈ pd_internal_links d →
  ∃ href, l = normalize_url sd href ∧ is_internal_link sd l = true.
Proof.
  unfold scrape_body.
  destruct (fetch url) as [doc pt|m]; [|discriminate].
  destruct (collect_links _ _ _) as [links|] eqn:Hc; [|discriminate].
  intros [= <-] Hl. simpl in Hl.
  apply py_sorted_elem, elem_of_elements in Hl.
  destruct (collect_links_origin _ _ _ _ _ Hc Hl) as [Hin|Hin]; [|done].
  by apply not_elem_of_empty in Hin.
Qed.

Lemma crawl_urls_origin fuel s' u :
  crawl fetch raises os_rejects delay max_pages fuel (init seed) = Some s' →
  u ∈ visited s' ∨ u ∈ to_visit s' →
  u = seed
  ∨ ∃ href, u = normalize_url seed href ∧ is_internal_link seed u = true.
Proof.
  intros Hrun Hu.
  apply crawl_end_frontier in Hrun
    as (pt & _ & _ & [_ _ _ _ Hdata _ _] & [_ Hdisc _] & _ & _).
  simpl in *.
  destruct (Hdisc u) as [->|(d & Hd & Hl)]; [|by left|].
  - unfold seen. simpl. apply elem_of_union.
    destruct Hu as [Hu|Hu]; [by left|right]. by apply elem_of_list_to_set.
  - right. eapply scrape_body_link_origin; [by apply Hdata|done].
Qed.

Lemma crawl_links_origin fuel s' d l :
  crawl fetch raises os_rejects delay max_pages fuel (init seed) = Some s' →
  d ∈ data s' → l ∈ pd_internal_links d →
  ∃ href, l = normalize_url seed href ∧ is_internal_link seed l = true.
Proof.
  intros Hrun Hd Hl.
  apply crawl_end in Hrun as (n & pt & _ & _ & _ & [_ _ _ _ Hdata _ _]).
  simpl in Hdata. by eapply scrape_body_link_origin; [apply Hdata|].
Qed.

End CrawlProofs.

(** ** Determinism of the crawl *)

Section Determinism.

Context `{Urllib.HostChecks}.
Variables fetch1 fetch2 : str -> fetched.
Variables raises1 raises2 : node -> bool.
Variable os_rejects : PrimFloat.float -> bool.
Variable delay : PrimFloat.float.
Variable max_pages : option Z.

Hypothesis same_pages : ∀ url, fetch1 url = fetch2 url.
Hypothesis same_faults : ∀ n, raises1 n = raises2 n.

Lemma extract_loop_ext elems : ∀ acc,
  extract_loop raises1 elems acc = extract_loop raises2 elems acc.
Proof.
  induction elems as [|e elems IH]; intros acc; simpl; [done|].
  unfold dom_entry. rewrite same_faults.
  repeat case_match; simplify_eq; auto.
Qed.

Lemma scrape_body_ext sd url :
  scrape_body fetch1 raises1 sd url = scrape_body fetch2 raises2 sd url.
Proof.
  unfold scrape_body, extract_dom_properties.
  rewrite same_pages. destruct (fetch2 url); [|done].
  destruct (collect_links _ _ _); [|done]. by rewrite extract_loop_ext.
Qed.

Lemma step_ext c :
  step fetch1 raises1 os_rejects delay max_pages c = step fetch2 raises2 os_rejects delay max_pages c.
Proof.
  destruct c as [[|url|links|] s]; simpl; [done| |done|done].
  unfold scrape_page. by rewrite scrape_body_ext.
Qed.

Lemma run_ext fuel : ∀ c,
  run fetch1 raises1 os_rejects delay max_pages fuel c = run fetch2 raises2 os_rejects delay max_pages fuel c.
Proof.
  induction fuel as [|fuel IH]; intros c; simpl; rewrite step_ext; [done|].
  destruct (step fetch2 raises2 os_rejects delay max_pages c); [apply IH|done].
Qed.

Lemma run_fuel_irrelevant fuel1 : ∀ fuel2 c r1 r2,
  run fetch2 raises2 os_rejects delay max_pages fuel1 c = Some r1 →
  run fetch2 raises2 os_rejects delay max_pages fuel2 c = Some r2 →
  r1 = r2.
Proof.
  induction fuel1 as [|fuel1 IH]; intros fuel2 c r1 r2 H1 H2; simpl in H1.
  - destruct (step fetch2 raises2 os_rejects delay max_pages c) eqn:Hstep; [discriminate|].
    destruct fuel2; simpl in H2; rewrite Hstep in H2; congruence.
  - destruct (step fetch2 raises2 os_rejects delay max_pages c) as [c'|] eqn:Hstep.
    + destruct fuel2; simpl in H2; rewrite Hstep in H2; [discriminate|].
      by eapply IH.
    + destruct fuel2; simpl in H2; rewrite Hstep in H2; congruence.
Qed.

(** C5. Two runs of the crawl from the same seed over the same document
    graph (every URL renders to the same document, with the same links in
    the same order, or fails alike) end with the same page records in the
    same order, and indeed in the same state, however long each run was
    allowed to take.  The sequence is that of the breadth-first traversal
    of the specification, in which the new links of a page go to the tail
    of the queue: whenever that traversal returns, the page records of
    the crawl are its first records, and all of them when the pause
    between pages does not raise; and then the traversal does return. *)
Theorem crawl_deterministic seed fuel1 fuel2 r1 r2 :
  crawl fetch1 raises1 os_rejects delay max_pages fuel1 (init seed) = Some r1 →
  crawl fetch2 raises2 os_rejects delay max_pages fuel2 (init seed) = Some r2 →
  data r1 = data r2 ∧ r1 = r2
  ∧ (∀ rounds recs,
       spec_crawl fetch1 raises1 max_pages seed rounds = Some recs →
       data r1 `prefix_of` recs
       ∧ (Pytime.sleep_raises os_rejects delay = false → data r1 = recs))
  ∧ (Pytime.sleep_raises os_rejects delay = false →
     ∃ rounds, spec_crawl fetch1 raises1 max_pages seed rounds
               = Some (data r1)).
Proof.
  intros H1 H2.
  destruct (crawl_refines_spec _ _ _ _ _ _ _ _ H1) as [Hprefix Hsame].
  unfold crawl in H1, H2. rewrite run_ext in H1.
  assert (r1 = r2) as -> by (by eapply run_fuel_irrelevant).
  split_and!; done.
Qed.

End Determinism.

(** ** The element inventory *)

(** C6. On a page whose two [li] siblings under one [ul] have the same
    content, [get_path] gives both the same path: the index comes from
    [siblings.index], which stops at the first sibling equal to the
    element, so the second [li] is numbered 1 as well. *)
Theorem equal_siblings_share_a_path :
  li_paths (extract_dom_properties no_fault (two_li_page "a" "a"))
  = [py "body > ul > li:nth-of-type(1)"; py "body > ul > li:nth-of-type(1)"].
Proof. vm_compute. reflexivity. Qed.

(** When the two [li] differ, their paths differ in the index alone. *)
Lemma distinct_siblings_paths :
  li_paths (extract_dom_properties no_fault (two_li_page "a" "b"))
  = [py "body > ul > li:nth-of-type(1)"; py "body > ul > li:nth-of-type(2)"].
Proof. vm_compute. reflexivity. Qed.

(** An element without a same-tag sibling is named by its tag alone, and
    the element at the top of the document is left out of every path. *)
Lemma single_child_paths :
  map dp_path (extract_dom_properties no_fault (two_li_page "a" "b"))
  = [py ""; py "body"; py "body > ul";
     py "body > ul > li:nth-of-type(1)"; py "body > ul > li:nth-of-type(2)"].
Proof. vm_compute. reflexivity. Qed.

Section ExtractionProofs.

Variable raises : node -> bool.

Lemma extract_loop_app pre : ∀ post acc,
  (∀ x, x ∈ pre → dom_entry raises x ≠ None) →
  extract_loop raises (pre ++ post) acc
  = extract_loop raises post
      (acc ++ omap (λ x, default None (dom_entry raises x)) pre).
Proof.
  induction pre as [|e pre IH]; intros post acc Hok; simpl.
  - by rewrite app_nil_r.
  - assert (He : dom_entry raises e ≠ None) by (apply Hok; by left).
    assert (Hpre : ∀ x, x ∈ pre → dom_entry raises x ≠ None).
    { intros x Hx. apply Hok. by right. }
    destruct (dom_entry raises e) as [[d|]|]; [| |done]; simpl.
    + rewrite IH by done. by rewrite <- app_assoc.
    + by rewrite IH.
Qed.

(** C7 (amended). When the loop body raises for an element, the exception is
    swallowed and the inventory returned holds exactly the entries of the
    elements that come before it in document order: the elements after the
    failing one are not extracted. *)
Theorem extraction_stops_at_first_failure doc pre e post :
  find_all_true doc = pre ++ e :: post →
  (∀ x, x ∈ pre → dom_entry raises x ≠ None) →
  dom_entry raises e = None →
  extract_dom_properties raises doc
  = omap (λ x, default None (dom_entry raises x)) pre.
Proof.
  intros Hdoc Hpre He. unfold extract_dom_properties. rewrite Hdoc.
  rewrite extract_loop_app by done. simpl. by rewrite He.
Qed.

(** Without a failure every element other than [script] and [style] has its
    entry, in document order. *)
Lemma extraction_complete doc :
  (∀ x, x ∈ find_all_true doc → dom_entry raises x ≠ None) →
  extract_dom_properties raises doc
  = omap (λ x, default None (dom_entry raises x)) (find_all_true doc).
Proof.
  intros Hok. unfold extract_dom_properties.
  rewrite <- (app_nil_r (find_all_true doc)) at 1.
  by rewrite extract_loop_app.
Qed.

End ExtractionProofs.

Lemma three_elements_inventory :
  find_all_true three_elements
  = [(elem "div" [], []); (elem "bad" [], []); (elem "p" [], [])]
  ∧ dom_entry bad_fault (elem "bad" [], []) = None
  ∧ dom_entry bad_fault (elem "p" [], [])
    = Some (Some (mkDomProp (py "p") [] [] None))
  ∧ extract_dom_properties bad_fault three_elements
    = [mkDomProp (py "div") [] [] None].
Proof. vm_compute. done. Qed.

(** The claim C7 as it is stated fails: the element [p] is read without
    error and comes after the failing element, and yet it has no entry in
    the inventory. *)
Lemma later_element_is_lost :
  ¬ (∀ raises doc pre e post x d,
       find_all_true doc = pre ++ e :: post →
       dom_entry raises e = None →
       x ∈ post →
       dom_entry raises x = Some (Some d) →
       d ∈ extract_dom_properties raises doc).
Proof.
  intros Hclaim.
  destruct three_elements_inventory as (Hall & Hbad & Hp & Hout).
  specialize (Hclaim bad_fault three_elements [(elem "div" [], [])]
                (elem "bad" [], []) [(elem "p" [], [])] (elem "p" [], [])
                _ Hall Hbad ltac:(by left) Hp).
  rewrite Hout in Hclaim. apply list_elem_of_singleton in Hclaim. discriminate.
Qed.

Lemma extraction_stops_at_first_failure_witness :
  extract_dom_properties bad_fault three_elements
  = omap (λ x, default None (dom_entry bad_fault x)) [(elem "div" [], [])].
Proof.
  apply (extraction_stops_at_first_failure bad_fault three_elements
           [(elem "div" [], [])] (elem "bad" [], []) [(elem "p" [], [])]).
  - reflexivity.
  - intros x Hx. apply list_elem_of_singleton in Hx as ->. vm_compute. discriminate.
  - vm_compute. reflexivity.
Defined.

(** ** The structured export *)

Lemma json_of_dom_prop_shape d :
  json_keys (json_of_dom_prop d) = map py ["tag"; "path"; "attributes"; "text_preview"]
  ∧ json_field "tag" (json_of_dom_prop d) = Some (JString (dp_tag d))
  ∧ json_field "path" (json_of_dom_prop d) = Some (JString (dp_path d))
  ∧ json_field "attributes" (json_of_dom_prop d)
    = Some (JObject (map (λ kv, (fst kv, JString (snd kv))) (dp_attributes d)))
  ∧ json_field "text_preview" (json_of_dom_prop d)
    = Some (json_of_option (dp_text_preview d)).
Proof. done. Qed.

(** The structured export of the scraper is an array with one object
    per page record, in the order of the records; the object of a record
    has the keys [url], [title], [internal_links], [dom_properties], with
    the record's URL and title, its links as an array of strings, and its
    element inventory as an array of objects with the keys [tag], [path],
    [attributes], [text_preview].  The export of the pipeline, for a list
    of items that is not empty, has the same four keys per item, the links
    as an array of strings, and an inventory that is always empty (the
    spider's items carry none). *)
Lemma json_export_shape :
  (∀ s, ∃ objs,
      save_to_json s = JArray objs
      ∧ length objs = length (data s)
      ∧ ∀ i item, data s !! i = Some item →
          ∃ obj props,
            objs !! i = Some obj
            ∧ json_keys obj
              = map py ["url"; "title"; "internal_links"; "dom_properties"]
            ∧ json_field "url" obj = Some (JString (pd_url item))
            ∧ json_field "title" obj = Some (json_of_option (pd_title item))
            ∧ json_field "internal_links" obj
              = Some (JArray (map JString (pd_internal_links item)))
            ∧ json_field "dom_properties" obj = Some (JArray props)
            ∧ length props = length (pd_dom_properties item)
            ∧ ∀ j d, pd_dom_properties item !! j = Some d →
                ∃ p, props !! j = Some p
                     ∧ json_keys p
                       = map py ["tag"; "path"; "attributes"; "text_preview"]
                     ∧ json_field "tag" p = Some (JString (dp_tag d))
                     ∧ json_field "path" p = Some (JString (dp_path d))
                     ∧ json_field "attributes" p
                       = Some (JObject (map (λ kv, (fst kv, JString (snd kv)))
                                          (dp_attributes d)))
                     ∧ json_field "text_preview" p
                       = Some (json_of_option (dp_text_preview d)))
  ∧ (∀ items, items ≠ [] → ∃ objs,
      close_spider items = Some (JArray objs)
      ∧ length objs = length items
      ∧ ∀ i item, items !! i = Some item →
          ∃ obj links,
            objs !! i = Some obj
            ∧ json_keys obj
              = map py ["url"; "title"; "internal_links"; "dom_properties"]
            ∧ json_field "url" obj = Some (JString (item_url item))
            ∧ json_field "title" obj = Some (JString (item_title item))
            ∧ json_field "internal_links" obj = Some (JArray (map JString links))
            ∧ links = recover_links (item_internal_links item)
            ∧ json_field "dom_properties" obj = Some (JArray [])).
Proof.
  split.
  - intros s. eexists. split; [reflexivity|]. split; [by rewrite length_map|].
    intros i item Hi. eexists _, _. split.
    { rewrite list_lookup_fmap, Hi. reflexivity. }
    split_and!; try reflexivity; [by rewrite length_map|].
    intros j d Hj. eexists. split.
    { rewrite list_lookup_fmap, Hj. reflexivity. }
    apply json_of_dom_prop_shape.
  - intros [|it items] Hne; [done|]. eexists. split; [reflexivity|].
    split; [by rewrite length_map|].
    intros i item Hi. eexists _, _. split.
    { rewrite list_lookup_fmap, Hi. reflexivity. }
    split_and!; reflexivity.
Qed.

(** C8. For a page with eight elements the pipeline of the spider exports an
    object with the keys [url], [title], [internal_links], [dom_properties]
    whose [dom_properties] is the empty array, where the scraper exports the
    inventory of the eight elements: [JSONPipeline.close_spider] writes
    ['dom_properties': []] for every item. *)
Theorem pipeline_exports_no_inventory :
  (∃ item obj,
      spider_item (H := plain_hosts) (py "http://a.test/") listing_page = Some item
      ∧ close_spider [item] = Some (JArray [obj])
      ∧ json_field "url" obj = Some (JString (py "http://a.test/"))
      ∧ json_field "title" obj = Some (JString (py "list"))
      ∧ json_field "internal_links" obj
        = Some (JArray [JString (py "http://a.test/x")])
      ∧ json_field "dom_properties" obj = Some (JArray []))
  ∧ (∃ page obj,
      scrape_body (H := plain_hosts) (λ _, Rendered listing_page []) no_fault
        (py "http://a.test/") (py "http://a.test/") = inl page
      ∧ save_to_json (mkScraper (py "http://a.test/") ∅ [] [page] [])
        = JArray [obj]
      ∧ json_field "dom_properties" obj
        = Some (JArray (map json_of_dom_prop
                          (extract_dom_properties no_fault listing_page)))
      ∧ map dp_tag (extract_dom_properties no_fault listing_page)
        = map py ["html"; "head"; "title"; "body"; "ul"; "li"; "li"; "a"]).
Proof.
  split.
  - eexists _, _. split; [vm_compute; reflexivity|].
    split; [reflexivity|]. vm_compute. done.
  - eexists _, _. split; [vm_compute; reflexivity|].
    split; [reflexivity|]. vm_compute. done.
Qed.

(** Whatever the items, every object that the pipeline exports has an empty
    [dom_properties]. *)
Lemma close_spider_inventory_empty items obj objs :
  close_spider items = Some (JArray objs) → obj ∈ objs →
  json_field "dom_properties" obj = Some (JArray []).
Proof.
  destruct items as [|item items]; [discriminate|].
  intros [= <-] Hobj.
  apply elem_of_cons in Hobj as [-> | Hobj]; [reflexivity|].
  apply list_elem_of_fmap in Hobj as (it & -> & _). reflexivity.
Qed.

(** ** The links through the pipeline *)

Lemma split_on_app c a b :
  has c a = false → split_on c (a ++ c :: b) = a :: split_on c b.
Proof.
  unfold has. induction a as [|x a IH]; simpl; intros Hno.
  - unfold chr_eqb. by rewrite Ascii.eqb_refl.
  - apply orb_false_iff in Hno as [Hx Hno]. rewrite Hx, IH by done. done.
Qed.

Lemma split_on_none c a : has c a = false → split_on c a = [a].
Proof.
  unfold has. induction a as [|x a IH]; simpl; intros Hno; [done|].
  apply orb_false_iff in Hno as [Hx Hno]. rewrite Hx, IH by done. done.
Qed.

Lemma split_join_links l links :
  (∀ x, x ∈ l :: links → has ";" x = false) →
  split_on ";" (join_links (l :: links)) = l :: map (cons " "%char) links.
Proof.
  revert l. induction links as [|l2 links IH]; intros l Hno.
  - simpl. apply split_on_none, Hno. by left.
  - change (join_links (l :: l2 :: links))
      with (l ++ ";"%char :: " "%char :: join_links (l2 :: links)).
    rewrite split_on_app by (apply Hno; by left).
    f_equal.
    assert (Hrest : split_on ";" (join_links (l2 :: links))
                    = l2 :: map (cons " "%char) links).
    { apply IH. intros x Hx. apply Hno. by right. }
    simpl split_on. rewrite Hrest. done.
Qed.

Lemma strip_space_cons l : strip (" "%char :: l) = strip l.
Proof. reflexivity. Qed.

Lemma recover_join_links links :
  (∀ l, l ∈ links → has ";" l = false ∧ strip l = l ∧ l ≠ []) →
  recover_links (join_links links) = links.
Proof.
  intros Hok. destruct links as [|l links]; [done|].
  unfold recover_links. rewrite split_join_links.
  2:{ intros x Hx. by apply Hok. }
  assert (Hkeep : ∀ ls : list str,
            (∀ x, x ∈ ls → strip x = x ∧ x ≠ []) →
            map strip (List.filter (λ link, negb (str_eqb (strip link) []))
                         (map (cons " "%char) ls)) = ls).
  { induction ls as [|x ls IH]; intros Hls; [done|]. simpl.
    destruct (Hls x ltac:(by left)) as [Hx Hne].
    rewrite strip_space_cons, Hx.
    unfold str_eqb at 1. rewrite bool_decide_eq_false_2 by done. simpl.
    rewrite strip_space_cons, Hx. f_equal. apply IH.
    intros y Hy. apply Hls. by right. }
  simpl. destruct (Hok l ltac:(by left)) as (_ & Hl & Hne).
  rewrite Hl. unfold str_eqb at 1. rewrite bool_decide_eq_false_2 by done.
  simpl. rewrite Hl. f_equal. apply Hkeep.
  intros x Hx. destruct (Hok x ltac:(by right)) as (_ & ? & ?). done.
Qed.

(** C10 (amended). When no internal link of a page holds a [;], starts or
    ends with white space, or is empty, splitting the joined string on [;]
    and stripping gives back exactly the sorted list of distinct links of
    the spider; a link with a [;] in it comes back in two pieces. *)
Theorem links_round_trip (internal_links : list str) :
  (∀ l, l ∈ internal_links → has ";" l = false ∧ strip l = l ∧ l ≠ []) →
  recover_links
    (join_links (py_sorted (elements (list_to_set internal_links : gset str))))
  = py_sorted (elements (list_to_set internal_links : gset str))
  ∧ recover_links (join_links [py "http://a.test/b;c"])
    = [py "http://a.test/b"; py "c"].
Proof.
  intros Hok. split; [|vm_compute; reflexivity].
  apply recover_join_links. intros l Hl. apply Hok.
  apply py_sorted_elem, elem_of_elements, elem_of_list_to_set in Hl. done.
Qed.

(** The spider keeps the white space at the end of an [href]. *)
Lemma spider_keeps_trailing_space :
  spider_internal_links (H := plain_hosts) (py "http://a.test/") [py "/x "]
  = Some [py "http://a.test/x "].
Proof. vm_compute. reflexivity. Qed.

(** The claim C10 as it is stated fails: the link [http://a.test/x ], made
    by the spider from the [href] [/x ], holds no [;] and comes back
    without its last character. *)
Lemma trailing_space_is_lost :
  ¬ (∀ internal_links : list str,
       (∀ l, l ∈ internal_links → has ";" l = false) →
       recover_links
         (join_links
            (py_sorted (elements (list_to_set internal_links : gset str))))
       = py_sorted (elements (list_to_set internal_links : gset str))).
Proof.
  intros Hclaim. specialize (Hclaim [py "http://a.test/x "]).
  assert (Hno : ∀ l, l ∈ [py "http://a.test/x "] → has ";" l = false).
  { intros l Hl. apply list_elem_of_singleton in Hl as ->. vm_compute. done. }
  specialize (Hclaim Hno). vm_compute in Hclaim. discriminate.
Qed.

Lemma links_round_trip_witness :
  recover_links
    (join_links
       (py_sorted
          (elements (list_to_set [py "http://a.test/y"; py "http://a.test/x";
                                  py "http://a.test/y"] : gset str))))
  = [py "http://a.test/x"; py "http://a.test/y"].
Proof.
  assert (Hok : ∀ l, l ∈ [py "http://a.test/y"; py "http://a.test/x";
                          py "http://a.test/y"] →
                     has ";" l = false ∧ strip l = l ∧ l ≠ []).
  { intros l Hl. repeat (apply elem_of_cons in Hl as [->|Hl]);
      [vm_compute; done..|by apply elem_of_nil in Hl]. }
  rewrite (proj1 (links_round_trip _ Hok)). vm_compute. reflexivity.
Defined.

(** ** The crawl of the example site *)

Lemma crawl_budget_and_accounting_witness :
  ∃ s', crawl (H := plain_hosts) site_fetch no_fault no_limit
      Pytime.default_delay
          (Some 2%Z) 40 (init (py "http://a.test/")) = Some s'
        ∧ (Z.of_nat (length (data s')) <= 2)%Z
        ∧ size (visited s') = length (data s') + length (errors s').
Proof.
  eexists. split; [vm_compute; reflexivity|].
  match goal with
  | |- (Z.of_nat (length (data ?s)) <= _)%Z ∧ _ =>
      destruct (crawl_budget_and_accounting (H := plain_hosts) site_fetch
                  no_fault no_limit Pytime.default_delay (Some 2%Z)
                  (py "http://a.test/") 40 s
                  ltac:(vm_compute; reflexivity)) as (Hbudget & Hsize & _)
  end.
  split; [exact (Hbudget 2%Z eq_refl ltac:(lia))|exact Hsize].
Defined.

(** The claim C2 as it is stated fails for a budget that is negative, which
    [crawl] accepts: the loop is not entered, and the page count, 0,
    exceeds the budget. *)
Lemma negative_budget_is_exceeded :
  crawl (H := plain_hosts) site_fetch no_fault no_limit Pytime.default_delay
    (Some (-1)%Z) 40 (init (py "http://a.test/"))
  = Some (init (py "http://a.test/"))
  ∧ ¬ (∀ fetch raises os_rejects delay (B : Z) seed fuel s',
         crawl (H := plain_hosts) fetch raises os_rejects delay (Some B) fuel (init seed)
         = Some s' →
         (Z.of_nat (length (data s')) <= B)%Z).
Proof.
  assert (Hrun : crawl (H := plain_hosts) site_fetch no_fault no_limit
                   Pytime.default_delay (Some (-1)%Z) 40
                   (init (py "http://a.test/"))
                 = Some (init (py "http://a.test/")))
    by (vm_compute; reflexivity).
  split; [exact Hrun|]. intros Hclaim.
  specialize (Hclaim _ _ _ _ _ _ _ _ Hrun). simpl in Hclaim. lia.
Qed.

Lemma failed_page_recorded_once_witness :
  ∃ s, steps (H := plain_hosts) site_fetch no_fault no_limit
      Pytime.default_delay None 7
         (AtWhile, init (py "http://a.test/"))
       = Some (AtScrape (py "http://a.test/broken"), s)
       ∧ step (H := plain_hosts) site_fetch no_fault no_limit
           Pytime.default_delay None
           (AtScrape (py "http://a.test/broken"), s)
         = Some (pause no_limit Pytime.default_delay
                   (mkScraper (start_url s) (visited s) (to_visit s) (data s)
                      (errors s
                       ++ [error_record (py "http://a.test/broken")
                             (py "Timeout 30000ms exceeded")])))
       ∧ pause no_limit Pytime.default_delay s = (AtWhile, s).
Proof.
  eexists. split; [vm_compute; reflexivity|].
  split; [|vm_compute; reflexivity].
  match goal with
  | |- step _ _ _ _ _ (_, ?s) = _ =>
      exact (proj1 (failed_page_recorded_once (H := plain_hosts) site_fetch
                      no_fault no_limit
                          Pytime.default_delay None (py "http://a.test/")
                      7 s
                      (py "http://a.test/broken") (py "Timeout 30000ms exceeded")
                      ltac:(vm_compute; reflexivity)
                      ltac:(vm_compute; reflexivity)))
  end.
Defined.

Lemma crawl_deterministic_witness :
  ∃ r1 r2,
    crawl (H := plain_hosts) site_fetch no_fault no_limit
        Pytime.default_delay None 40
      (init (py "http://a.test/")) = Some r1
    ∧ crawl (H := plain_hosts) site_fetch no_fault no_limit
        Pytime.default_delay None 60
        (init (py "http://a.test/")) = Some r2
    ∧ data r1 = data r2
    ∧ ∃ rounds, spec_crawl (H := plain_hosts) site_fetch no_fault None
                  (py "http://a.test/") rounds = Some (data r1).
Proof.
  eexists _, _. split; [vm_compute; reflexivity|].
  split; [vm_compute; reflexivity|].
  match goal with
  | |- data ?r1 = data ?r2 ∧ _ =>
      destruct (crawl_deterministic (H := plain_hosts) site_fetch site_fetch
                  no_fault no_fault no_limit Pytime.default_delay None
                  (λ _, eq_refl) (λ _, eq_refl)
                  (py "http://a.test/") 40 60 r1 r2
                  ltac:(vm_compute; reflexivity)
                  ltac:(vm_compute; reflexivity))
        as (Hdata & _ & _ & Hspec)
  end.
  split; [exact Hdata|]. apply Hspec. vm_compute. reflexivity.
Defined.

(** [time.sleep] on the default delay, on zero and on minus zero returns;
    it raises for a negative delay, for NaN and for the infinities. *)
Lemma sleep_raises_examples :
  Pytime.sleep_raises no_limit Pytime.default_delay = false
  ∧ Pytime.sleep_raises no_limit PrimFloat.zero = false
  ∧ Pytime.sleep_raises no_limit (PrimFloat.opp PrimFloat.zero) = false
  ∧ Pytime.sleep_raises no_limit negative_delay = true
  ∧ Pytime.sleep_raises no_limit PrimFloat.nan = true
  ∧ Pytime.sleep_raises no_limit PrimFloat.infinity = true
  ∧ Pytime.sleep_raises no_limit PrimFloat.neg_infinity = true.
Proof. vm_compute. done. Qed.

(** With [--delay -1] the pause after the first page raises and the loop
    ends there: one page record, and the links of the seed still queued. *)
Lemma negative_delay_ends_the_crawl :
  ∃ s', crawl (H := plain_hosts) site_fetch no_fault no_limit negative_delay
          None 40 (init (py "http://a.test/")) = Some s'
        ∧ map pd_url (data s') = [py "http://a.test/"]
        ∧ to_visit s' = [py "http://a.test/broken"; py "http://a.test/x";
                         py "http://a.test/y"].
Proof. eexists. split; [vm_compute; reflexivity|]. vm_compute. done. Qed.

Lemma json_export_shape_example :
  (∃ obj, json_field "url" obj = Some (JString (py "http://a.test/"))
          ∧ json_keys obj
            = map py ["url"; "title"; "internal_links"; "dom_properties"])
  ∧ ∃ objs, close_spider [mkItem (py "http://a.test/") (py "home")
                            (py "http://a.test/x; http://a.test/y")]
            = Some (JArray objs)
            ∧ length objs = 1.
Proof.
  split.
  - destruct (proj1 json_export_shape
                (mkScraper (py "http://a.test/") ∅ []
                   [mkPageData (py "http://a.test/") (Some (py "home")) []
                      [py "http://a.test/x"] [mkDomProp (py "html") [] [] None]]
                   []))
      as (objs & _ & _ & Hobj).
    destruct (Hobj 0 _ eq_refl) as (obj & props & _ & Hkeys & Hurl & _).
    exists obj. split; [exact Hurl|exact Hkeys].
  - destruct (proj2 json_export_shape
                [mkItem (py "http://a.test/") (py "home")
                   (py "http://a.test/x; http://a.test/y")]
                ltac:(discriminate)) as (objs & Hout & Hlen & _).
    exists objs. split; [exact Hout|exact Hlen].
Defined.

(** ** Splitting strings *)

Lemma has_app c a b : has c (a ++ b) = has c a || has c b.
Proof. apply existsb_app. Qed.

Lemma span_until_spec p s :
  s = fst (span_until p s) ++ snd (span_until p s)
  ∧ existsb p (fst (span_until p s)) = false
  ∧ match snd (span_until p s) with
    | [] => True
    | c :: _ => p c = true
    end.
Proof.
  induction s as [|c s IH]; simpl; [done|].
  destruct (p c) eqn:Hc; simpl; [done|].
  destruct (span_until p s) as [a b]. simpl in *.
  destruct IH as (-> & Ha & Hb). by rewrite Hc.
Qed.

Lemma span_until_app p a b :
  existsb p a = false →
  span_until p (a ++ b)
  = (a ++ fst (span_until p b), snd (span_until p b)).
Proof.
  induction a as [|c a IH]; simpl; intros Ha.
  - by destruct (span_until p b).
  - apply orb_false_iff in Ha as [Hc Ha]. rewrite Hc, IH by done. done.
Qed.

Lemma span_until_none p a : existsb p a = false → span_until p a = (a, []).
Proof.
  intros Ha. rewrite <- (app_nil_r a) at 1.
  rewrite span_until_app by done. simpl. by rewrite app_nil_r.
Qed.

Lemma span_until_stop p a c b :
  existsb p a = false → p c = true → span_until p (a ++ c :: b) = (a, c :: b).
Proof.
  intros Ha Hc. rewrite span_until_app by done. simpl. rewrite Hc. simpl.
  by rewrite app_nil_r.
Qed.

Lemma before_after_split c a b :
  has c a = false → before c (a ++ c :: b) = a ∧ after c (a ++ c :: b) = b.
Proof.
  intros Ha. unfold before, after.
  rewrite span_until_stop; [done|done|]. unfold chr_eqb. apply Ascii.eqb_refl.
Qed.

Lemma before_none c a : has c a = false → before c a = a.
Proof. intros Ha. unfold before. by rewrite span_until_none. Qed.

(** A string splits at its first [c] into what is before and what is
    after. *)
Lemma has_split c s :
  has c s = true →
  s = before c s ++ c :: after c s ∧ has c (before c s) = false.
Proof.
  intros Hs. unfold before, after.
  destruct (span_until_spec (chr_eqb c) s) as (Heq & Ha & Hb).
  destruct (snd (span_until (chr_eqb c) s)) as [|x b] eqn:Hsnd.
  - rewrite app_nil_r in Heq. unfold has in Hs. rewrite Heq in Hs. congruence.
  - unfold chr_eqb in Hb. apply Ascii.eqb_eq in Hb as <-. simpl.
    split; [done|]. done.
Qed.

Lemma existsb_before q c s : existsb q s = false → existsb q (before c s) = false.
Proof.
  intros Hs. unfold before.
  destruct (span_until_spec (chr_eqb c) s) as (Heq & _ & _).
  rewrite Heq, existsb_app in Hs. by apply orb_false_iff in Hs as [? _].
Qed.

Lemma existsb_tl {A} (q : A → bool) s : existsb q s = false → existsb q (tl s) = false.
Proof. destruct s; simpl; [done|]. intros Hs. by apply orb_false_iff in Hs as [_ ?]. Qed.

Lemma existsb_after q c s : existsb q s = false → existsb q (after c s) = false.
Proof.
  intros Hs. unfold after. apply existsb_tl.
  destruct (span_until_spec (chr_eqb c) s) as (Heq & _ & _).
  rewrite Heq, existsb_app in Hs. by apply orb_false_iff in Hs as [_ ?].
Qed.

Lemma existsb_skipn {A} (q : A → bool) n s :
  existsb q s = false → existsb q (skipn n s) = false.
Proof.
  revert s. induction n as [|n IH]; intros [|c s]; simpl; try done.
  intros Hs. apply orb_false_iff in Hs as [_ ?]. by apply IH.
Qed.

Lemma existsb_span_fst q p s :
  existsb q s = false → existsb q (fst (span_until p s)) = false.
Proof.
  intros Hs. destruct (span_until_spec p s) as (Heq & _ & _).
  rewrite Heq, existsb_app in Hs. by apply orb_false_iff in Hs as [? _].
Qed.

Lemma existsb_span_snd q p s :
  existsb q s = false → existsb q (snd (span_until p s)) = false.
Proof.
  intros Hs. destruct (span_until_spec p s) as (Heq & _ & _).
  rewrite Heq, existsb_app in Hs. by apply orb_false_iff in Hs as [_ ?].
Qed.

Lemma existsb_filter_neg {A} (q : A → bool) s :
  existsb q (List.filter (λ c, negb (q c)) s) = false.
Proof.
  induction s as [|c s IH]; simpl; [done|].
  destruct (q c) eqn:Hc; simpl; [done|]. by rewrite Hc.
Qed.

Lemma filter_neg_id {A} (q : A → bool) s :
  existsb q s = false → List.filter (λ c, negb (q c)) s = s.
Proof.
  induction s as [|c s IH]; simpl; [done|]. intros Hs.
  apply orb_false_iff in Hs as [Hc Hs]. rewrite Hc. simpl. by rewrite IH.
Qed.

(** ** Parsing a URL *)

Section ParseProofs.

Context `{Urllib.HostChecks}.

Import Urllib.

Lemma is_lower_facts c :
  is_lower c = true →
  is_c0_or_space c = false ∧ chr_eqb c ":" = false ∧ is_ascii_alpha c = true
  ∧ is_upper c = false ∧ lower_chr c = c.
Proof. destruct c as [[] [] [] [] [] [] [] []]; vm_compute; try done. Qed.

Lemma scheme_chr_facts c :
  is_scheme_chr c = true →
  chr_eqb ":" c = false ∧ is_unsafe c = false ∧ is_delim c = false
  ∧ is_scheme_chr (lower_chr c) = true ∧ is_upper (lower_chr c) = false
  ∧ (is_ascii_alpha c = true → is_lower (lower_chr c) = true).
Proof. destruct c as [[] [] [] [] [] [] [] []]; vm_compute; try done. Qed.

Lemma lower_valid c0 s :
  is_ascii_alpha c0 = true →
  forallb is_scheme_chr (c0 :: s) = true →
  valid_scheme (lower (c0 :: s)).
Proof.
  intros Halpha Hall. simpl in Hall. apply andb_true_iff in Hall as [Hc0 Hall].
  destruct (scheme_chr_facts _ Hc0) as (_ & _ & _ & Hs0 & Hu0 & Hl0).
  simpl. split; [by apply Hl0|].
  rewrite Hs0, Hu0. simpl.
  induction s as [|c s IH]; simpl; [done|]. simpl in Hall.
  apply andb_true_iff in Hall as [Hc Hall].
  destruct (scheme_chr_facts _ Hc) as (_ & _ & _ & Hs & Hu & _).
  rewrite Hs, Hu. simpl. by apply IH.
Qed.

Lemma valid_scheme_facts s :
  valid_scheme s →
  s ≠ [] ∧ has ":" s = false ∧ existsb is_unsafe s = false
  ∧ forallb is_scheme_chr s = true ∧ lower s = s.
Proof.
  destruct s as [|c0 s]; [done|]. intros [_ Hall]. split; [done|].
  revert Hall. generalize (c0 :: s). clear. intros s.
  induction s as [|c s IH]; simpl; [done|]. intros Hall.
  apply andb_true_iff in Hall as [Hc Hall]. apply andb_true_iff in Hc as [Hc Hu].
  apply negb_true_iff in Hu.
  destruct (scheme_chr_facts _ Hc) as (Hcolon & Hunsafe & _).
  destruct (IH Hall) as (Hcol & Hun & Hsch & Hlow).
  unfold has in *. simpl. rewrite Hcolon, Hunsafe, Hc, Hcol, Hun, Hsch. simpl.
  split_and!; try done. unfold lower_chr. rewrite Hu. by rewrite Hlow.
Qed.

Lemma urlsplit_unfold u d :
  urlsplit u d
  = if has_scheme u
    then urlsplit_rest (lower (before ":" (clean_url u))) (after ":" (clean_url u))
    else urlsplit_rest (clean_scheme d) (clean_url u).
Proof.
  unfold urlsplit, has_scheme, urlsplit_rest, clean_url, clean_scheme.
  destruct (remove_unsafe (lstrip_by is_c0_or_space u)) as [|c0 url']; [done|].
  destruct (has ":" (c0 :: url') && negb (chr_eqb c0 ":") && is_ascii_alpha c0
            && forallb is_scheme_chr (before ":" (c0 :: url'))); done.
Qed.

Lemma clean_url_clean u : existsb is_unsafe (clean_url u) = false.
Proof. apply existsb_filter_neg. Qed.

(** With a scheme of its own the URL parses the same whatever the default
    scheme, and its scheme is well formed. *)
Lemma urlsplit_explicit u d d' :
  has_scheme u = true → urlsplit u d = urlsplit u d'.
Proof. intros Hs. by rewrite !urlsplit_unfold, Hs. Qed.

Lemma has_scheme_valid u :
  has_scheme u = true → valid_scheme (lower (before ":" (clean_url u))).
Proof.
  unfold has_scheme, clean_url.
  destruct (remove_unsafe (lstrip_by is_c0_or_space u)) as [|c0 url']; [done|].
  intros Hc. apply andb_true_iff in Hc as [Hc Hall].
  apply andb_true_iff in Hc as [Hc Halpha].
  apply andb_true_iff in Hc as [Hcolon Hne]. apply negb_true_iff in Hne.
  unfold before in *. simpl in *. unfold chr_eqb in Hne.
  rewrite Ascii.eqb_sym in Hne. unfold chr_eqb at 1 in Hall. unfold chr_eqb at 1.
  rewrite Hne in *.
  destruct (span_until (chr_eqb ":") url') as [a b]. simpl in *.
  by apply lower_valid.
Qed.

Lemma split_at_inv c url a b :
  (if has c url then (before c url, after c url) else (url, [])) = (a, b) →
  has c a = false
  ∧ (∀ q, existsb q url = false → existsb q a = false ∧ existsb q b = false).
Proof.
  destruct (has c url) eqn:Hc; intros [= <- <-].
  - split; [by apply has_split|].
    intros q Hq. split; [by apply existsb_before|by apply existsb_after].
  - split; [done|]. intros q Hq. done.
Qed.

(** What [urlsplit] returns holds no character that would end the part it
    is in, and none of the characters that are removed from the URL. *)
Lemma urlsplit_rest_inv sch url r :
  urlsplit_rest sch url = Some r →
  existsb is_unsafe url = false →
  s_scheme r = sch
  ∧ existsb is_delim (s_netloc r) = false
  ∧ existsb is_unsafe (s_netloc r) = false
  ∧ has "?" (s_path r) = false ∧ has "#" (s_path r) = false
  ∧ existsb is_unsafe (s_path r) = false
  ∧ has "#" (s_query r) = false ∧ existsb is_unsafe (s_query r) = false.
Proof.
  unfold urlsplit_rest. intros Hr Hclean.
  destruct (if startswith url (py "//") then _splitnetloc (skipn 2 url)
            else ([], url)) as [nl url1] eqn:Hnl.
  assert (Hnl' : existsb is_delim nl = false ∧ existsb is_unsafe nl = false
                 ∧ existsb is_unsafe url1 = false).
  { destruct (startswith url (py "//")).
    - unfold _splitnetloc in Hnl.
      destruct (span_until_spec is_delim (skipn 2 url)) as (_ & Hd & _).
      pose proof (existsb_span_fst is_unsafe is_delim _
                    (existsb_skipn _ 2 _ Hclean)) as H1.
      pose proof (existsb_span_snd is_unsafe is_delim _
                    (existsb_skipn _ 2 _ Hclean)) as H2.
      rewrite Hnl in *. done.
    - by injection Hnl as <- <-. }
  destruct Hnl' as (Hd & Hun & Hu1).
  destruct (_ || _); [discriminate|].
  destruct (_ && _); [discriminate|].
  destruct (if has "#" url1 then (before "#" url1, after "#" url1)
            else (url1, [])) as [url2 frag] eqn:Hfrag.
  destruct (if has "?" url2 then (before "?" url2, after "?" url2)
            else (url2, [])) as [url3 q] eqn:Hq.
  destruct (_ && _); [discriminate|]. injection Hr as <-. simpl.
  apply split_at_inv in Hfrag as [Hh2 Hfrag].
  apply split_at_inv in Hq as [Hq3 Hq].
  destruct (Hfrag _ Hu1) as [Hu2 _].
  destruct (Hq _ Hu2) as [Hu3 Huq].
  destruct (Hq (chr_eqb "#") Hh2) as [Hh3 Hhq].
  done.
Qed.

Lemma no_delim s :
  has "/" s = false → has "?" s = false → has "#" s = false →
  existsb is_delim s = false.
Proof.
  unfold has. induction s as [|c s IH]; simpl; [done|]. intros H1 H2 H3.
  apply orb_false_iff in H1 as [H1 H1'], H2 as [H2 H2'], H3 as [H3 H3'].
  rewrite IH by done. unfold is_delim, chr_eqb in *.
  rewrite (Ascii.eqb_sym c "/"), (Ascii.eqb_sym c "?"), (Ascii.eqb_sym c "#").
  by rewrite H1, H2, H3.
Qed.

Lemma span_until_exact p a b :
  existsb p a = false →
  match b with [] => True | c :: _ => p c = true end →
  span_until p (a ++ b) = (a, b).
Proof.
  intros Ha Hb. destruct b as [|c b].
  - rewrite app_nil_r. by apply span_until_none.
  - by apply span_until_stop.
Qed.

(** Reading back what follows the scheme of a canonical form: the host may
    take up the start of the path, up to its first [/]. *)
Lemma urlsplit_rest_canonical sch n p q :
  existsb is_delim n = false →
  has "?" p = false → has "#" p = false → has "#" q = false →
  let pre := before "/" p in
  let p1 := snd (span_until (chr_eqb "/") p) in
  p = pre ++ p1 ∧ has "/" pre = false
  ∧ (p1 = [] ∨ ∃ t, p1 = "/"%char :: t)
  ∧ (urlsplit_rest sch (py "//" ++ n ++ p ++ query_part q) = None
     ∨ urlsplit_rest sch (py "//" ++ n ++ p ++ query_part q)
       = Some (mkSplit sch (n ++ pre) p1 q [])).
Proof.
  intros Hn Hpq Hph Hqh pre p1.
  destruct (span_until_spec (chr_eqb "/") p) as (Hp & Hpre & Hp1).
  fold (before "/" p) in Hp, Hpre. fold pre in Hp, Hpre. fold p1 in Hp, Hp1.
  assert (Hp1' : p1 = [] ∨ ∃ t, p1 = "/"%char :: t).
  { destruct p1 as [|c t]; [by left|right]. unfold chr_eqb in Hp1.
    apply Ascii.eqb_eq in Hp1 as <-. eauto. }
  split_and!; [done|done|done|].
  assert (Hsub : has "?" pre = false ∧ has "#" pre = false
                 ∧ has "?" p1 = false ∧ has "#" p1 = false).
  { rewrite Hp, !has_app in Hpq, Hph.
    apply orb_false_iff in Hpq as [? ?], Hph as [? ?]. done. }
  destruct Hsub as (Hq1 & Hh1 & Hq2 & Hh2).
  unfold urlsplit_rest.
  change (startswith (py "//" ++ n ++ p ++ query_part q) (py "//")) with true.
  cbv iota.
  change (skipn 2 (py "//" ++ n ++ p ++ query_part q))
    with (n ++ p ++ query_part q).
  assert (Hspan : _splitnetloc (n ++ p ++ query_part q)
                  = (n ++ pre, p1 ++ query_part q)).
  { unfold _splitnetloc. rewrite Hp at 1. rewrite <- app_assoc, app_assoc.
    apply span_until_exact.
    - rewrite existsb_app, Hn. simpl. by apply no_delim.
    - destruct Hp1' as [->|[t ->]]; simpl; [|done].
      unfold query_part. by destruct (negb (str_eqb q [])). }
  rewrite Hspan.
  destruct (_ || _); [by left|].
  destruct (_ && _); [by left|].
  assert (Hfrag : has "#" (p1 ++ query_part q) = false).
  { rewrite has_app, Hh2. simpl. unfold query_part.
    destruct (negb (str_eqb q [])); [|done]. simpl. done. }
  rewrite Hfrag.
  unfold query_part. unfold str_eqb. case_bool_decide as Hq; simpl.
  - subst q. rewrite app_nil_r, Hq2.
    destruct (_ && _); [by left|by right].
  - rewrite has_app. simpl. rewrite orb_true_r.
    destruct (before_after_split "?" p1 q Hq2) as [-> ->].
    destruct (_ && _); [by left|by right].
Qed.

Lemma existsb_rev {A} (q : A → bool) s : existsb q (rev s) = existsb q s.
Proof.
  induction s as [|c s IH]; simpl; [done|].
  rewrite existsb_app, IH. simpl. rewrite orb_false_r. apply orb_comm.
Qed.

Lemma span_until_fst_app p a b :
  existsb p a = true →
  fst (span_until p (a ++ b)) = fst (span_until p a).
Proof.
  induction a as [|c a IH]; simpl; [done|]. intros Ha.
  destruct (p c) eqn:Hc; [done|]. simpl in Ha.
  specialize (IH Ha).
  destruct (span_until p (a ++ b)), (span_until p a). simpl in *. by subst.
Qed.

Lemma last_segment_eq s :
  last_segment s = rev (fst (span_until (chr_eqb "/") (rev s))).
Proof.
  unfold last_segment, rsplit_slash.
  by destruct (span_until (chr_eqb "/") (rev s)).
Qed.

(** The last segment of a path is that of its part from any [/] on. *)
Lemma last_segment_app x t :
  last_segment (x ++ "/"%char :: t) = last_segment ("/"%char :: t).
Proof.
  rewrite !last_segment_eq. f_equal. rewrite rev_app_distr.
  apply span_until_fst_app. rewrite existsb_rev. done.
Qed.

Lemma last_segment_sub q s :
  existsb q s = false → existsb q (last_segment s) = false.
Proof.
  intros Hs. rewrite last_segment_eq, existsb_rev.
  apply existsb_span_fst. by rewrite existsb_rev.
Qed.

Lemma last_segment_no_slash s : has "/" s = false → last_segment s = s.
Proof.
  intros Hs. rewrite last_segment_eq, span_until_none.
  - apply rev_involutive.
  - by rewrite existsb_rev.
Qed.

(** With a [/] in it, a path is cut by [rsplit_slash] just after its last
    [/]. *)
Lemma rsplit_slash_spec s :
  has "/" s = true →
  ∃ x, fst (rsplit_slash s) = x ++ ["/"%char]
       ∧ s = x ++ "/"%char :: last_segment s.
Proof.
  intros Hs. unfold last_segment, rsplit_slash.
  destruct (span_until_spec (chr_eqb "/") (rev s)) as (Heq & Ha & Hb).
  destruct (span_until (chr_eqb "/") (rev s)) as [seg_rev pre_rev].
  simpl in *. destruct pre_rev as [|c y].
  - rewrite app_nil_r in Heq. rewrite <- Heq, existsb_rev in Ha.
    unfold has in Hs. congruence.
  - unfold chr_eqb in Hb. apply Ascii.eqb_eq in Hb as <-.
    exists (rev y). split; [done|].
    rewrite <- (rev_involutive s), Heq, rev_app_distr. simpl.
    by rewrite <- app_assoc.
Qed.

(** [_splitparams] leaves a path whose last segment holds no [;]. *)
Lemma splitparams_last_segment path0 :
  has ";" (last_segment (fst (_splitparams path0))) = false.
Proof.
  unfold _splitparams. destruct (has "/" path0) eqn:Hslash.
  - destruct (rsplit_slash_spec _ Hslash) as (x & Hpre & Hpath).
    unfold last_segment in *.
    destruct (rsplit_slash path0) as [pre seg]. simpl in *. subst pre.
    destruct (has ";" seg) eqn:Hseg; simpl.
    + rewrite <- app_assoc. simpl.
      change (snd (rsplit_slash (x ++ "/"%char :: before ";" seg)))
        with (last_segment (x ++ "/"%char :: before ";" seg)).
      rewrite last_segment_app. apply last_segment_sub. simpl.
      by apply has_split.
    + rewrite Hpath.
      change (snd (rsplit_slash (x ++ "/"%char :: seg)))
        with (last_segment (x ++ "/"%char :: seg)).
      rewrite last_segment_app.
      apply last_segment_sub. simpl. exact Hseg.
  - simpl. destruct (has ";" path0) eqn:Hsemi.
    + apply last_segment_sub. by apply has_split.
    + rewrite before_none by done. by apply last_segment_sub.
Qed.

(** A path whose last segment holds no [;] has no parameters to split. *)
Lemma splitparams_none p1 :
  has ";" (last_segment p1) = false →
  (if has ";" p1 then _splitparams p1 else (p1, [])) = (p1, []).
Proof.
  intros Hlast. destruct (has ";" p1) eqn:Hsemi; [|done].
  unfold _splitparams. destruct (has "/" p1) eqn:Hslash.
  - unfold last_segment in Hlast. destruct (rsplit_slash p1) as [pre seg].
    simpl in Hlast. by rewrite Hlast.
  - rewrite last_segment_no_slash in Hlast by done. congruence.
Qed.

Lemma remove_unsafe_app a b :
  remove_unsafe (a ++ b) = remove_unsafe a ++ remove_unsafe b.
Proof. unfold remove_unsafe. apply List.filter_app. Qed.

(** A URL that starts with a well-formed scheme and a colon is read with
    that scheme. *)
Lemma urlsplit_prefixed s Y d :
  valid_scheme s →
  has_scheme (s ++ ":"%char :: Y) = true
  ∧ urlsplit (s ++ ":"%char :: Y) d = urlsplit_rest s (remove_unsafe Y).
Proof.
  intros Hs. destruct (valid_scheme_facts _ Hs) as (Hne & Hcolon & Hclean & Hall & Hlow).
  assert (Hurl : clean_url (s ++ ":"%char :: Y) = s ++ ":"%char :: remove_unsafe Y).
  { unfold clean_url. destruct s as [|c0 s']; [done|]. destruct Hs as [Hc0 _].
    destruct (is_lower_facts _ Hc0) as (Hsp & _).
    change (lstrip_by is_c0_or_space ((c0 :: s') ++ ":"%char :: Y))
      with (if is_c0_or_space c0 then lstrip_by is_c0_or_space (s' ++ ":"%char :: Y)
            else (c0 :: s') ++ ":"%char :: Y).
    rewrite Hsp, remove_unsafe_app. unfold remove_unsafe at 1.
    rewrite filter_neg_id by done. done. }
  assert (Hscheme : has_scheme (s ++ ":"%char :: Y) = true).
  { destruct (before_after_split ":" s (remove_unsafe Y) Hcolon) as [Hbef _].
    assert (Hhas : has ":" (s ++ ":"%char :: remove_unsafe Y) = true).
    { rewrite has_app.
      change (has ":" (":"%char :: remove_unsafe Y)) with true.
      apply orb_true_r. }
    unfold has_scheme. fold (clean_url (s ++ ":"%char :: Y)). rewrite Hurl.
    destruct s as [|c0 s']; [done|]. destruct Hs as [Hc0 _].
    destruct (is_lower_facts _ Hc0) as (_ & Hc & Halpha & _).
    change (has ":" ((c0 :: s') ++ ":"%char :: remove_unsafe Y)
            && negb (chr_eqb c0 ":") && is_ascii_alpha c0
            && forallb is_scheme_chr
                 (before ":" ((c0 :: s') ++ ":"%char :: remove_unsafe Y)) = true).
    by rewrite Hhas, Hbef, Hc, Halpha, Hall. }
  split; [done|].
  rewrite urlsplit_unfold, Hscheme, Hurl.
  destruct (before_after_split ":" s (remove_unsafe Y) Hcolon) as [-> ->].
  by rewrite Hlow.
Qed.

Lemma splitparams_sub q path0 :
  existsb q path0 = false → existsb q (fst (_splitparams path0)) = false.
Proof.
  intros Hq. unfold _splitparams. destruct (has "/" path0) eqn:Hslash.
  - destruct (rsplit_slash_spec _ Hslash) as (x & Hpre & Hpath).
    unfold last_segment in *. destruct (rsplit_slash path0) as [pre seg].
    simpl in *. subst pre. destruct (has ";" seg); simpl; [|done].
    rewrite Hpath, existsb_app in Hq. simpl in Hq.
    apply orb_false_iff in Hq as [Hx Hq]. apply orb_false_iff in Hq as [Hs Hq].
    rewrite !existsb_app. simpl. rewrite Hx, Hs. simpl.
    by apply existsb_before.
  - simpl. by apply existsb_before.
Qed.

(** What [urlparse] returns, part by part. *)
Lemma urlparse_inv u d r :
  urlparse u d = Some r →
  (if has_scheme u then valid_scheme (scheme r) else scheme r = clean_scheme d)
  ∧ existsb is_delim (netloc r) = false
  ∧ existsb is_unsafe (netloc r) = false
  ∧ has "?" (path r) = false ∧ has "#" (path r) = false
  ∧ existsb is_unsafe (path r) = false
  ∧ has "#" (query r) = false ∧ existsb is_unsafe (query r) = false
  ∧ (str_in (scheme r) uses_params = true →
     has ";" (last_segment (path r)) = false).
Proof.
  unfold urlparse. destruct (urlsplit u d) as [sr|] eqn:Hsplit; [|discriminate].
  assert (Hsr : (if has_scheme u then valid_scheme (s_scheme sr)
                 else s_scheme sr = clean_scheme d)
                ∧ existsb is_delim (s_netloc sr) = false
                ∧ existsb is_unsafe (s_netloc sr) = false
                ∧ has "?" (s_path sr) = false ∧ has "#" (s_path sr) = false
                ∧ existsb is_unsafe (s_path sr) = false
                ∧ has "#" (s_query sr) = false
                ∧ existsb is_unsafe (s_query sr) = false).
  { rewrite urlsplit_unfold in Hsplit.
    destruct (has_scheme u) eqn:Hs.
    - apply urlsplit_rest_inv in Hsplit as (Hsch & Hrest).
      + split; [|done]. rewrite Hsch. by apply has_scheme_valid.
      + apply existsb_after, clean_url_clean.
    - apply urlsplit_rest_inv in Hsplit as (Hsch & Hrest); [done|].
      apply clean_url_clean. }
  destruct Hsr as (Hsch & Hn1 & Hn2 & Hp1 & Hp2 & Hp3 & Hq1 & Hq2).
  destruct (str_in (s_scheme sr) uses_params && has ";" (s_path sr)) eqn:Hprm.
  - destruct (_splitparams (s_path sr)) as [p prm] eqn:Hsp.
    intros [= <-]. simpl.
    assert (Hp : p = fst (_splitparams (s_path sr))) by (by rewrite Hsp).
    split_and!; try done; rewrite Hp.
    + by apply splitparams_sub.
    + by apply splitparams_sub.
    + by apply splitparams_sub.
    + intros _. apply splitparams_last_segment.
  - intros [= <-]. simpl. split_and!; try done.
    intros Hin. rewrite Hin in Hprm. simpl in Hprm.
    by apply last_segment_sub.
Qed.

Lemma str_eqb_true a b : str_eqb a b = true ↔ a = b.
Proof. unfold str_eqb. apply bool_decide_eq_true. Qed.

Lemma str_eqb_false a b : str_eqb a b = false ↔ a ≠ b.
Proof. unfold str_eqb. apply bool_decide_eq_false. Qed.

Lemma str_eqb_refl a : str_eqb a a = true.
Proof. by apply str_eqb_true. Qed.

Lemma canonical_unfold s n p q :
  canonical s n p q = s ++ ":"%char :: (py "//" ++ n ++ p ++ query_part q).
Proof. reflexivity. Qed.

Lemma query_part_clean q :
  existsb is_unsafe q = false → existsb is_unsafe (query_part q) = false.
Proof. unfold query_part. destruct (negb (str_eqb q [])); done. Qed.

(** Reading back a canonical form: either the host is refused, or the parts
    come back, the host taking up the start of the path up to its first
    [/]. *)
Lemma urlparse_canonical s n p q d :
  parts_ok s n p q →
  let pre := before "/" p in
  let p1 := snd (span_until (chr_eqb "/") p) in
  p = pre ++ p1
  ∧ (p1 = [] ∨ ∃ t, p1 = "/"%char :: t)
  ∧ has_scheme (canonical s n p q) = true
  ∧ (urlparse (canonical s n p q) d = None
     ∨ urlparse (canonical s n p q) d = Some (mkParse s (n ++ pre) p1 [] q [])).
Proof.
  intros [Hs [Hn1 Hn2] (Hp1 & Hp2 & Hp3) [Hq1 Hq2] Hprm] pre p1.
  destruct (urlsplit_rest_canonical s n p q Hn1 Hp1 Hp2 Hq1)
    as (Hp & Hpre & Hp1' & Hrest).
  fold pre p1 in Hp, Hpre, Hp1', Hrest.
  destruct (urlsplit_prefixed s (py "//" ++ n ++ p ++ query_part q) d Hs)
    as [Hhas Hsplit].
  rewrite <- canonical_unfold in Hhas, Hsplit.
  assert (Hclean : remove_unsafe (py "//" ++ n ++ p ++ query_part q)
                   = py "//" ++ n ++ p ++ query_part q).
  { apply filter_neg_id. rewrite !existsb_app, Hn2, Hp3, query_part_clean by done.
    done. }
  rewrite Hclean in Hsplit.
  split_and!; [done|done|done|].
  unfold urlparse. rewrite Hsplit.
  destruct Hrest as [-> | ->]; [by left|right]. simpl.
  assert (Hlast : str_in s uses_params = true → has ";" (last_segment p1) = false).
  { intros Hin. destruct Hp1' as [-> | [t Ht]]; [done|].
    rewrite Ht. rewrite <- (last_segment_app pre). rewrite <- Ht, <- Hp.
    by apply Hprm. }
  destruct (str_in s uses_params) eqn:Hin; simpl; [|done].
  by rewrite splitparams_none by (by apply Hlast).
Qed.

(** Putting the parts of a canonical form together again gives it back. *)
Lemma urlunparse_canonical s n' p1 q :
  s ≠ [] → n' ≠ [] → (p1 = [] ∨ ∃ t, p1 = "/"%char :: t) →
  urlunparse s n' p1 [] q [] = canonical s n' p1 q.
Proof.
  intros Hs Hn Hp1. unfold urlunparse, urlunsplit, canonical, query_part.
  rewrite str_eqb_refl.
  apply str_eqb_false in Hs, Hn. rewrite Hs, Hn. cbn [negb orb andb].
  assert (Hslash : negb (str_eqb p1 []) && negb (startswith p1 (py "/")) = false).
  { destruct Hp1 as [-> | [t ->]]; [done|]. apply andb_false_iff. right. done. }
  rewrite Hslash.
  destruct (str_eqb q []); cbn [negb orb andb];
    rewrite <- ?app_assoc, ?app_nil_r; reflexivity.
Qed.

(** With a host, [urlunparse] starts the URL with the scheme, [://] and the
    host. *)
Lemma urlunparse_prefix bs N P PR Q F :
  bs ≠ [] → N ≠ [] →
  ∃ X, urlunparse bs N P PR Q F = bs ++ ":"%char :: (py "//" ++ N ++ X).
Proof.
  intros Hs Hn. unfold urlunparse, urlunsplit.
  apply str_eqb_false in Hs, Hn. rewrite Hs, Hn. cbn [negb orb andb].
  repeat match goal with
         | |- context [if ?c then _ else _] => destruct c
         end;
    eexists; rewrite <- ?app_assoc; cbn [app py String.list_ascii_of_string];
    try reflexivity.
Qed.

Lemma urlsplit_rest_netloc sch Y sr :
  urlsplit_rest sch (py "//" ++ Y) = Some sr →
  s_scheme sr = sch ∧ s_netloc sr = fst (span_until is_delim Y).
Proof.
  unfold urlsplit_rest.
  change (startswith (py "//" ++ Y) (py "//")) with true. cbv iota.
  change (skipn 2 (py "//" ++ Y)) with Y. unfold _splitnetloc.
  destruct (span_until is_delim Y) as [nl url1].
  destruct (_ || _); [discriminate|].
  destruct (_ && _); [discriminate|].
  destruct (if has "#" url1 then _ else _) as [url2 frag].
  destruct (if has "?" url2 then _ else _) as [url3 q].
  destruct (_ && _); [discriminate|]. by intros [= <-].
Qed.

(** A URL put together from a well-formed scheme and a host parses to that
    scheme and to a host that is not empty. *)
Lemma urlparse_joined bs N P PR Q F r :
  valid_scheme bs → N ≠ [] →
  existsb is_delim N = false → existsb is_unsafe N = false →
  urlparse (urlunparse bs N P PR Q F) [] = Some r →
  scheme r = bs ∧ netloc r ≠ []
  ∧ has_scheme (urlunparse bs N P PR Q F) = true.
Proof.
  intros Hs Hn Hd Hu Hr.
  destruct (valid_scheme_facts _ Hs) as (Hne & _).
  destruct (urlunparse_prefix bs N P PR Q F Hne Hn) as [X HX].
  rewrite HX in *.
  destruct (urlsplit_prefixed bs (py "//" ++ N ++ X) [] Hs) as [Hhas Hsplit].
  unfold urlparse in Hr. rewrite Hsplit in Hr.
  change (remove_unsafe (py "//" ++ N ++ X))
    with (py "//" ++ remove_unsafe (N ++ X)) in Hr.
  destruct (urlsplit_rest bs (py "//" ++ remove_unsafe (N ++ X))) as [sr|] eqn:Hsr;
    [|discriminate].
  apply urlsplit_rest_netloc in Hsr as [Hsch Hnl].
  rewrite remove_unsafe_app in Hnl. unfold remove_unsafe at 1 in Hnl.
  rewrite filter_neg_id in Hnl by done.
  rewrite span_until_app in Hnl by done. simpl in Hnl.
  destruct (str_in (s_scheme sr) uses_params && has ";" (s_path sr)).
  - destruct (_splitparams (s_path sr)). injection Hr as <-. simpl.
    split_and!; [done| |done]. rewrite Hnl. by destruct N.
  - injection Hr as <-. simpl.
    split_and!; [done| |done]. rewrite Hnl. by destruct N.
Qed.

Lemma http_scheme_facts bs :
  bs = py "http" ∨ bs = py "https" →
  valid_scheme bs ∧ clean_scheme bs = bs ∧ bs ≠ []
  ∧ str_in bs uses_relative = true ∧ str_in bs uses_netloc = true.
Proof. intros [-> | ->]; vm_compute; done. Qed.

Lemma urlparse_explicit u d d' :
  has_scheme u = true → urlparse u d = urlparse u d'.
Proof. intros Hs. unfold urlparse. by rewrite (urlsplit_explicit u d d'). Qed.

Lemma urlparse_empty : urlparse [] [] = Some (mkParse [] [] [] [] [] []).
Proof. reflexivity. Qed.

(** What [urljoin] gives against an [http] base with a host parses to a
    well-formed scheme, and to a host when the scheme is that of the base. *)
Lemma urljoin_result base b u resolved r :
  urlparse base [] = Some b →
  scheme b = py "http" ∨ scheme b = py "https" →
  netloc b ≠ [] →
  urljoin base u = Some resolved →
  urlparse resolved [] = Some r →
  has_scheme resolved = true ∧ (scheme r = scheme b → netloc r ≠ []).
Proof.
  intros Hb Hbs Hbn Hj Hr.
  destruct (http_scheme_facts _ Hbs) as (Hvalid & Hclean & Hne & Hrel & Hnet).
  assert (Hbase : has_scheme base = true).
  { pose proof (urlparse_inv _ _ _ Hb) as (Hsch & _).
    destruct (has_scheme base); [done|]. by rewrite Hsch in Hne. }
  unfold urljoin in Hj.
  destruct (str_eqb base []) eqn:Hbase0.
  { apply str_eqb_true in Hbase0. subst base. rewrite urlparse_empty in Hb.
    injection Hb as <-. done. }
  destruct (str_eqb u []) eqn:Hu0.
  { injection Hj as <-. split; [done|]. intros _. congruence. }
  rewrite Hb in Hj.
  destruct (urlparse u (scheme b)) as [pu|] eqn:Hpu; [|discriminate].
  pose proof (urlparse_inv _ _ _ Hpu) as (Hsch & Hd & Hun & _).
  pose proof (urlparse_inv _ _ _ Hb) as (_ & Hbd & Hbun & _).
  destruct (negb (str_eqb (scheme pu) (scheme b))
            || negb (str_in (scheme pu) uses_relative)) eqn:Hcond.
  - (* the URL has a scheme of its own and is returned as it is *)
    injection Hj as <-.
    assert (Hexp : has_scheme u = true).
    { destruct (has_scheme u); [done|]. rewrite Hclean in Hsch.
      rewrite Hsch, str_eqb_refl, Hrel in Hcond. done. }
    split; [done|]. rewrite (urlparse_explicit u [] (scheme b) Hexp) in Hr.
    assert (r = pu) as -> by congruence. intros Heq.
    rewrite Heq, str_eqb_refl, Hrel in Hcond. done.
  - apply orb_false_iff in Hcond as [Hsame _].
    apply negb_false_iff, str_eqb_true in Hsame.
    rewrite Hsame, Hnet in Hj. cbn [andb] in Hj.
    assert (Hjoin : ∃ N P PR Q F,
              resolved = urlunparse (scheme b) N P PR Q F
              ∧ N ≠ [] ∧ existsb is_delim N = false
              ∧ existsb is_unsafe N = false).
    { destruct (negb (str_eqb (netloc pu) [])) eqn:Hnl.
      - injection Hj as <-. apply negb_true_iff, str_eqb_false in Hnl.
        eexists _, _, _, _, _. split; [reflexivity|done].
      - destruct (str_eqb (path pu) [] && str_eqb (params pu) []);
          injection Hj as <-; eexists _, _, _, _, _; (split; [reflexivity|done]). }
    destruct Hjoin as (N & P & PR & Q & F & -> & HN & HNd & HNu).
    destruct (urlparse_joined _ _ _ _ _ _ _ Hvalid HN HNd HNu Hr)
      as (Hrs & Hrn & Hhas).
    done.
Qed.

End ParseProofs.

(** ** Normalisation *)

Section NormalizeProofs.

Context `{Urllib.HostChecks}.

Lemma normalize_url_unfold base u :
  normalize_url base u
  = match Urllib.urljoin base u with
    | None => u
    | Some resolved =>
        match Urllib.urlparse resolved [] with
        | None => u
        | Some r => canonical (Urllib.scheme r) (Urllib.netloc r)
                      (Urllib.path r) (Urllib.query r)
        end
    end.
Proof. reflexivity. Qed.

(** A canonical form whose scheme is well formed, and which has a host when
    its scheme is that of the base, is left as it is. *)
Lemma normalize_canonical_fixed base b s n p q :
  Urllib.urlparse base [] = Some b →
  Urllib.scheme b = py "http" ∨ Urllib.scheme b = py "https" →
  parts_ok s n p q →
  (s = Urllib.scheme b → n ≠ []) →
  normalize_url base (canonical s n p q) = canonical s n p q.
Proof.
  intros Hb Hbs Hok Hhost.
  destruct (http_scheme_facts _ Hbs) as (Hvalid & Hclean & Hne & Hrel & Hnet).
  destruct (valid_scheme_facts _ (ok_scheme _ _ _ _ Hok)) as (Hsne & _).
  destruct (urlparse_canonical s n p q (Urllib.scheme b) Hok)
    as (Hp & Hp1 & Hexp & Hparse).
  set (pre := before "/" p) in *.
  set (p1 := snd (span_until (chr_eqb "/") p)) in *.
  assert (Hsame : canonical s (n ++ pre) p1 q = canonical s n p q).
  { assert (Hpq : p ++ query_part q = pre ++ p1 ++ query_part q).
    { by rewrite app_assoc, <- Hp. }
    unfold canonical. rewrite Hpq. by rewrite <- !app_assoc. }
  rewrite normalize_url_unfold. unfold Urllib.urljoin.
  assert (Hbase0 : str_eqb base [] = false).
  { apply str_eqb_false. intros ->. rewrite urlparse_empty in Hb.
    injection Hb as <-. done. }
  assert (Hc0 : str_eqb (canonical s n p q) [] = false).
  { apply str_eqb_false. rewrite canonical_unfold. by destruct s. }
  rewrite Hbase0, Hc0, Hb.
  destruct Hparse as [-> | Hparse]; [done|]. rewrite Hparse. simpl.
  assert (Hagain : Urllib.urlparse (canonical s n p q) []
                   = Some (Urllib.mkParse s (n ++ pre) p1 [] q [])).
  { by rewrite (urlparse_explicit _ [] (Urllib.scheme b) Hexp). }
  destruct (negb (str_eqb s (Urllib.scheme b))
            || negb (Urllib.str_in s Urllib.uses_relative)) eqn:Hcond.
  - rewrite Hagain. done.
  - apply orb_false_iff in Hcond as [Hs _].
    apply negb_false_iff, str_eqb_true in Hs.
    assert (Hn : n ++ pre ≠ []).
    { specialize (Hhost Hs). by destruct n. }
    rewrite Hs, Hnet. apply str_eqb_false in Hn. rewrite Hn. simpl.
    apply str_eqb_false in Hn.
    rewrite <- Hs, urlunparse_canonical by done.
    rewrite Hsame, Hagain. done.
Qed.

(** C9 (amended). Against a base that is an [http] or [https] URL with a
    host, normalising a URL that is already normalised changes nothing. *)
Theorem normalize_url_idempotent base u :
  http_base base →
  normalize_url base (normalize_url base u) = normalize_url base u.
Proof.
  intros (b & Hb & Hbs & Hbn).
  rewrite (normalize_url_unfold base u).
  destruct (Urllib.urljoin base u) as [resolved|] eqn:Hj.
  2:{ rewrite normalize_url_unfold, Hj. done. }
  destruct (Urllib.urlparse resolved []) as [r|] eqn:Hr.
  2:{ rewrite normalize_url_unfold, Hj, Hr. done. }
  destruct (urljoin_result _ _ _ _ _ Hb Hbs Hbn Hj Hr) as [Hexp Hhost].
  pose proof (urlparse_inv _ _ _ Hr) as (Hs & Hn1 & Hn2 & Hp1 & Hp2 & Hp3 & Hq1 & Hq2 & Hprm).
  rewrite Hexp in Hs.
  apply (normalize_canonical_fixed base b); try done.
Qed.

End NormalizeProofs.

(** The claim C9 as it is stated fails: against the base [about:blank],
    whose scheme takes no relative reference, [page.html] normalises to
    [://page.html], and that to [://://page.html]; and against a seed typed
    without its scheme, [a.test], [x/y] normalises to [://x/y], and that to
    [://:/x/y]. *)
Lemma normalize_url_not_idempotent :
  normalize_url (H := plain_hosts) (py "about:blank") (py "page.html")
  = py "://page.html"
  ∧ normalize_url (H := plain_hosts) (py "about:blank")
      (normalize_url (H := plain_hosts) (py "about:blank") (py "page.html"))
    = py "://://page.html"
  ∧ normalize_url (H := plain_hosts) (py "a.test") (py "x/y") = py "://x/y"
  ∧ normalize_url (H := plain_hosts) (py "a.test")
      (normalize_url (H := plain_hosts) (py "a.test") (py "x/y"))
    = py "://:/x/y"
  ∧ ¬ (∀ base u,
         normalize_url (H := plain_hosts) base
           (normalize_url (H := plain_hosts) base u)
         = normalize_url (H := plain_hosts) base u).
Proof.
  split_and!; [vm_compute; reflexivity..|].
  intros Hclaim. specialize (Hclaim (py "about:blank") (py "page.html")).
  vm_compute in Hclaim. discriminate.
Qed.

Lemma normalize_url_idempotent_witness :
  normalize_url (H := plain_hosts) (py "http://a.test/docs/")
    (normalize_url (H := plain_hosts) (py "http://a.test/docs/")
       (py "../x;p?q=1#top"))
  = normalize_url (H := plain_hosts) (py "http://a.test/docs/")
      (py "../x;p?q=1#top").
Proof.
  apply (normalize_url_idempotent (H := plain_hosts)).
  eexists. split; [vm_compute; reflexivity|]. split; [left|]; vm_compute; done.
Defined.

(** ** Resolution against the seed *)

(** C1. [normalize_url] resolves a relative [href] against the seed of the
    crawl, whatever the page it was found on: on the page
    [http://a.test/docs/guide.html], the link [intro.html] becomes
    [http://a.test/intro.html], where resolution against the page, which
    the spider does, gives [http://a.test/docs/intro.html]. *)
Theorem normalize_url_resolves_against_seed :
  normalize_url (H := plain_hosts) (py "http://a.test/") (py "intro.html")
  = py "http://a.test/intro.html"
  ∧ (∃ page,
       scrape_body (H := plain_hosts)
         (λ _, html_page "guide" ["intro.html"]) no_fault
         (py "http://a.test/") (py "http://a.test/docs/guide.html") = inl page
       ∧ pd_internal_links page = [py "http://a.test/intro.html"])
  ∧ Urllib.urljoin (H := plain_hosts) (py "http://a.test/docs/guide.html")
      (py "intro.html")
    = Some (py "http://a.test/docs/intro.html")
  ∧ spider_internal_links (H := plain_hosts)
      (py "http://a.test/docs/guide.html") [py "intro.html"]
    = Some [py "http://a.test/docs/intro.html"].
Proof.
  split_and!; try (vm_compute; reflexivity).
  eexists. split; vm_compute; reflexivity.
Qed.

(** The other parts of the claim hold of [normalize_url]: the fragment goes,
    the query stays, and a URL that does not parse comes back as it is. *)
Lemma normalize_url_examples :
  normalize_url (H := plain_hosts) (py "http://a.test/") (py "/x?q=2#frag")
  = py "http://a.test/x?q=2"
  ∧ normalize_url (H := plain_hosts) (py "http://a.test/") (py "http://[::1#frag")
    = py "http://[::1#frag".
Proof. split; vm_compute; reflexivity. Qed.

(** ** The inventory of a parsed document *)

Lemma node_induction (P : node → Prop) :
  (∀ s, P (Text s)) → (∀ s, P (Special s)) →
  (∀ name attrs contents, Forall P contents → P (Tag name attrs contents)) →
  ∀ n, P n.
Proof.
  intros HT HS HTag. fix IH 1. intros [s|s|name attrs contents];
    [apply HT|apply HS|]. apply HTag.
  revert contents. fix IHc 1. intros [|c cs]; constructor; [apply IH|apply IHc].
Qed.

Lemma attr_get_NoDup k v (a : list (str * attr_value)) :
  NoDup (map fst a) → (k, v) ∈ a → attr_get k a = Some v.
Proof.
  induction a as [|[k' v'] a IH]; simpl; intros Hnd Hin.
  - by apply elem_of_nil in Hin.
  - apply NoDup_cons in Hnd as [Hk Hnd].
    apply elem_of_cons in Hin as [[= <- <-]|Hin].
    + by rewrite str_eqb_refl.
    + destruct (str_eqb k k') eqn:Heq; [|by apply IH].
      unfold str_eqb in Heq. apply bool_decide_eq_true in Heq as <-.
      exfalso. apply Hk. apply list_elem_of_fmap. by exists (k, v).
Qed.

Lemma attr_value_eqb_refl v : attr_value_eqb v v = true.
Proof. destruct v; simpl; [apply str_eqb_refl|by apply bool_decide_eq_true]. Qed.

Lemma attrs_eqb_refl a : NoDup (map fst a) → attrs_eqb a a = true.
Proof.
  intros Hnd. unfold attrs_eqb. rewrite Nat.eqb_refl. simpl.
  apply forallb_forall. intros [k v] Hin. simpl.
  rewrite (attr_get_NoDup k v a Hnd) by (by apply list_elem_of_In).
  apply attr_value_eqb_refl.
Qed.

(** An element of a parsed document equals itself. *)
Lemma node_eqb_refl n : parsed_node n = true → node_eqb n n = true.
Proof.
  induction n as [s|s|name attrs contents IH] using node_induction; simpl;
    try (intros _; apply str_eqb_refl).
  intros Hp. apply andb_true_iff in Hp as [Hnd Hc].
  apply bool_decide_eq_true in Hnd.
  rewrite str_eqb_refl, attrs_eqb_refl by done. simpl.
  induction contents as [|c cs IHcs]; [done|].
  simpl in Hc. apply andb_true_iff in Hc as [Hc Hcs].
  apply Forall_cons in IH as [IHc IH].
  rewrite IHc by done. simpl. by apply IHcs.
Qed.

Lemma py_index_found x l :
  x ∈ l → node_eqb x x = true → py_index x l ≠ None.
Proof.
  intros Hin Hx. induction l as [|y l IH]; [by apply elem_of_nil in Hin|].
  simpl. destruct (node_eqb y x) eqn:Hy; [done|].
  apply elem_of_cons in Hin as [->|Hin]; [congruence|].
  destruct (py_index x l); [done|]. by apply IH.
Qed.

Lemma path_entry_found n p :
  is_tag n = true → parsed_node n = true → n ∈ tag_contents p →
  path_entry n p ≠ None.
Proof.
  intros Ht Hp Hin. unfold path_entry.
  destruct (1 <? _); [|done].
  assert (Hidx : py_index n (find_children (tag_name n) p) ≠ None).
  { apply py_index_found; [|by apply node_eqb_refl].
    unfold find_children. apply list_elem_of_In, filter_In.
    split; [by apply list_elem_of_In|]. by rewrite Ht, str_eqb_refl. }
  by destruct (py_index _ _).
Qed.

Lemma parsed_child n p :
  parsed_node p = true → n ∈ tag_contents p → parsed_node n = true.
Proof.
  destruct p as [s|s|name attrs contents]; simpl; intros Hp Hin;
    try by apply elem_of_nil in Hin.
  apply andb_true_iff in Hp as [_ Hc].
  rewrite forallb_forall in Hc. by apply Hc, list_elem_of_In.
Qed.

Lemma get_path_entries_found parents : ∀ n,
  is_tag n = true → parsed_node n = true →
  Forall (λ p, is_tag p = true ∧ parsed_node p = true) parents →
  child_chain n parents →
  get_path_entries n parents ≠ None.
Proof.
  induction parents as [|p ps IH]; intros n Ht Hp Hps Hchain; simpl; [done|].
  destruct (str_eqb _ _); [done|].
  destruct Hchain as [Hin Hchain]. apply Forall_cons in Hps as [[Htp Hpp] Hps].
  pose proof (path_entry_found n p Ht Hp Hin) as He.
  destruct (path_entry n p); [|done].
  pose proof (IH p Htp Hpp Hps Hchain) as Hrest.
  by destruct (get_path_entries p ps).
Qed.

(** What [find_all(True)] hands to the loop: elements, each with the chain
    of its parents. *)
Lemma elements_of_chain n : ∀ parents e,
  parsed_node n = true →
  Forall (λ p, is_tag p = true ∧ parsed_node p = true) parents →
  child_chain n parents →
  e ∈ elements_of parents n →
  is_tag (fst e) = true ∧ parsed_node (fst e) = true
  ∧ Forall (λ p, is_tag p = true ∧ parsed_node p = true) (snd e)
  ∧ child_chain (fst e) (snd e).
Proof.
  induction n as [s|s|name attrs contents IH] using node_induction;
    intros parents e Hp Hps Hchain Hin; simpl in Hin;
    try by apply elem_of_nil in Hin.
  apply elem_of_cons in Hin as [->|Hin]; [done|].
  apply list_elem_of_In, in_flat_map in Hin as (c & Hc & Hin).
  rewrite Forall_forall in IH.
  apply list_elem_of_In in Hc, Hin.
  apply (IH c Hc (Tag name attrs contents :: parents) e); try done.
  - by apply (parsed_child c (Tag name attrs contents)).
  - by apply Forall_cons.
Qed.

Lemma get_path_found doc e :
  forallb parsed_node doc = true → e ∈ find_all_true doc → get_path e ≠ None.
Proof.
  intros Hdoc Hin. unfold find_all_true in Hin.
  apply list_elem_of_In, in_flat_map in Hin as (n & Hn & Hin).
  rewrite forallb_forall in Hdoc.
  apply list_elem_of_In in Hin.
  destruct (elements_of_chain n [] e (Hdoc n Hn) ltac:(done) I Hin)
    as (Ht & Hp & Hps & Hchain).
  unfold get_path.
  pose proof (get_path_entries_found _ _ Ht Hp Hps Hchain) as He.
  by destruct (get_path_entries _ _).
Qed.

Section InventoryProofs.

Variable raises : node -> bool.

Lemma dom_entry_cases e :
  dom_entry raises e
  = if listed_name (tag_name (fst e))
    then if raises (fst e) then None
         else option_map (λ p, Some (entry_for e p)) (get_path e)
    else Some None.
Proof.
  unfold dom_entry, listed_name. destruct (_ && _); [|done].
  destruct (raises _); [done|]. by destruct (get_path e).
Qed.

(** On a parsed document, and when reading no element raises, the inventory
    is complete: it lists, in document order, every element whose name is
    not [script] or [style], each with a path. *)
Theorem inventory_is_complete doc :
  forallb parsed_node doc = true →
  (∀ e, e ∈ find_all_true doc → raises (fst e) = false) →
  map dp_tag (extract_dom_properties raises doc)
  = List.filter listed_name (map (λ e, tag_name (fst e)) (find_all_true doc))
  ∧ ∀ e, e ∈ find_all_true doc → listed_name (tag_name (fst e)) = true →
      ∃ p, get_path e = Some p
           ∧ entry_for e p ∈ extract_dom_properties raises doc.
Proof.
  intros Hdoc Hraise.
  assert (Hentry : ∀ e, e ∈ find_all_true doc →
            ∃ p, get_path e = Some p
                 ∧ dom_entry raises e
                   = if listed_name (tag_name (fst e))
                     then Some (Some (entry_for e p)) else Some None).
  { intros e He. rewrite dom_entry_cases, (Hraise e He).
    pose proof (get_path_found doc e Hdoc He) as Hp.
    destruct (get_path e) as [p|]; [|done]. exists p. split; [done|].
    by destruct (listed_name _). }
  assert (Hok : ∀ e, e ∈ find_all_true doc → dom_entry raises e ≠ None).
  { intros e He. destruct (Hentry e He) as (p & _ & ->).
    by destruct (listed_name _). }
  rewrite (extraction_complete raises doc Hok). split.
  - clear Hok Hraise. induction (find_all_true doc) as [|e es IH]; [done|].
    simpl. destruct (Hentry e) as (p & _ & ->); [by left|].
    assert (Hes : ∀ x, x ∈ es →
              ∃ p, get_path x = Some p
                   ∧ dom_entry raises x
                     = if listed_name (tag_name (fst x))
                       then Some (Some (entry_for x p)) else Some None)
      by (intros x Hx; apply Hentry; by right).
    destruct (listed_name _); simpl; [f_equal|]; exact (IH Hes).
  - intros e He Hl. destruct (Hentry e He) as (p & Hp & Hd).
    exists p. split; [done|]. apply list_elem_of_omap. exists e.
    split; [done|]. by rewrite Hd, Hl.
Qed.

(** Whatever the document and whatever fails, an entry of the inventory
    describes an element of the document that is not a [script] or a
    [style]; its preview, when it has one, is not empty and has at most 200
    characters. *)
Theorem inventory_entries_are_elements doc d :
  d ∈ extract_dom_properties raises doc →
  (∃ e p, e ∈ find_all_true doc ∧ get_path e = Some p ∧ d = entry_for e p)
  ∧ dp_tag d ≠ [] ∧ dp_tag d ≠ py "script" ∧ dp_tag d ≠ py "style"
  ∧ match dp_text_preview d with
    | Some text => text ≠ [] ∧ length text ≤ 200
    | None => True
    end.
Proof.
  unfold extract_dom_properties.
  assert (Hloop : ∀ elems acc,
            d ∈ extract_loop raises elems acc →
            d ∈ acc ∨ ∃ e, e ∈ elems ∧ dom_entry raises e = Some (Some d)).
  { induction elems as [|e es IH]; intros acc Hd; simpl in Hd; [by left|].
    destruct (dom_entry raises e) as [[d'|]|] eqn:He.
    - apply IH in Hd as [Hd|(x & Hx & Hd)].
      + apply elem_of_app in Hd as [Hd|Hd]; [by left|].
        apply list_elem_of_singleton in Hd as ->. right. exists e.
        split; [by left|done].
      + right. exists x. split; [by right|done].
    - apply IH in Hd as [Hd|(x & Hx & Hd)]; [by left|].
      right. exists x. split; [by right|done].
    - by left. }
  intros Hd. apply Hloop in Hd as [Hd|(e & He & Hd)];
    [by apply elem_of_nil in Hd|].
  rewrite dom_entry_cases in Hd.
  destruct (listed_name (tag_name (fst e))) eqn:Hl; [|discriminate].
  destruct (raises _); [discriminate|].
  destruct (get_path e) as [p|] eqn:Hp; [|discriminate].
  injection Hd as <-. split; [by exists e, p|]. simpl.
  unfold listed_name in Hl.
  apply andb_true_iff in Hl as [Hl H3]. apply andb_true_iff in Hl as [H1 H2].
  apply negb_true_iff, str_eqb_false in H1, H2, H3.
  split_and!; try done.
  destruct (str_eqb _ _) eqn:Ht; simpl; [done|].
  apply str_eqb_false in Ht. split; [done|]. rewrite length_firstn. lia.
Qed.

End InventoryProofs.

(** ** Fragments and hosts of the recorded links *)

Section LinkProofs.

Context `{Urllib.HostChecks}.

Import Urllib.

Lemma delim_free s :
  existsb is_delim s = false →
  has "/" s = false ∧ has "?" s = false ∧ has "#" s = false.
Proof.
  unfold has. induction s as [|c s IH]; simpl; [done|]. intros Hs.
  apply orb_false_iff in Hs as [Hc Hs]. destruct (IH Hs) as (-> & -> & ->).
  unfold is_delim, chr_eqb in *.
  apply orb_false_iff in Hc as [Hc H3]. apply orb_false_iff in Hc as [H1 H2].
  rewrite (Ascii.eqb_sym "/" c), (Ascii.eqb_sym "?" c), (Ascii.eqb_sym "#" c).
  by rewrite H1, H2, H3.
Qed.

Lemma scheme_no_fragment u r :
  urlparse u [] = Some r →
  has "#" (scheme r) = false ∧ existsb is_unsafe (scheme r) = false.
Proof.
  intros Hr. apply urlparse_inv in Hr as (Hs & _).
  destruct (has_scheme u).
  - apply valid_scheme_facts in Hs as (_ & _ & Hu & Hc & _). split; [|done].
    apply delim_free. clear Hu.
    induction (scheme r) as [|c s IH]; simpl in *; [done|].
    apply andb_true_iff in Hc as [Hc Hs].
    apply scheme_chr_facts in Hc as (_ & _ & -> & _). by apply IH.
  - by rewrite Hs.
Qed.

Lemma normalize_url_cases base u :
  match urljoin base u with
  | Some resolved =>
      match urlparse resolved [] with
      | Some _ =>
          has "#" (normalize_url base u) = false
          ∧ existsb is_unsafe (normalize_url base u) = false
      | None => normalize_url base u = u
      end
  | None => normalize_url base u = u
  end.
Proof.
  rewrite normalize_url_unfold.
  destruct (urljoin base u) as [resolved|]; [|done].
  destruct (urlparse resolved []) as [r|] eqn:Hr; [|done].
  destruct (scheme_no_fragment _ _ Hr) as (Hs1 & Hs2).
  apply urlparse_inv in Hr as (_ & Hn & Hn' & _ & Hp & Hp' & Hq & Hq' & _).
  apply delim_free in Hn as (_ & _ & Hn).
  unfold canonical, query_part, has. rewrite !existsb_app.
  fold (has "#" (scheme r)) (has "#" (netloc r)) (has "#" (path r)).
  rewrite Hs1, Hs2, Hn, Hn', Hp, Hp'.
  destruct (str_eqb (query r) []); simpl; [done|].
  fold (has "#" (query r)). by rewrite Hq, Hq'.
Qed.

(** [normalize_url] either falls back to its argument, when the join or the
    parse raises, or returns a URL without fragment: the result holds no
    [#], and no tab, carriage return or line feed either. *)
Theorem normalize_url_drops_fragment base u :
  match urljoin base u with
  | Some resolved =>
      match urlparse resolved [] with
      | Some _ =>
          has "#" (normalize_url base u) = false
          ∧ existsb is_unsafe (normalize_url base u) = false
      | None => normalize_url base u = u
      end
  | None => normalize_url base u = u
  end.
Proof. apply normalize_url_cases. Qed.

Lemma splitparams_sub_snd q path0 :
  existsb q path0 = false → existsb q (snd (_splitparams path0)) = false.
Proof.
  intros Hq. unfold _splitparams. destruct (has "/" path0) eqn:Hslash.
  - destruct (rsplit_slash_spec _ Hslash) as (x & Hpre & Hpath).
    unfold last_segment in *. destruct (rsplit_slash path0) as [pre seg].
    simpl in *. subst pre. destruct (has ";" seg); simpl; [|done].
    rewrite Hpath, existsb_app in Hq. simpl in Hq.
    apply orb_false_iff in Hq as [Hx Hq]. apply orb_false_iff in Hq as [Hs Hq].
    by apply existsb_after.
  - simpl. by apply existsb_after.
Qed.

Lemma urlparse_params u d r :
  urlparse u d = Some r → has "#" (params r) = false.
Proof.
  unfold urlparse. destruct (urlsplit u d) as [sr|] eqn:Hsplit; [|discriminate].
  assert (Hp : has "#" (s_path sr) = false).
  { rewrite urlsplit_unfold in Hsplit.
    destruct (has_scheme u);
      apply urlsplit_rest_inv in Hsplit as (_ & _ & _ & _ & Hp & _);
      try done; [apply existsb_after|]; apply clean_url_clean. }
  destruct (_ && _).
  - destruct (_splitparams (s_path sr)) as [p prm] eqn:Hsp.
    intros [= <-]. simpl.
    assert (Hprm : prm = snd (_splitparams (s_path sr))) by (by rewrite Hsp).
    rewrite Hprm. by apply splitparams_sub_snd.
  - by intros [= <-].
Qed.

Lemma urlunparse_no_fragment s n p prm q :
  has "#" s = false → has "#" n = false → has "#" p = false →
  has "#" prm = false → has "#" q = false →
  has "#" (urlunparse s n p prm q []) = false.
Proof.
  intros Hs Hn Hp Hprm Hq. unfold urlunparse, urlunsplit.
  rewrite str_eqb_refl. cbn [negb].
  repeat match goal with
         | |- context [if ?c then _ else _] => destruct c
         end;
    rewrite ?has_app, ?Hs, ?Hn, ?Hp, ?Hprm, ?Hq; reflexivity.
Qed.

(** [urldefrag] leaves no [#] in the URL. *)
Lemma urldefrag_no_fragment u v : urldefrag u = Some v → has "#" v = false.
Proof.
  unfold urldefrag. destruct (has "#" u) eqn:Hu; [|by intros [= <-]].
  destruct (urlparse u []) as [r|] eqn:Hr; [|discriminate]. intros [= <-].
  destruct (scheme_no_fragment _ _ Hr) as (Hs & _).
  pose proof (urlparse_params _ _ _ Hr) as Hprm.
  apply urlparse_inv in Hr as (_ & Hn & _ & _ & Hp & _ & Hq & _).
  apply delim_free in Hn as (_ & _ & Hn).
  by apply urlunparse_no_fragment.
Qed.

(** The loop of [parse] over the links, by what one turn appends. *)
Lemma split_links_spec (P Q : str → Prop) url pn raw : ∀ ints exts ints' exts',
  split_links url pn raw ints exts = Some (ints', exts') →
  (∀ href1 href2 r, urldefrag href1 = Some href2 → urlparse href2 [] = Some r →
     (if negb (str_eqb (netloc r) []) && negb (str_eqb (netloc r) pn)
      then Q href2 else P href2)) →
  Forall P ints → Forall Q exts →
  Forall P ints' ∧ Forall Q exts'.
Proof.
  induction raw as [|href rest IH]; intros ints exts ints' exts' Hrun Hstep Hi He;
    simpl in Hrun.
  - by injection Hrun as <- <-.
  - destruct (str_eqb href []); [by eapply IH|].
    destruct (skipped_scheme href); [by eapply IH|].
    destruct (urljoin url href) as [href1|]; [|discriminate].
    destruct (urldefrag href1) as [href2|] eqn:Hd; [|discriminate].
    destruct (urlparse href2 []) as [r|] eqn:Hr; [|discriminate].
    pose proof (Hstep _ _ _ Hd Hr) as Hone.
    destruct (_ && _); apply (IH _ _ _ _ Hrun Hstep); try done;
      apply Forall_app; split; try done; by apply Forall_singleton.
Qed.

(** No link that the spider records, internal or external, carries a
    fragment. *)
Theorem spider_links_have_no_fragment url pn raw ints exts :
  split_links url pn raw [] [] = Some (ints, exts) →
  ∀ l, l ∈ ints ∨ l ∈ exts → has "#" l = false.
Proof.
  intros Hrun.
  destruct (split_links_spec (λ l, has "#" l = false) (λ l, has "#" l = false)
              _ _ _ _ _ _ _ Hrun) as [Hi He]; [|done|done|].
  - intros h1 h2 r Hd _. apply urldefrag_no_fragment in Hd. by destruct (_ && _).
  - rewrite Forall_forall in Hi, He. intros l [Hl|Hl]; auto.
Qed.

(** Every link that the spider files as external names a host, and that
    host is not, character for character, the host of the page; every link
    that it files as internal names no host or the host of the page. *)
Theorem spider_splits_by_host url pn raw ints exts :
  split_links url pn raw [] [] = Some (ints, exts) →
  (∀ l, l ∈ ints → ∃ r, urlparse l [] = Some r ∧ (netloc r = [] ∨ netloc r = pn))
  ∧ (∀ l, l ∈ exts → ∃ r, urlparse l [] = Some r ∧ netloc r ≠ [] ∧ netloc r ≠ pn).
Proof.
  intros Hrun.
  destruct (split_links_spec
              (λ l, ∃ r, urlparse l [] = Some r ∧ (netloc r = [] ∨ netloc r = pn))
              (λ l, ∃ r, urlparse l [] = Some r ∧ netloc r ≠ [] ∧ netloc r ≠ pn)
              _ _ _ _ _ _ _ Hrun) as [Hi He]; [|done|done|].
  - intros h1 h2 r _ Hr.
    destruct (str_eqb (netloc r) []) eqn:H1; simpl.
    { apply str_eqb_true in H1. eauto. }
    destruct (str_eqb (netloc r) pn) eqn:H2; simpl.
    { apply str_eqb_true in H2. eauto. }
    apply str_eqb_false in H1, H2. eauto.
  - rewrite Forall_forall in Hi, He. split; auto.
Qed.

End LinkProofs.

(** ** What the pipeline recovers from the joined links *)

Lemma lstrip_by_spec p s :
  ∃ w, s = w ++ lstrip_by p s ∧ forallb p w = true
       ∧ match lstrip_by p s with [] => True | c :: _ => p c = false end.
Proof.
  induction s as [|c s (w & Hs & Hw & Hhd)]; simpl.
  - by exists [].
  - destruct (p c) eqn:Hc.
    + exists (c :: w). simpl. rewrite Hc, Hw. split; [by f_equal|done].
    + exists []. by rewrite Hc.
Qed.

Lemma lstrip_by_fixed p s :
  match s with [] => True | c :: _ => p c = false end → lstrip_by p s = s.
Proof. destruct s as [|c s]; simpl; [done|]. by intros ->. Qed.

(** A stripped string: empty, or with a first and a last character that
    are not white space. *)
Lemma strip_spec s :
  ∃ w1 w2, s = w1 ++ strip s ++ w2
           ∧ forallb is_space w1 = true ∧ forallb is_space w2 = true
           ∧ match strip s with [] => True | c :: _ => is_space c = false end
           ∧ match rev (strip s) with [] => True | c :: _ => is_space c = false end.
Proof.
  unfold strip, rstrip_by.
  destruct (lstrip_by_spec is_space s) as (w1 & Hs & Hw1 & Hhd).
  set (y := lstrip_by is_space s) in *.
  destruct (lstrip_by_spec is_space (rev y)) as (w2 & Hy & Hw2 & Hlast).
  set (z := lstrip_by is_space (rev y)) in *.
  assert (Hyz : y = rev z ++ rev w2).
  { rewrite <- (rev_involutive y), Hy. by rewrite rev_app_distr. }
  exists w1, (rev w2). rewrite rev_involutive. split_and!; try done.
  - by rewrite <- Hyz.
  - rewrite forallb_forall in Hw2. apply forallb_forall. intros c Hc.
    apply Hw2. by apply in_rev.
  - destruct (rev z) as [|c z'] eqn:Hz; [done|].
    rewrite Hyz in Hhd. exact Hhd.
Qed.

Lemma strip_fixed s :
  match s with [] => True | c :: _ => is_space c = false end →
  match rev s with [] => True | c :: _ => is_space c = false end →
  strip s = s.
Proof.
  intros Hhd Hlast. unfold strip, rstrip_by.
  rewrite (lstrip_by_fixed _ s Hhd), (lstrip_by_fixed _ (rev s) Hlast).
  apply rev_involutive.
Qed.

Lemma strip_idempotent s : strip (strip s) = strip s.
Proof.
  destruct (strip_spec s) as (_ & _ & _ & _ & _ & Hhd & Hlast).
  by apply strip_fixed.
Qed.

Lemma strip_sub q s : existsb q s = false → existsb q (strip s) = false.
Proof.
  intros Hs. destruct (strip_spec s) as (w1 & w2 & Heq & _).
  rewrite Heq, !existsb_app in Hs.
  apply orb_false_iff in Hs as [_ Hs]. by apply orb_false_iff in Hs as [? _].
Qed.

Lemma split_on_pieces c s seg : seg ∈ split_on c s → has c seg = false.
Proof.
  revert seg. induction s as [|x s IH]; simpl; intros seg Hin.
  - by apply list_elem_of_singleton in Hin as ->.
  - destruct (chr_eqb c x) eqn:Hx.
    + apply elem_of_cons in Hin as [->|Hin]; [done|]. by apply IH.
    + destruct (split_on c s) as [|seg0 segs]; simpl in *.
      * apply list_elem_of_singleton in Hin as ->. simpl. by rewrite Hx.
      * apply elem_of_cons in Hin as [->|Hin].
        -- simpl. rewrite Hx. apply IH. by left.
        -- apply IH. by right.
Qed.

(** Every link that [JSONPipeline] recovers from the joined field is a
    piece between two [;]: it is not empty, holds no [;], and neither
    starts nor ends with white space, so stripping it again changes
    nothing. *)
Theorem recovered_links_are_stripped s l :
  l ∈ recover_links s →
  l ≠ [] ∧ has ";" l = false ∧ strip l = l
  ∧ (∃ piece, piece ∈ split_on ";" s ∧ l = strip piece).
Proof.
  unfold recover_links. intros Hin.
  apply list_elem_of_fmap in Hin as (piece & -> & Hin).
  apply list_elem_of_In, filter_In in Hin as [Hin Hne].
  apply list_elem_of_In in Hin.
  apply negb_true_iff, str_eqb_false in Hne.
  split_and!; [done| |apply strip_idempotent|by exists piece].
  apply strip_sub. exact (split_on_pieces _ _ _ Hin).
Qed.

(** ** The attributes of an entry *)

Lemma dict_set_fresh {V} k (v : V) d :
  k ∉ map fst d → dict_set k v d = d ++ [(k, v)].
Proof.
  induction d as [|[k' v'] d IH]; simpl; intros Hk; [done|].
  apply not_elem_of_cons in Hk as [Hne Hk].
  destruct (str_eqb k k') eqn:Heq.
  - by apply str_eqb_true in Heq.
  - by rewrite IH.
Qed.

(** The attributes of an element of a parsed document come out in their
    order, one entry per attribute: a list value joined by single spaces,
    a string value as it is. *)
Theorem flatten_attrs_keeps_order attrs :
  NoDup (map fst attrs) →
  flatten_attrs attrs = map (λ kv, (fst kv, flat_value (snd kv))) attrs.
Proof.
  unfold flatten_attrs.
  assert (Hgen : ∀ acc : list (str * str),
            NoDup (map fst acc ++ map fst attrs) →
            fold_left
              (λ acc kv,
                 match snd kv with
                 | AList l => dict_set (fst kv) (join (py " ") l) acc
                 | AStr s => dict_set (fst kv) s acc
                 end) attrs acc
            = acc ++ map (λ kv, (fst kv, flat_value (snd kv))) attrs).
  { induction attrs as [|[k v] attrs IH]; intros acc Hnd;
      cbn [fold_left fst snd map] in *.
    - by rewrite app_nil_r.
    - apply NoDup_app in Hnd as (Hacc & Hdisj & Hnd).
      apply NoDup_cons in Hnd as [Hk Hnd].
      assert (Hfresh : k ∉ map fst acc).
      { intros Hin. apply (Hdisj _ Hin). by left. }
      assert (Hstep : match v with
                      | AList l => dict_set k (join (py " ") l) acc
                      | AStr s => dict_set k s acc
                      end = acc ++ [(k, flat_value v)]).
      { destruct v; cbn [flat_value]; by rewrite dict_set_fresh. }
      rewrite Hstep, IH.
      + by rewrite <- app_assoc.
      + rewrite map_app. cbn [map fst]. rewrite <- app_assoc. cbn [app].
        apply NoDup_app. split_and!; [done| |by apply NoDup_cons].
        intros x Hx Hin. apply elem_of_cons in Hin as [->|Hin]; [done|].
        apply (Hdisj _ Hx). by right. }
  intros Hnd. by rewrite Hgen.
Qed.

(** ** Links that keep their fragment *)

Section FallbackProofs.

Context `{Urllib.HostChecks}.

Import Urllib.

Lemma urlsplit_rest_host sch url :
  match urlsplit_rest sch url with
  | Some sr => s_netloc sr = rest_netloc url ∧ host_ok (rest_netloc url) = true
  | None => host_ok (rest_netloc url) = false
  end.
Proof.
  unfold urlsplit_rest, rest_netloc, host_ok.
  destruct (startswith url (py "//")).
  - destruct (_splitnetloc (skipn 2 url)) as [nl url1]. cbn [fst].
    destruct (_ || _); [done|]. destruct (has "[" nl && _ && _); [done|].
    destruct (if has "#" url1 then _ else _) as [url2 frag].
    destruct (if has "?" url2 then _ else _) as [url3 q].
    by destruct (_ && _).
  - destruct (_ || _); [done|]. destruct (has "[" [] && _ && _); [done|].
    destruct (if has "#" url then _ else _) as [url2 frag].
    destruct (if has "?" url2 then _ else _) as [url3 q].
    by destruct (_ && _).
Qed.

(** The host that a URL names does not depend on the default scheme, nor
    does the verdict of the validations on it. *)
Lemma urlparse_host u :
  ∃ n, ∀ d, match urlparse u d with
            | Some r => netloc r = n ∧ host_ok n = true
            | None => host_ok n = false
            end.
Proof.
  exists (rest_netloc (if has_scheme u then after ":" (clean_url u)
                       else clean_url u)).
  intros d. unfold urlparse. rewrite urlsplit_unfold.
  destruct (has_scheme u).
  - pose proof (urlsplit_rest_host (lower (before ":" (clean_url u)))
                  (after ":" (clean_url u))) as Hh.
    destruct (urlsplit_rest _ _) as [sr|]; [|done].
    destruct (_ && _); [destruct (_splitparams _)|]; done.
  - pose proof (urlsplit_rest_host (clean_scheme d) (clean_url u)) as Hh.
    destruct (urlsplit_rest _ _) as [sr|]; [|done].
    destruct (_ && _); [destruct (_splitparams _)|]; done.
Qed.

Lemma urlunparse_prefix_delim bs N P PR Q F :
  bs ≠ [] → N ≠ [] →
  ∃ X, urlunparse bs N P PR Q F = bs ++ ":"%char :: (py "//" ++ N ++ X)
       ∧ match X with [] => True | c :: _ => is_delim c = true end.
Proof.
  intros Hs Hn. unfold urlunparse, urlunsplit.
  apply str_eqb_false in Hs, Hn. rewrite Hs, Hn. cbn [negb orb andb].
  set (url := if negb (str_eqb PR []) then P ++ py ";" ++ PR else P).
  assert (Hurl : ∃ X, (if negb (str_eqb url []) && negb (startswith url (py "/"))
                       then py "/" ++ url else url) = X
                      ∧ match X with [] => True | c :: _ => c = "/"%char end).
  { clearbody url. eexists. split; [done|]. destruct url as [|c url']; [done|].
    destruct (startswith (c :: url') (py "/")) eqn:Hst.
    - rewrite andb_false_r. cbn [startswith py String.list_ascii_of_string] in Hst.
      rewrite andb_true_r in Hst. unfold chr_eqb in Hst.
      by apply Ascii.eqb_eq in Hst.
    - assert (Hne : str_eqb (c :: url') [] = false) by (by apply str_eqb_false).
      by rewrite Hne. }
  destruct Hurl as (X & -> & HX).
  assert (HX' : match X with [] => True | c :: _ => is_delim c = true end).
  { destruct X; [done|]. by subst. }
  destruct (negb (str_eqb Q [])), (negb (str_eqb F []));
    eexists; rewrite <- ?app_assoc; cbn [app py String.list_ascii_of_string];
    (split; [reflexivity|]); destruct X; done.
Qed.

(** A URL put together from the parts of a parse that names a host parses
    again. *)
Lemma urlparse_rebuilt bs N P PR Q F :
  valid_scheme bs → N ≠ [] →
  existsb is_delim N = false → existsb is_unsafe N = false →
  host_ok N = true →
  urlparse (urlunparse bs N P PR Q F) [] ≠ None.
Proof.
  intros Hs Hn Hd Hu Hok.
  destruct (valid_scheme_facts _ Hs) as (Hne & _).
  destruct (urlunparse_prefix_delim bs N P PR Q F Hne Hn) as (X & -> & HX).
  destruct (urlsplit_prefixed bs (py "//" ++ N ++ X) [] Hs) as [Hhas Hsplit].
  unfold urlparse. rewrite Hsplit.
  change (remove_unsafe (py "//" ++ N ++ X))
    with (py "//" ++ remove_unsafe (N ++ X)).
  pose proof (urlsplit_rest_host bs (py "//" ++ remove_unsafe (N ++ X))) as Hh.
  assert (Hnl : rest_netloc (py "//" ++ remove_unsafe (N ++ X)) = N).
  { unfold rest_netloc.
    change (startswith (py "//" ++ remove_unsafe (N ++ X)) (py "//")) with true.
    cbv iota. change (skipn 2 (py "//" ++ remove_unsafe (N ++ X)))
      with (remove_unsafe (N ++ X)).
    rewrite remove_unsafe_app. unfold remove_unsafe at 1.
    rewrite filter_neg_id by done. unfold _splitnetloc.
    rewrite span_until_app by done. cbn [fst].
    destruct X as [|c X']; [by rewrite app_nil_r|].
    assert (Hc : is_unsafe c = false).
    { revert HX. unfold is_delim, is_unsafe, chr_eqb, code.
      intros HX. apply orb_true_iff in HX as [HX|HX];
        [apply orb_true_iff in HX as [HX|HX]|];
        apply Ascii.eqb_eq in HX; by subst. }
    unfold remove_unsafe. simpl. rewrite Hc. simpl. rewrite HX. simpl.
    by rewrite app_nil_r. }
  rewrite Hnl, Hok in Hh.
  destruct (urlsplit_rest _ _) as [sr|]; [|done].
  destruct (_ && _); [destruct (_splitparams _)|]; done.
Qed.

(** When [normalize_url] falls back to its argument under a seed with
    scheme [http] or [https] and a host, the argument is not an internal
    link. *)
Lemma fallback_is_external base u :
  http_base base →
  match urljoin base u with
  | Some resolved => urlparse resolved [] = None
  | None => True
  end →
  is_internal_link base u = false.
Proof.
  intros (b & Hb & Hbs & Hbn) Hfall.
  destruct (http_scheme_facts _ Hbs) as (Hvalid & Hclean & Hne & Hrel & Hnet).
  unfold is_internal_link. rewrite Hb.
  destruct (urlparse u []) as [p|] eqn:Hp; [|done].
  apply str_eqb_false. intros Hsame.
  destruct (urlparse_host u) as [n Hhost].
  pose proof (Hhost []) as H0. rewrite Hp in H0. destruct H0 as [Hpn Hok].
  pose proof (Hhost (scheme b)) as H1.
  unfold urljoin in Hfall.
  destruct (str_eqb base []) eqn:Hbase0.
  { apply str_eqb_true in Hbase0. subst base. rewrite urlparse_empty in Hb.
    injection Hb as <-. done. }
  destruct (str_eqb u []) eqn:Hu0; [congruence|].
  rewrite Hb in Hfall.
  destruct (urlparse u (scheme b)) as [pu|] eqn:Hpu; [|congruence].
  destruct H1 as [Hpun _].
  pose proof (urlparse_inv _ _ _ Hpu) as (Hsch & Hd & Hun & _).
  destruct (negb (str_eqb (scheme pu) (scheme b))
            || negb (str_in (scheme pu) uses_relative)) eqn:Hcond;
    [congruence|].
  apply orb_false_iff in Hcond as [Hsame' _].
  apply negb_false_iff, str_eqb_true in Hsame'.
  rewrite Hsame', Hnet in Hfall. cbn [andb] in Hfall.
  assert (Hnn : netloc pu ≠ []) by congruence.
  apply str_eqb_false in Hnn. rewrite Hnn in Hfall. cbn [negb] in Hfall.
  apply str_eqb_false in Hnn.
  revert Hfall. apply urlparse_rebuilt; try done.
  by rewrite Hpun.
Qed.

Lemma internal_link_no_fragment base href :
  http_base base →
  is_internal_link base (normalize_url base href) = true →
  has "#" (normalize_url base href) = false.
Proof.
  intros Hbase Hint. pose proof (normalize_url_cases base href) as Hcases.
  pose proof (fallback_is_external base href Hbase) as Hfall.
  destruct (urljoin base href) as [resolved|].
  - destruct (urlparse resolved []) as [r|]; [by destruct Hcases|].
    rewrite Hcases, Hfall in Hint; done.
  - rewrite Hcases, Hfall in Hint; done.
Qed.

Variable fetch : str → fetched.
Variable raises : node → bool.
Variable os_rejects : PrimFloat.float -> bool.
Variable delay : PrimFloat.float.
Variable max_pages : option Z.
Variable seed : str.

(** Under a seed with scheme [http] or [https] and a host, no link of a
    page record carries a fragment, and so no URL that the crawl visits or
    queues does, the seed apart: two links to one page that differ in the
    fragment alone are one URL to the crawl. *)
Theorem crawl_urls_have_no_fragment fuel s' :
  http_base seed →
  crawl fetch raises os_rejects delay max_pages fuel (init seed) = Some s' →
  (∀ u, u ∈ visited s' ∨ u ∈ to_visit s' → u = seed ∨ has "#" u = false)
  ∧ (∀ d l, d ∈ data s' → l ∈ pd_internal_links d → has "#" l = false).
Proof.
  intros Hbase Hrun.
  assert (Hurls : ∀ u, u ∈ visited s' ∨ u ∈ to_visit s' →
                       u = seed ∨ has "#" u = false).
  { intros u Hu.
    destruct (crawl_urls_origin _ _ _ _ _ _ _ _ _ Hrun Hu)
      as [->|(href & -> & Hint)]; [by left|right].
    by apply internal_link_no_fragment. }
  split; [done|]. intros d l Hd Hl.
  destruct (crawl_links_origin _ _ _ _ _ _ _ _ _ _ Hrun Hd Hl)
    as (href & -> & Hint).
  by apply internal_link_no_fragment.
Qed.

End FallbackProofs.

(** ** The properties on the example site *)

Lemma crawl_terminates_witness :
  ∃ fuel s', crawl (H := plain_hosts) site_fetch no_fault no_limit
      Pytime.default_delay (Some 2%Z) fuel
               (init (py "http://a.test/")) = Some s'.
Proof.
  exact (crawl_terminates (H := plain_hosts) site_fetch no_fault no_limit
      Pytime.default_delay (Some 2%Z)
           (py "http://a.test/") 2%Z eq_refl).
Defined.

Lemma crawl_without_budget_witness :
  crawl (H := plain_hosts) site_fetch no_fault no_limit
      Pytime.default_delay (Some 0%Z) 5
    (init (py "http://a.test/"))
  = Some (init (py "http://a.test/")).
Proof.
  apply (crawl_without_budget (H := plain_hosts) site_fetch no_fault no_limit
      Pytime.default_delay
           (Some 0%Z) (py "http://a.test/") 0%Z 5); [reflexivity|lia].
Defined.

Lemma enqueue_appends_fresh_links_witness :
  steps (H := plain_hosts) site_fetch no_fault no_limit
      Pytime.default_delay None 2
    (AtEnqueue [py "http://a.test/"; py "http://a.test/x"],
     init (py "http://a.test/"))
  = Some (AtEnqueue [],
          set_frontier (init (py "http://a.test/")) ∅
            ([py "http://a.test/"]
             ++ filter (λ l, l ∉ (∅ : gset str) ∧ l ∉ [py "http://a.test/"])
                  [py "http://a.test/"; py "http://a.test/x"])).
Proof.
  apply (enqueue_appends_fresh_links (H := plain_hosts) site_fetch no_fault no_limit
      Pytime.default_delay
           None (py "http://a.test/")
           [py "http://a.test/"; py "http://a.test/x"]
           (init (py "http://a.test/"))).
  apply (bool_decide_unpack _). vm_compute. exact I.
Defined.

Lemma crawl_follows_the_links_witness :
  ∃ s', crawl (H := plain_hosts) site_fetch no_fault no_limit
      Pytime.default_delay
          None 40 (init (py "http://a.test/")) = Some s'
        ∧ Pytime.sleep_raises no_limit Pytime.default_delay = false
        ∧ to_visit s' = [].
Proof.
  eexists. split; [vm_compute; reflexivity|].
  split; [vm_compute; reflexivity|].
  match goal with
  | |- to_visit ?s = [] =>
      exact (proj2 (proj2 (crawl_follows_the_links (H := plain_hosts) site_fetch
                             no_fault no_limit Pytime.default_delay None
                             (py "http://a.test/") 40 s
                             ltac:(vm_compute; reflexivity)))
               eq_refl ltac:(vm_compute; reflexivity))
  end.
Defined.

Lemma crawl_stays_on_host_witness :
  ∃ s', crawl (H := plain_hosts) site_fetch no_fault no_limit
      Pytime.default_delay (Some 1%Z) 40
          (init (py "http://a.test/")) = Some s'
        ∧ py "http://a.test/x" ∈ to_visit s'
        ∧ (py "http://a.test/x" = py "http://a.test/"
           ∨ is_internal_link (H := plain_hosts) (py "http://a.test/")
               (py "http://a.test/x") = true).
Proof.
  eexists. split; [vm_compute; reflexivity|].
  match goal with
  | |- ?u ∈ to_visit ?s ∧ _ =>
      assert (Hin : u ∈ to_visit s) by (simpl; repeat constructor);
      split; [exact Hin|];
      exact (crawl_stays_on_host (H := plain_hosts) site_fetch no_fault no_limit
          Pytime.default_delay
               (Some 1%Z) (py "http://a.test/") 40 s u
               ltac:(vm_compute; reflexivity) (or_intror Hin))
  end.
Defined.

Lemma xlsx_rows_are_distinct_pages_witness :
  ∃ s', crawl (H := plain_hosts) site_fetch no_fault no_limit
      Pytime.default_delay None 40
          (init (py "http://a.test/")) = Some s'
        ∧ length (save_to_xlsx s') = length (data s')
        ∧ NoDup (map fst (save_to_xlsx s')).
Proof.
  eexists. split; [vm_compute; reflexivity|].
  match goal with
  | |- length (save_to_xlsx ?s) = _ ∧ _ =>
      destruct (xlsx_rows_are_distinct_pages (H := plain_hosts) site_fetch
                  no_fault no_limit
                      Pytime.default_delay None (py "http://a.test/") 40 s
                  ltac:(vm_compute; reflexivity)) as (Hlen & Hnd & _)
  end.
  split; [exact Hlen|exact Hnd].
Defined.

Lemma crawl_only_appends_witness :
  ∃ c', steps (H := plain_hosts) site_fetch no_fault no_limit
      Pytime.default_delay None 9
          (AtWhile, init (py "http://a.test/")) = Some c'
        ∧ data (init (py "http://a.test/")) `prefix_of` data (snd c')
        ∧ errors (init (py "http://a.test/")) `prefix_of` errors (snd c').
Proof.
  eexists. split; [vm_compute; reflexivity|].
  match goal with
  | |- _ `prefix_of` data (snd ?c) ∧ _ =>
      destruct (crawl_only_appends (H := plain_hosts) site_fetch no_fault no_limit
          Pytime.default_delay None 9
                  (AtWhile, init (py "http://a.test/")) c
                  ltac:(vm_compute; reflexivity)) as (Hd & He & _)
  end.
  split; [exact Hd|exact He].
Defined.

Lemma seed_is_scraped_first_witness :
  ∃ s', crawl (H := plain_hosts) site_fetch no_fault no_limit
      Pytime.default_delay None 40
          (init (py "http://a.test/")) = Some s'
        ∧ py "http://a.test/" ∈ visited s'.
Proof.
  eexists. split; [vm_compute; reflexivity|].
  match goal with
  | |- _ ∈ visited ?s =>
      exact (proj1 (seed_is_scraped_first (H := plain_hosts) site_fetch no_fault no_limit
          Pytime.default_delay
                      None (py "http://a.test/") 40 s
                      ltac:(vm_compute; reflexivity)
                      ltac:(vm_compute; reflexivity)))
  end.
Defined.

Lemma failed_seed_ends_the_crawl_witness :
  crawl (H := plain_hosts) site_fetch no_fault no_limit
      Pytime.default_delay None 2
    (init (py "http://a.test/broken"))
  = Some (mkScraper (py "http://a.test/broken") {[py "http://a.test/broken"]}
            [] []
            [error_record (py "http://a.test/broken")
               (py "Timeout 30000ms exceeded")]).
Proof.
  apply (failed_seed_ends_the_crawl (H := plain_hosts) site_fetch no_fault no_limit
      Pytime.default_delay None
           (py "http://a.test/broken") (py "Timeout 30000ms exceeded") 0);
    vm_compute; reflexivity.
Defined.

Lemma crawl_urls_have_no_fragment_witness :
  http_base (H := plain_hosts) (py "http://a.test/")
  ∧ ∃ s', crawl (H := plain_hosts) site_fetch no_fault no_limit
      Pytime.default_delay (Some 1%Z) 40
            (init (py "http://a.test/")) = Some s'
          ∧ py "http://a.test/y" ∈ to_visit s'
          ∧ (py "http://a.test/y" = py "http://a.test/"
             ∨ has "#" (py "http://a.test/y") = false).
Proof.
  assert (Hbase : http_base (H := plain_hosts) (py "http://a.test/")).
  { eexists. split; [vm_compute; reflexivity|]. split; [by left|done]. }
  split; [exact Hbase|].
  eexists. split; [vm_compute; reflexivity|].
  match goal with
  | |- ?u ∈ to_visit ?s ∧ _ =>
      assert (Hin : u ∈ to_visit s) by (simpl; repeat constructor);
      split; [exact Hin|];
      exact (proj1 (crawl_urls_have_no_fragment (H := plain_hosts) site_fetch
                      no_fault no_limit
                          Pytime.default_delay (Some 1%Z) (py "http://a.test/") 40 s Hbase
                      ltac:(vm_compute; reflexivity))
               u (or_intror Hin))
  end.
Defined.

Lemma spider_links_have_no_fragment_witness :
  split_links (H := plain_hosts) (py "http://a.test/") (py "a.test")
    [py "/y#top"; py "http://other.test/z#f"] [] []
  = Some ([py "http://a.test/y"], [py "http://other.test/z"])
  ∧ has "#" (py "http://a.test/y") = false
  ∧ has "#" (py "http://other.test/z") = false.
Proof.
  assert (Hrun : split_links (H := plain_hosts) (py "http://a.test/")
                   (py "a.test") [py "/y#top"; py "http://other.test/z#f"] [] []
                 = Some ([py "http://a.test/y"], [py "http://other.test/z"]))
    by (vm_compute; reflexivity).
  split; [exact Hrun|].
  split; apply (spider_links_have_no_fragment (H := plain_hosts) _ _ _ _ _ Hrun).
  - left. repeat constructor.
  - right. repeat constructor.
Defined.

Lemma spider_splits_by_host_witness :
  split_links (H := plain_hosts) (py "http://a.test/") (py "a.test")
    [py "/y#top"; py "http://other.test/z#f"] [] []
  = Some ([py "http://a.test/y"], [py "http://other.test/z"])
  ∧ (∃ r, Urllib.urlparse (H := plain_hosts) (py "http://a.test/y") [] = Some r
          ∧ (Urllib.netloc r = [] ∨ Urllib.netloc r = py "a.test"))
  ∧ (∃ r, Urllib.urlparse (H := plain_hosts) (py "http://other.test/z") []
          = Some r
          ∧ Urllib.netloc r ≠ [] ∧ Urllib.netloc r ≠ py "a.test").
Proof.
  assert (Hrun : split_links (H := plain_hosts) (py "http://a.test/")
                   (py "a.test") [py "/y#top"; py "http://other.test/z#f"] [] []
                 = Some ([py "http://a.test/y"], [py "http://other.test/z"]))
    by (vm_compute; reflexivity).
  split; [exact Hrun|].
  destruct (spider_splits_by_host (H := plain_hosts) _ _ _ _ _ Hrun)
    as [Hint Hext].
  split; [apply Hint|apply Hext]; repeat constructor.
Defined.

Lemma inventory_is_complete_witness :
  forallb parsed_node listing_page = true
  ∧ map dp_tag (extract_dom_properties no_fault listing_page)
    = map py ["html"; "head"; "title"; "body"; "ul"; "li"; "li"; "a"].
Proof.
  split; [vm_compute; reflexivity|].
  rewrite (proj1 (inventory_is_complete no_fault listing_page
                    ltac:(vm_compute; reflexivity) (λ e _, eq_refl))).
  vm_compute. reflexivity.
Defined.

Lemma inventory_entries_are_elements_witness :
  mkDomProp (py "div") [] [] None
  ∈ extract_dom_properties bad_fault three_elements
  ∧ dp_tag (mkDomProp (py "div") [] [] None) ≠ py "script".
Proof.
  assert (Hin : mkDomProp (py "div") [] [] None
                ∈ extract_dom_properties bad_fault three_elements)
    by (vm_compute; repeat constructor).
  split; [exact Hin|].
  apply (inventory_entries_are_elements bad_fault three_elements _ Hin).
Defined.

Lemma recovered_links_are_stripped_witness :
  py "http://a.test/y" ∈ recover_links (py "http://a.test/x; http://a.test/y")
  ∧ strip (py "http://a.test/y") = py "http://a.test/y".
Proof.
  assert (Hin : py "http://a.test/y"
                ∈ recover_links (py "http://a.test/x; http://a.test/y"))
    by (vm_compute; repeat constructor).
  split; [exact Hin|].
  apply (recovered_links_are_stripped _ _ Hin).
Defined.

Lemma flatten_attrs_keeps_order_witness :
  flatten_attrs [(py "class", AList [py "btn"; py "wide"]); (py "id", AStr (py "go"))]
  = [(py "class", py "btn wide"); (py "id", py "go")].
Proof.
  apply (flatten_attrs_keeps_order
           [(py "class", AList [py "btn"; py "wide"]); (py "id", AStr (py "go"))]).
  apply (bool_decide_unpack _). vm_compute. exact I.
Defined.

Lemma crawl_stops_when_done_witness :
  ∃ s', crawl (H := plain_hosts) site_fetch no_fault no_limit
      Pytime.default_delay
          (Some 1%Z) 40 (init (py "http://a.test/")) = Some s'
        ∧ (to_visit s' = []
           ∨ (∃ B, Some 1%Z = Some B
                   ∧ Z.of_nat (length (data s')) = Z.max 0 B)
           ∨ Pytime.sleep_raises no_limit Pytime.default_delay = true).
Proof.
  eexists. split; [vm_compute; reflexivity|].
  match goal with
  | |- to_visit ?s = [] ∨ _ =>
      exact (crawl_stops_when_done (H := plain_hosts) site_fetch no_fault no_limit
               Pytime.default_delay (Some 1%Z) (py "http://a.test/") 40 s
               ltac:(vm_compute; reflexivity))
  end.
Defined.

Lemma page_links_are_sorted_witness :
  ∃ d, scrape_body (H := plain_hosts) site_fetch no_fault (py "http://a.test/")
         (py "http://a.test/") = inl d
       ∧ Sorted str_le (pd_internal_links d)
       ∧ NoDup (pd_internal_links d).
Proof.
  eexists. split; [vm_compute; reflexivity|].
  match goal with
  | |- Sorted _ (pd_internal_links ?d) ∧ _ =>
      destruct (page_links_are_sorted (H := plain_hosts) site_fetch no_fault
                  (py "http://a.test/") (py "http://a.test/") d
                  ltac:(vm_compute; reflexivity)) as (Hs & Hnd & _)
  end.
  split; [exact Hs|exact Hnd].
Defined.

(** ** The text of a page *)

Lemma join_trimmed sep parts :
  Forall (λ p, p ≠ [] ∧ trimmed p) parts →
  parts = [] ∨ (join sep parts ≠ [] ∧ trimmed (join sep parts)).
Proof.
  induction parts as [|p ps IH]; [by left|]. intros Hall. right.
  apply Forall_cons in Hall as [[Hp [Hhd Hlast]] Hps].
  destruct (IH Hps) as [->|[Hne [Hjhd Hjlast]]]; [done|].
  destruct ps as [|q ps]; [done|].
  change (join sep (p :: q :: ps)) with (p ++ sep ++ join sep (q :: ps)).
  set (J := join sep (q :: ps)) in *.
  split; [by destruct p|]. split.
  - by destruct p.
  - rewrite !rev_app_distr. destruct (rev J) as [|c r] eqn:HJ; [|done].
    exfalso. apply Hne. rewrite <- (rev_involutive J), HJ. done.
Qed.

Lemma get_text_stripped separator ns :
  strip (get_text_strip separator ns) = get_text_strip separator ns.
Proof.
  unfold get_text_strip.
  set (pieces := List.filter _ _).
  assert (Hall : Forall (λ p, p ≠ [] ∧ trimmed p) pieces).
  { apply Forall_forall. intros p Hp. subst pieces.
    apply list_elem_of_In, filter_In in Hp as [Hp Hne].
    apply negb_true_iff, str_eqb_false in Hne. split; [done|].
    apply in_map_iff in Hp as (s & <- & _).
    destruct (strip_spec s) as (_ & _ & _ & _ & _ & Hhd & Hlast). by split. }
  destruct (join_trimmed separator pieces Hall) as [->|[_ [Hhd Hlast]]]; [done|].
  by apply strip_fixed.
Qed.

(** The text content of a page record has no white space at either end:
    [get_text(strip=True)] strips every string of the document and leaves
    out the empty ones before it joins them. *)
Theorem page_content_is_stripped `{Urllib.HostChecks} fetch raises sd url d :
  scrape_body fetch raises sd url = inl d →
  strip (pd_content d) = pd_content d ∧ trimmed (pd_content d).
Proof.
  unfold scrape_body.
  destruct (fetch url) as [doc pt|m]; [|discriminate].
  destruct (collect_links _ _ _) as [links|]; [|discriminate].
  intros [= <-]. simpl.
  pose proof (get_text_stripped [ascii_of_nat 10] doc) as Hfix.
  split; [exact Hfix|].
  destruct (strip_spec (get_text_strip [ascii_of_nat 10] doc))
    as (_ & _ & _ & _ & _ & Hhd & Hlast).
  rewrite Hfix in Hhd, Hlast. by split.
Qed.

Lemma page_content_is_stripped_witness :
  ∃ d, scrape_body (H := plain_hosts) site_fetch no_fault (py "http://a.test/")
         (py "http://a.test/") = inl d
       ∧ strip (pd_content d) = pd_content d.
Proof.
  eexists. split; [vm_compute; reflexivity|].
  match goal with
  | |- strip (pd_content ?d) = _ =>
      exact (proj1 (page_content_is_stripped (H := plain_hosts) site_fetch
                      no_fault (py "http://a.test/") (py "http://a.test/") d
                      ltac:(vm_compute; reflexivity)))
  end.
Defined.
